(** * Neural style transfer (transfer/style_transfer.py): model and properties

    A shallow embedding of the core of [style_transfer.py]: the Gram
    matrix, the two loss modules, the assembly of the tapped and truncated
    pipeline ([get_style_model_and_losses]) and the optimisation loop
    ([run_style_transfer]).

    Conventions of the model.
    - A floating-point number ([fnum]: a tensor entry, a Python float, the
      value of a 0-dimensional loss tensor) is an exact rational or one of
      the three IEEE special values, with the IEEE rules for them.  The
      arithmetic of the rationals is exact: rounding and overflow are not
      modelled, so equalities that the floating-point code satisfies
      "within tolerance" are exact here.
    - A tensor has a shape, one stride for each dimension, and its entries
      in row-major order of the indices; the strides decide whether
      [view] accepts it.
    - The numeric backend that the source only calls (the forward pass of
      the backbone layers, [F.mse_loss], broadcasting arithmetic, autograd,
      [save_image]) is a parameter ([backend]); every theorem holds for all
      backends.
    - Objects that the source shares between the pipeline and the loss
      lists (the loss modules) live in an explicit store and are named by
      references. *)

From Stdlib Require Import List ZArith QArith Qcanon Lia String Ascii Bool Arith.
From Stdlib Require Import Permutation DecimalString.
Import ListNotations.

Open Scope string_scope.
Open Scope nat_scope.
Open Scope list_scope.

(* ================================================================== *)
(** ** Exceptions and results *)

Inductive exn : Type :=
| ValueError                    (* unpacking a size of the wrong length *)
| AttributeError                (* attribute missing on a Python object *)
| RuntimeError (msg : string)   (* raised by the source itself *)
| BackendError (msg : string)   (* raised inside the numeric backend *)
| IOError (path : string)       (* raised by the image sink *)
| IndexError                    (* indexing a shape out of range *)
| OverflowError.                (* an integer too large for a float *)

Inductive result (A : Type) : Type :=
| Returns (a : A)
| Raises (e : exn).

Arguments Returns {A} a.
Arguments Raises {A} e.

Definition bind {A B : Type} (r : result A) (k : A -> result B) : result B :=
  match r with
  | Returns a => k a
  | Raises e => Raises e
  end.

Notation "x <- r ;; k" := (bind r (fun x => k))
  (at level 100, r at next level, right associativity).
Notation "' p <- r ;; k" := (bind r (fun x => let p := x in k))
  (at level 100, p pattern, r at next level, right associativity).

(* ================================================================== *)
(** ** Floating-point numbers

    [fnum] is a Python float, a tensor entry or the value of a
    0-dimensional tensor: an exact rational or one of the IEEE special
    values. *)

Inductive fnum : Type :=
| Fin (q : Qc)
| PInf
| NInf
| NaN.

Definition is_finite (x : fnum) : bool :=
  match x with
  | Fin _ => true
  | _ => false
  end.

Definition is_nan (x : fnum) : bool :=
  match x with
  | NaN => true
  | _ => false
  end.

Definition fadd (x y : fnum) : fnum :=
  match x, y with
  | NaN, _ | _, NaN => NaN
  | PInf, NInf | NInf, PInf => NaN
  | PInf, _ | _, PInf => PInf
  | NInf, _ | _, NInf => NInf
  | Fin a, Fin b => Fin (a + b)%Qc
  end.

Definition fneg (x : fnum) : fnum :=
  match x with
  | Fin a => Fin (- a)%Qc
  | PInf => NInf
  | NInf => PInf
  | NaN => NaN
  end.

(** The sign of an infinity multiplied by a finite factor. *)
Definition scale_inf (a : Qc) (inf : fnum) : fnum :=
  match (a ?= 0)%Qc with
  | Eq => NaN
  | Gt => inf
  | Lt => fneg inf
  end.

Definition fmul (x y : fnum) : fnum :=
  match x, y with
  | NaN, _ | _, NaN => NaN
  | Fin a, Fin b => Fin (a * b)%Qc
  | Fin a, inf => scale_inf a inf
  | inf, Fin b => scale_inf b inf
  | PInf, PInf | NInf, NInf => PInf
  | PInf, NInf | NInf, PInf => NInf
  end.

Definition Qc_of_nat (n : nat) : Qc := Q2Qc (inject_Z (Z.of_nat n)).

(** [x / n] for a count [n], which as a float is [n] itself, or [+0]:
    [0 / 0] is NaN, any other number over [0] an infinity of its sign. *)
Definition fdiv_count (x : fnum) (n : nat) : fnum :=
  match x, n with
  | Fin a, O =>
      match (a ?= 0)%Qc with
      | Eq => NaN
      | Gt => PInf
      | Lt => NInf
      end
  | Fin a, S _ => Fin (a / Qc_of_nat n)%Qc
  | _, _ => x
  end.

(** [x == y]: NaN equals nothing, not even itself. *)
Definition feqb (x y : fnum) : bool :=
  match x, y with
  | Fin a, Fin b => Qc_eq_bool a b
  | PInf, PInf | NInf, NInf => true
  | _, _ => false
  end.

(** [x <= y]: NaN is comparable to nothing. *)
Definition fle (x y : fnum) : Prop :=
  match x, y with
  | NaN, _ | _, NaN => False
  | NInf, _ | _, PInf => True
  | Fin a, Fin b => (a <= b)%Qc
  | _, _ => False
  end.

Definition Qcleb (x y : Qc) : bool :=
  match (x ?= y)%Qc with
  | Gt => false
  | _ => true
  end.

Definition Qcmax (x y : Qc) : Qc := if Qcleb x y then y else x.
Definition Qcmin (x y : Qc) : Qc := if Qcleb x y then x else y.

(** The maximum and the minimum as [clamp] takes them: NaN if an operand
    is NaN. *)
Definition fmax (x y : fnum) : fnum :=
  match x, y with
  | NaN, _ | _, NaN => NaN
  | PInf, _ | _, PInf => PInf
  | NInf, z | z, NInf => z
  | Fin a, Fin b => Fin (Qcmax a b)
  end.

Definition fmin (x y : fnum) : fnum :=
  match x, y with
  | NaN, _ | _, NaN => NaN
  | NInf, _ | _, NInf => NInf
  | PInf, z | z, PInf => z
  | Fin a, Fin b => Fin (Qcmin a b)
  end.

(** A Python value that takes part in the score arithmetic of the closure:
    a plain number ([style_score = 0], the weights) or a 0-dimensional
    tensor (a [.loss]).  Arithmetic with a tensor operand gives a tensor. *)
Inductive pyval : Type :=
| PyNum (x : fnum)
| PyTensor (x : fnum).

Definition pyval_value (v : pyval) : fnum :=
  match v with
  | PyNum x | PyTensor x => x
  end.

Definition py_binop (op : fnum -> fnum -> fnum) (u v : pyval) : pyval :=
  match u, v with
  | PyNum x, PyNum y => PyNum (op x y)
  | _, _ => PyTensor (op (pyval_value u) (pyval_value v))
  end.

Definition py_add : pyval -> pyval -> pyval := py_binop fadd.
Definition py_mul : pyval -> pyval -> pyval := py_binop fmul.

(** [v.item()]: only tensors have the method. *)
Definition py_item (v : pyval) : result fnum :=
  match v with
  | PyTensor x => Returns x
  | PyNum _ => Raises AttributeError
  end.

(* ================================================================== *)
(** ** Tensors *)

(** [strides] has one entry for each dimension: the distance in memory
    between two entries whose index in that dimension differs by one.
    [data] lists the entries by their indices, in row-major order, whatever
    the strides. *)
Record tensor : Type := mkTensor {
  shape : list nat;
  strides : list nat;
  data : list fnum
}.

Definition numel (s : list nat) : nat := fold_right Nat.mul 1 s.

Definition wf_tensor (t : tensor) : Prop :=
  List.length (data t) = numel (shape t).

(** The strides of a freshly made tensor of a given shape (row-major,
    contiguous; a dimension of size 0 counts as one of size 1). *)
Fixpoint contiguous_strides (s : list nat) : list nat :=
  match s with
  | [] => []
  | _ :: rest =>
      fold_right (fun n acc => Nat.max n 1 * acc) 1 rest :: contiguous_strides rest
  end.

(** A freshly made tensor. *)
Definition fresh_tensor (s : list nat) (d : list fnum) : tensor :=
  mkTensor s (contiguous_strides s) d.

(** [x.clamp(lo, hi)] on one entry: [min(max(x, lo), hi)]; a NaN entry
    stays NaN. *)
Definition clamp_value (lo hi : Qc) (x : fnum) : fnum :=
  fmin (fmax x (Fin lo)) (Fin hi).

(** [t.clamp_(lo, hi)]: every entry clamped in place. *)
Definition clamp_ (lo hi : Qc) (t : tensor) : tensor :=
  mkTensor (shape t) (strides t) (map (clamp_value lo hi) (data t)).

Definition in_unit_interval (x : fnum) : Prop :=
  fle (Fin 0%Qc) x /\ fle x (Fin 1%Qc).

Definition pixels_in_unit_interval (t : tensor) : Prop :=
  Forall in_unit_interval (data t).

(* ================================================================== *)
(** ** The Gram matrix *)

Definition Qcsum (l : list Qc) : Qc := fold_right Qcplus 0%Qc l.

Definition fsum (l : list fnum) : fnum := fold_right fadd (Fin 0%Qc) l.

(** Entry [(i, j)] of a row-major matrix with [cols] columns. *)
Definition entry (cols : nat) (d : list fnum) (i j : nat) : fnum :=
  nth (i * cols + j) d (Fin 0%Qc).

(** The row-major data of the [rows] x [cols] matrix with entries [f i j]. *)
Definition tabulate (rows cols : nat) (f : nat -> nat -> fnum) : list fnum :=
  flat_map (fun i => map (f i) (seq 0 cols)) (seq 0 rows).

(** [m.t()] of a [rows] x [cols] matrix. *)
Definition transpose (rows cols : nat) (d : list fnum) : list fnum :=
  tabulate cols rows (fun j i => entry cols d i j).

(** [torch.mm] of an [n] x [k] by a [k] x [m] matrix. *)
Definition mm (n k m : nat) (A B : list fnum) : list fnum :=
  tabulate n m
    (fun i j => fsum (map (fun l => fmul (entry k A i l) (entry m B l j)) (seq 0 k))).

(** Two neighbouring dimensions, of sizes [m] and [n] and strides [s] and
    [t], that a view can merge into one: one of them has a single index,
    or a step in the first is [n] steps in the second. *)
Definition mergeable (m n s t : nat) : bool :=
  (m =? 1) || (n =? 1) || (s =? n * t).

(** [input.view(a * b, c * d)] exists for an input of shape [a, b, c, d]:
    the input has no entry, or the first two and the last two dimensions
    can be merged. *)
Definition viewable (a b c d : nat) (st : list nat) : bool :=
  (a * b * c * d =? 0) ||
  (mergeable a b (nth 0 st 0) (nth 1 st 0) &&
   mergeable c d (nth 2 st 0) (nth 3 st 0)).

(** The message of the [RuntimeError] of [view]. *)
Definition view_error : string :=
  "view size is not compatible with input tensor's size and stride (at least one dimension spans across two contiguous subspaces). Use .reshape(...) instead.".

(** [gram_matrix(input)]:
    [a, b, c, d = input.size()]; [features = input.view(a * b, c * d)];
    [G = torch.mm(features, features.t())]; [G.div(a * b * c * d)].
    Unpacking raises [ValueError] unless the input has four dimensions,
    and [view] raises [RuntimeError] on strides it cannot merge. *)
Definition gram_matrix (input : tensor) : result tensor :=
  match shape input with
  | [a; b; c; d] =>
      if viewable a b c d (strides input) then
        let features := data input in
        let G := mm (a * b) (c * d) (a * b)
                    features (transpose (a * b) (c * d) features) in
        Returns (fresh_tensor [a * b; a * b]
                   (map (fun x => fdiv_count x (a * b * c * d)) G))
      else Raises (RuntimeError view_error)
  | _ => Raises ValueError
  end.

(** [d == d'] holds at every entry. *)
Definition equal_entries (d d' : list fnum) : Prop :=
  Forall2 (fun x y => feqb x y = true) d d'.

(** A 2-dimensional tensor equals its own transpose:
    [(G == G.t()).all()]. *)
Definition symmetric (G : tensor) : Prop :=
  match shape G with
  | [r; c] => r = c /\ equal_entries (transpose r c (data G)) (data G)
  | _ => False
  end.

(** No entry of the tensor is NaN. *)
Definition no_nan (t : tensor) : Prop :=
  Forall (fun x => is_nan x = false) (data t).

(** Every entry of the tensor is a finite number. *)
Definition finite_entries (t : tensor) : Prop :=
  Forall (fun x => is_finite x = true) (data t).


(* ================================================================== *)
(** ** Backbone layers, loss modules and pipelines *)

(** The layer classes that the assembly tells apart by [isinstance].
    The parameters of a layer are frozen; only those of the pooling layers
    are looked at by a claim. *)
Inductive layer : Type :=
| Conv2d (weight bias : tensor)
| ReLU (inplace : bool)
| MaxPool2d (kernel_size stride padding : nat) (ceil_mode : bool)
| AvgPool2d (kernel_size stride padding : nat) (ceil_mode : bool)
| BatchNorm2d (running_stats : tensor)
| OtherLayer (class_name : string).

(** The state of a [ContentLoss] or [StyleLoss] object: the detached target
    and the [.loss] attribute, absent until the first forward pass. *)
Record loss_module : Type := mkLoss {
  target : tensor;
  loss : option fnum
}.

(** Loss modules are shared between the pipeline and the loss lists, so
    they live in a store; a reference is an index into it. *)
Definition ref : Type := nat.
Definition store : Type := list loss_module.

Inductive stage : Type :=
| Normalization (mean std : tensor)
| Backbone (l : layer)
| ContentLoss (r : ref)
| StyleLoss (r : ref).

(** [nn.Sequential]: an ordered dictionary from names to stages. *)
Definition sequential : Type := list (string * stage).

(** [isinstance(m, ContentLoss) or isinstance(m, StyleLoss)] *)
Definition is_tap (s : stage) : bool :=
  match s with
  | ContentLoss _ | StyleLoss _ => true
  | _ => false
  end.

(** [model.add_module(name, m)]: a new name is appended, an existing name
    keeps its position and gets the new module.  (The names built by the
    assembly are non-empty, have no dot and are no attribute of
    [nn.Sequential], so the call does not raise.) *)
Fixpoint add_module (name : string) (m : stage) (model : sequential) : sequential :=
  match model with
  | [] => [(name, m)]
  | (n, x) :: rest =>
      if String.eqb n name then (n, m) :: rest
      else (n, x) :: add_module name m rest
  end.

(** Replace the object at a reference. *)
Fixpoint store_set (r : ref) (m : loss_module) (st : store) : store :=
  match st, r with
  | [], _ => []
  | _ :: rest, O => m :: rest
  | x :: rest, S r' => x :: store_set r' m rest
  end.

(** The numeric backend: what the source calls and does not define. *)
Record backend : Type := mkBackend {
  (* the forward pass of a backbone layer *)
  layer_forward : layer -> tensor -> result tensor;
  (* [F.mse_loss(input, target)] *)
  mse_loss : tensor -> tensor -> result fnum;
  (* broadcasting [x - y] and [x / y] *)
  tensor_sub : tensor -> tensor -> result tensor;
  tensor_div : tensor -> tensor -> result tensor;
  (* [loss.backward()] on a loss tensor: the gradient left in
     [input_img.grad], from the pipeline, the loss modules, the two
     weights and the image *)
  autograd : sequential -> store -> fnum -> fnum -> tensor -> result tensor;
  (* [save_image(img, path)] *)
  save_image : tensor -> string -> result unit
}.

Section Modules.

Variable B : backend.

(** [ContentLoss.forward]:
    [self.loss = F.mse_loss(input, self.target)]; [return input]. *)
Definition ContentLoss_forward (st : store) (r : ref) (input : tensor)
  : result (tensor * store) :=
  match nth_error st r with
  | None => Raises AttributeError
  | Some self =>
      l <- mse_loss B input (target self) ;;
      Returns (input, store_set r (mkLoss (target self) (Some l)) st)
  end.

(** [StyleLoss.forward]:
    [G = gram_matrix(input)]; [self.loss = F.mse_loss(G, self.target)];
    [return input]. *)
Definition StyleLoss_forward (st : store) (r : ref) (input : tensor)
  : result (tensor * store) :=
  match nth_error st r with
  | None => Raises AttributeError
  | Some self =>
      G <- gram_matrix input ;;
      l <- mse_loss B G (target self) ;;
      Returns (input, store_set r (mkLoss (target self) (Some l)) st)
  end.

(** [torch.tensor(v).view(-1, 1, 1)]: a fresh tensor of the numbers of
    [v], viewed as [n, 1, 1]. *)
Definition view_channels (v : tensor) : tensor :=
  mkTensor [List.length (data v); 1; 1] [1; 1; 1] (data v).

(** [Normalization.forward]: [(img - self.mean) / self.std]. *)
Definition Normalization_forward (mean std img : tensor) : result tensor :=
  x <- tensor_sub B img mean ;;
  tensor_div B x std.

Definition stage_forward (st : store) (s : stage) (input : tensor)
  : result (tensor * store) :=
  match s with
  | Normalization mean std =>
      x <- Normalization_forward mean std input ;; Returns (x, st)
  | Backbone l =>
      x <- layer_forward B l input ;; Returns (x, st)
  | ContentLoss r => ContentLoss_forward st r input
  | StyleLoss r => StyleLoss_forward st r input
  end.

(** [model(input)]: the stages in order, each fed the output of the one
    before; the loss modules met on the way record their loss. *)
Fixpoint Sequential_forward (model : sequential) (st : store) (input : tensor)
  : result (tensor * store) :=
  match model with
  | [] => Returns (input, st)
  | (_, s) :: rest =>
      ' (x, st') <- stage_forward st s input ;;
      Sequential_forward rest st' x
  end.

End Modules.

(* ================================================================== *)
(** ** Assembly: [get_style_model_and_losses] *)

Definition string_of_nat (n : nat) : string :=
  NilEmpty.string_of_uint (Nat.to_uint n).

(** ['{}_{}'.format(kind, i)] *)
Definition layer_name (kind : string) (i : nat) : string :=
  (kind ++ "_" ++ string_of_nat i)%string.

(** The [isinstance] chain of the walk: the block index after the layer,
    the canonical name and the layer that goes into the pipeline. *)
Definition classify (l : layer) (i : nat) : result (nat * string * layer) :=
  match l with
  | Conv2d _ _ => Returns (S i, layer_name "conv" (S i), l)
  | ReLU _ => Returns (i, layer_name "relu" i, ReLU false)
  | MaxPool2d _ _ _ _ => Returns (i, layer_name "pool" i, AvgPool2d 2 2 0 false)
  | BatchNorm2d _ => Returns (i, layer_name "bn" i, l)
  | AvgPool2d _ _ _ _ => Raises (RuntimeError "Unrecognized layer: AvgPool2d")
  | OtherLayer c => Raises (RuntimeError ("Unrecognized layer: " ++ c)%string)
  end.

(** [name in layers] *)
Definition name_in (name : string) (layers : list string) : bool :=
  existsb (String.eqb name) layers.

(** The local variables of the walk. *)
Record assembly : Type := mkAssembly {
  block : nat;                   (* [i] *)
  pipeline : sequential;         (* [model] *)
  modules : store;
  content_losses : list ref;
  style_losses : list ref
}.

Section Assembly.

Variable B : backend.
Variables style_img content_img : tensor.
Variables content_layers style_layers : list string.

(** [if name in content_layers: ...] *)
Definition add_content_loss (name : string) (s : assembly) : result assembly :=
  if name_in name content_layers then
    ' (tgt, st) <- Sequential_forward B (pipeline s) (modules s) content_img ;;
    let r := List.length st in
    Returns (mkAssembly (block s)
               (add_module (layer_name "content_loss" (block s)) (ContentLoss r)
                           (pipeline s))
               (st ++ [mkLoss tgt None])
               (content_losses s ++ [r])
               (style_losses s))
  else Returns s.

(** [if name in style_layers: ...] *)
Definition add_style_loss (name : string) (s : assembly) : result assembly :=
  if name_in name style_layers then
    ' (target_feature, st) <- Sequential_forward B (pipeline s) (modules s) style_img ;;
    G <- gram_matrix target_feature ;;
    let r := List.length st in
    Returns (mkAssembly (block s)
               (add_module (layer_name "style_loss" (block s)) (StyleLoss r)
                           (pipeline s))
               (st ++ [mkLoss G None])
               (content_losses s)
               (style_losses s ++ [r]))
  else Returns s.

(** One iteration of [for layer in cnn.children()]. *)
Definition walk_layer (s : assembly) (l : layer) : result assembly :=
  ' (i, name, l') <- classify l (block s) ;;
  let s1 := mkAssembly i (add_module name (Backbone l') (pipeline s))
                       (modules s) (content_losses s) (style_losses s) in
  s2 <- add_content_loss name s1 ;;
  add_style_loss name s2.

Fixpoint walk (s : assembly) (cnn : list layer) : result assembly :=
  match cnn with
  | [] => Returns s
  | l :: rest => s' <- walk_layer s l ;; walk s' rest
  end.

(** [for i in range(k, -1, -1): if is_tap(model[i]): break]: the value of
    [i] when the loop is left. *)
Fixpoint trim_scan (model : sequential) (k : nat) : nat :=
  match k with
  | O => O
  | S k' =>
      match nth_error model k with
      | Some (_, s) => if is_tap s then k else trim_scan model k'
      | None => trim_scan model k'
      end
  end.

(** The loop over [range(len(model) - 1, -1, -1)]; with an empty range the
    variable [i] would keep the value the walk left in it. *)
Definition trim_index (model : sequential) (i : nat) : nat :=
  match List.length model with
  | O => i
  | S k => trim_scan model k
  end.

End Assembly.

(** An optional argument, or its default. *)
Definition or_default {A : Type} (a : option A) (d : A) : A :=
  match a with
  | Some x => x
  | None => d
  end.

(** The default arguments of [get_style_model_and_losses]. *)
Definition default_content_layers : list string := ["conv_5"].
Definition default_style_layers : list string :=
  ["conv_1"; "conv_2"; "conv_3"; "conv_4"].

(** What [get_style_model_and_losses] returns, with the store that holds
    the loss modules the three components refer to. *)
Record assembled : Type := mkAssembled {
  model : sequential;
  style_refs : list ref;
  content_refs : list ref;
  objects : store
}.

(** The locals before the walk: [model = nn.Sequential(normalization)],
    [i = 0], no loss module yet. *)
Definition initial_assembly (normalization_mean normalization_std : tensor)
  : assembly :=
  mkAssembly 0
    [("0", Normalization (view_channels normalization_mean)
                         (view_channels normalization_std))]
    [] [] [].

Definition get_style_model_and_losses (B : backend) (cnn : list layer)
    (normalization_mean normalization_std : tensor)
    (style_img content_img : tensor)
    (content_layers style_layers : option (list string))
  : result assembled :=
  let content_layers := or_default content_layers default_content_layers in
  let style_layers := or_default style_layers default_style_layers in
  s <- walk B style_img content_img content_layers style_layers
            (initial_assembly normalization_mean normalization_std) cnn ;;
  (* now we trim off the layers after the last content and style losses *)
  let i := trim_index (pipeline s) (block s) in
  Returns (mkAssembled (firstn (i + 1) (pipeline s))
             (style_losses s) (content_losses s) (modules s)).

(* ================================================================== *)
(** ** The optimisation loop: [run_style_transfer] *)

(** What the run writes to the outside. *)
Inductive event : Type :=
| PrintBuilding                           (* 'Building the style transfer model..' *)
| PrintOptimizing                         (* 'Optimizing..' *)
| PrintRun (n : Z)                        (* "run {}:".format(run) *)
| PrintScores (style content : fnum)      (* 'Style Loss : ... Content Loss: ...' *)
| PrintBlank                              (* print() *)
| SaveImage (img : tensor) (path : string).

(** The state the closure works on: the image under optimisation with its
    gradient, the counter [run[0]], the loss modules, and the output so
    far (oldest event first). *)
Record run_state : Type := mkRun {
  input_img : tensor;
  input_grad : option tensor;
  run : Z;
  taps : store;
  out : list event
}.

(** The state after the optimizer has overwritten the image. *)
Definition with_image (t : tensor) (w : run_state) : run_state :=
  mkRun t (input_grad w) (run w) (taps w) (out w).

Definition string_of_Z (z : Z) : string :=
  NilEmpty.string_of_int (Z.to_int z).

(** ['./images/step_' + str(run[0]) + '.jpg'] *)
Definition snapshot_path (n : Z) : string :=
  ("./images/step_" ++ string_of_Z n ++ ".jpg")%string.

(** One call of [optimizer.step(closure)], seen from the loop: the
    optimizer evaluates the closure and reads the loss and the gradient,
    reads the parameter, overwrites the parameter, and at last returns
    with its new internal state. *)
Inductive opt_prog (S : Type) : Type :=
| OptDone (s : S)
| OptEval (k : pyval -> option tensor -> opt_prog S)
| OptRead (k : tensor -> opt_prog S)
| OptWrite (t : tensor) (k : opt_prog S).

Arguments OptDone {S} s.
Arguments OptEval {S} k.
Arguments OptRead {S} k.
Arguments OptWrite {S} t k.

(** [optim.LBFGS] is not part of the source: an optimizer is any state
    with a constructor and a step. *)
Record optimizer : Type := mkOptimizer {
  opt_state : Type;
  opt_init : tensor -> opt_state;
  opt_step : opt_state -> opt_prog opt_state
}.

(** A step that begins by evaluating the closure, as that of LBFGS does. *)
Definition evaluates_first {S : Type} (p : opt_prog S) : Prop :=
  match p with
  | OptEval _ => True
  | _ => False
  end.

Section Run.

Variable B : backend.
Variable pipe : sequential.                 (* [model] *)
Variables style_losses content_losses : list ref.
Variables style_weight content_weight : fnum.

(** [for m in losses: score += m.loss] *)
Fixpoint sum_losses (st : store) (losses : list ref) (score : pyval) : result pyval :=
  match losses with
  | [] => Returns score
  | r :: rest =>
      match nth_error st r with
      | Some m =>
          match loss m with
          | Some l => sum_losses st rest (py_add score (PyTensor l))
          | None => Raises AttributeError
          end
      | None => Raises AttributeError
      end
  end.

(** [loss.backward()]: a plain number has no such method. *)
Definition py_backward (st : store) (img : tensor) (l : pyval) : result tensor :=
  match l with
  | PyTensor _ => autograd B pipe st style_weight content_weight img
  | PyNum _ => Raises AttributeError
  end.

(** [if run[0] % 10 == 0: print(...); print(...); print()] *)
Definition report (n : Z) (style_score content_score : pyval) : result (list event) :=
  if (n mod 10 =? 0)%Z then
    s <- py_item style_score ;;
    c <- py_item content_score ;;
    Returns [PrintRun n; PrintScores s c; PrintBlank]
  else Returns [].

(** [if run[0] % 25 == 0: save_image(input_img, ...)] *)
Definition snapshot (n : Z) (img : tensor) : result (list event) :=
  if (n mod 25 =? 0)%Z then
    _ <- save_image B img (snapshot_path n) ;;
    Returns [SaveImage img (snapshot_path n)]
  else Returns [].

(** The closure handed to the optimizer.  It returns the total loss. *)
Definition closure (w : run_state) : result (pyval * run_state) :=
  (* input_img.data.clamp_(0, 1) *)
  let img := clamp_ 0%Qc 1%Qc (input_img w) in
  (* optimizer.zero_grad(); model(input_img) *)
  ' (_, st) <- Sequential_forward B pipe (taps w) img ;;
  style_score <- sum_losses st style_losses (PyNum (Fin 0%Qc)) ;;
  content_score <- sum_losses st content_losses (PyNum (Fin 0%Qc)) ;;
  let style_score := py_mul style_score (PyNum style_weight) in
  let content_score := py_mul content_score (PyNum content_weight) in
  let total := py_add style_score content_score in
  g <- py_backward st img total ;;
  let n := (run w + 1)%Z in
  printed <- report n style_score content_score ;;
  saved <- snapshot n img ;;
  Returns (py_add style_score content_score,
           mkRun img (Some g) n st (out w ++ printed ++ saved)).

(** [optimizer.step(closure)] *)
Fixpoint run_step {S : Type} (p : opt_prog S) (w : run_state)
  : result (S * run_state) :=
  match p with
  | OptDone s => Returns (s, w)
  | OptEval k =>
      ' (l, w') <- closure w ;;
      run_step (k l (input_grad w')) w'
  | OptRead k => run_step (k (input_img w)) w
  | OptWrite t k => run_step k (with_image t w)
  end.

Variable opt : optimizer.
Variable num_steps : Z.

(** [while run[0] <= num_steps: optimizer.step(closure)].  [None] when the
    fuel does not suffice. *)
Fixpoint optimize (fuel : nat) (os : opt_state opt) (w : run_state)
  : option (result run_state) :=
  if (run w <=? num_steps)%Z then
    match fuel with
    | O => None
    | S fuel' =>
        match run_step (opt_step opt os) w with
        | Returns (os', w') => optimize fuel' os' w'
        | Raises e => Some (Raises e)
        end
    end
  else Some (Returns w).

End Run.

(** The default arguments of [run_style_transfer]. *)
Definition run_default_num_steps : Z := 300.
Definition run_default_style_weight : fnum := Fin (Q2Qc (inject_Z 1000000)).
Definition run_default_content_weight : fnum := Fin 1%Qc.
Definition run_default_content_layers : list string := ["conv_5"].
Definition run_default_style_layers : list string := ["conv_1"; "conv_3"; "conv_4"].

(** The tap arguments [run_style_transfer] hands to the assembly. *)
Definition run_tap_arguments (content_layers style_layers : option (list string))
  : option (list string) * option (list string) :=
  (Some (or_default content_layers run_default_content_layers),
   Some (or_default style_layers run_default_style_layers)).

(** [run_style_transfer].  A finite budget given as a float bounds the
    counter like its integral part, so [num_steps] is an integer.  The
    result is the final state: its [input_img] is the tensor returned, its
    [out] the output produced. *)
Definition run_style_transfer (B : backend) (opt : optimizer) (cnn : list layer)
    (normalization_mean normalization_std : tensor)
    (content_img style_img input_img0 : tensor)
    (num_steps : option Z) (style_weight content_weight : option fnum)
    (content_layers style_layers : option (list string))
    (fuel : nat)
  : option (result run_state) :=
  let num_steps := or_default num_steps run_default_num_steps in
  let style_weight := or_default style_weight run_default_style_weight in
  let content_weight := or_default content_weight run_default_content_weight in
  let taps_args := run_tap_arguments content_layers style_layers in
  match get_style_model_and_losses B cnn normalization_mean normalization_std
          style_img content_img (fst taps_args) (snd taps_args) with
  | Raises e => Some (Raises e)
  | Returns m =>
      let os := opt_init opt input_img0 in
      let w0 := mkRun input_img0 None 0%Z (objects m)
                      [PrintBuilding; PrintOptimizing] in
      match optimize B (model m) (style_refs m) (content_refs m)
                     style_weight content_weight opt num_steps fuel os w0 with
      | None => None
      | Some (Raises e) => Some (Raises e)
      | Some (Returns w) =>
          (* a last correction... *)
          Some (Returns (with_image (clamp_ 0%Qc 1%Qc (input_img w)) w))
      end
  end.

(* ================================================================== *)
(** ** Vocabulary of the properties *)

(** Between two stores, nothing but the [.loss] of the module at [r] may
    differ: the same objects, the same targets, every other object as it
    was. *)
Definition only_loss_of (r : ref) (st st' : store) : Prop :=
  List.length st' = List.length st /\
  map target st' = map target st /\
  forall r', r' <> r -> nth_error st' r' = nth_error st r'.

(** The stage at index [j] of a pipeline is a loss tap. *)
Definition tap_at (m : sequential) (j : nat) : bool :=
  match nth_error m j with
  | Some (_, s) => is_tap s
  | None => false
  end.

(** The highest index whose stage is a loss tap, if there is one. *)
Fixpoint last_tap_index (m : sequential) : option nat :=
  match m with
  | [] => None
  | (_, s) :: rest =>
      match last_tap_index rest with
      | Some j => Some (S j)
      | None => if is_tap s then Some 0 else None
      end
  end.

(** The layer classes the walk accepts. *)
Definition recognised (l : layer) : bool :=
  match l with
  | Conv2d _ _ | ReLU _ | MaxPool2d _ _ _ _ | BatchNorm2d _ => true
  | AvgPool2d _ _ _ _ | OtherLayer _ => false
  end.

(** The canonical names the walk gives to the layers of a backbone, from
    block index [i] on (up to the first layer it does not accept). *)
Fixpoint backbone_names (i : nat) (cnn : list layer) : list string :=
  match cnn with
  | [] => []
  | l :: rest =>
      match classify l i with
      | Returns (i', name, _) => name :: backbone_names i' rest
      | Raises _ => []
      end
  end.



(** No name of the backbone is among the requested depths. *)
Definition never_requested (cnn : list layer) (layers : list string) : Prop :=
  forall name, In name (backbone_names 0 cnn) -> name_in name layers = false.

(** A requested depth that names no layer of the backbone. *)
Definition never_occurs (cnn : list layer) (name : string) : Prop :=
  ~ In name (backbone_names 0 cnn).

(** A pooling stage of the pipeline has the geometry of the layer it stands
    for. *)
Definition same_pooling_geometry (original replacement : layer) : Prop :=
  match original, replacement with
  | MaxPool2d k s p _, AvgPool2d k' s' p' _ => k' = k /\ s' = s /\ p' = p
  | _, _ => False
  end.

(** What the assembly puts in the place of every max-pooling layer. *)
Definition is_fixed_average_pool (l : layer) : Prop :=
  l = AvgPool2d 2 2 0 false.

(** Every backbone stage of a pipeline is free of max-pooling, and its
    average-pooling layers are the fixed one. *)
Definition pooling_replaced (m : sequential) : Prop :=
  Forall (fun ns =>
            match snd ns with
            | Backbone (MaxPool2d _ _ _ _) => False
            | Backbone (AvgPool2d k s p c) => is_fixed_average_pool (AvgPool2d k s p c)
            | _ => True
            end) m.

(** The paths of the snapshots written, oldest first. *)
Fixpoint saved_paths (log : list event) : list string :=
  match log with
  | [] => []
  | SaveImage _ path :: rest => path :: saved_paths rest
  | _ :: rest => saved_paths rest
  end.

(** The counter values printed by the progress reports, oldest first. *)
Fixpoint progress_steps (log : list event) : list Z :=
  match log with
  | [] => []
  | PrintRun n :: rest => n :: progress_steps rest
  | _ :: rest => progress_steps rest
  end.

(** The score lines printed, oldest first. *)
Fixpoint printed_scores (log : list event) : list (fnum * fnum) :=
  match log with
  | [] => []
  | PrintScores s c :: rest => (s, c) :: printed_scores rest
  | _ :: rest => printed_scores rest
  end.

(** The first [k] positive multiples of [m]. *)
Definition multiples (m : Z) (k : nat) : list Z :=
  map (fun j => (m * Z.of_nat j)%Z) (seq 1 k).

(** The output so far is that of a run whose counter stands at [run w]:
    one snapshot for each multiple of 25 reached, named after it, and one
    progress report with one score line for each multiple of 10 reached. *)
Definition cadence (w : run_state) : Prop :=
  (0 <= run w)%Z /\
  saved_paths (out w) = map snapshot_path (multiples 25 (Z.to_nat (run w / 25))) /\
  progress_steps (out w) = multiples 10 (Z.to_nat (run w / 10)) /\
  List.length (printed_scores (out w)) = Z.to_nat (run w / 10).

(** The total loss of an evaluation is not a finite number. *)
Definition non_finite (l : pyval) : Prop := is_finite (pyval_value l) = false.

(* ================================================================== *)
(** ** Concrete inputs for the examples *)

Definition tensor_of (s : list nat) (zs : list Z) : tensor :=
  fresh_tensor s (map (fun z => Fin (Q2Qc (inject_Z z))) zs).

(** A backend in which every layer is the identity, every loss is 1 and
    nothing fails. *)
Definition unit_backend : backend :=
  mkBackend (fun _ x => Returns x)
            (fun _ _ => Returns (Fin 1%Qc))
            (fun x _ => Returns x)
            (fun x _ => Returns x)
            (fun _ _ _ _ img => Returns img)
            (fun _ _ => Returns tt).

(** An optimizer that evaluates the closure once in a step and then moves
    every pixel up by 2, out of the unit interval. *)
Definition shift_optimizer : optimizer :=
  mkOptimizer unit (fun _ => tt)
    (fun _ =>
       OptEval (fun _ _ =>
         OptRead (fun img =>
           OptWrite (mkTensor (shape img) (strides img)
                       (map (fun x => fadd x (Fin (Q2Qc (inject_Z 2)))) (data img)))
                    (OptDone tt)))).

Definition small_image : tensor := tensor_of [1; 1; 1; 2] [-3; 5]%Z.
Definition small_feature : tensor := tensor_of [1; 2; 1; 2] [1; 2; 3; 4]%Z.
Definition no_tensor : tensor := fresh_tensor [] [].

(** A backbone of two blocks: convolution, activation, pooling, twice. *)
Definition small_cnn : list layer :=
  [Conv2d no_tensor no_tensor; ReLU true; MaxPool2d 2 2 0 false;
   Conv2d no_tensor no_tensor; ReLU true; MaxPool2d 2 2 0 false].

(** The pipeline for that backbone with a content tap at the second
    convolution and a style tap at the first, and the state in which the
    loop starts on it. *)
Definition tapped_assembly : assembled :=
  match get_style_model_and_losses unit_backend small_cnn no_tensor no_tensor
          small_feature small_feature (Some ["conv_2"]) (Some ["conv_1"]) with
  | Returns m => m
  | Raises _ => mkAssembled [] [] [] []
  end.

Definition start_state : run_state :=
  mkRun small_image None 0%Z (objects tapped_assembly)
        [PrintBuilding; PrintOptimizing].

(** A backbone whose pooling layer has kernel 3, stride 2 and padding 1. *)
Definition wide_pool_cnn : list layer :=
  [Conv2d no_tensor no_tensor; MaxPool2d 3 2 1 false].

(** A backend like [unit_backend], except that the gradient it leaves is
    the image multiplied by the style weight. *)
Definition weighted_backend : backend :=
  mkBackend (fun _ x => Returns x)
            (fun _ _ => Returns (Fin 1%Qc))
            (fun x _ => Returns x)
            (fun x _ => Returns x)
            (fun _ _ style_weight _ img =>
               Returns (mkTensor (shape img) (strides img)
                          (map (fmul style_weight) (data img))))
            (fun _ _ => Returns tt).

(** An optimizer that evaluates the closure once in a step and then moves
    the image against the gradient. *)
Definition descent_optimizer : optimizer :=
  mkOptimizer unit (fun _ => tt)
    (fun _ =>
       OptEval (fun _ grad =>
         OptRead (fun img =>
           match grad with
           | Some g =>
               OptWrite (mkTensor (shape img) (strides img)
                           (map (fun xg => fadd (fst xg) (fneg (snd xg)))
                                (combine (data img) (data g))))
                        (OptDone tt)
           | None => OptDone tt
           end))).


(** A feature map of 2 by 2 positions with its two spatial dimensions
    transposed ([x.transpose(2, 3)] of a fresh tensor). *)
Definition transposed_feature : tensor :=
  mkTensor [1; 1; 2; 2] [4; 4; 1; 2]
           (map (fun z => Fin (Q2Qc (inject_Z z))) [1; 3; 2; 4]%Z).

(* ================================================================== *)
(** ** Cropping: [center_crop] *)

(** A bound of a Python slice on a dimension of length [len]: a negative
    index counts from the end, and what falls outside is clipped. *)
Definition slice_bound (len : nat) (i : Z) : nat :=
  if (i <? 0)%Z then Z.to_nat (Z.max (i + Z.of_nat len) 0)
  else Nat.min (Z.to_nat i) len.

(** [x[start:stop]] on a dimension of length [len]: the first index kept
    and the number of indices kept. *)
Definition slice_range (len : nat) (start stop : Z) : nat * nat :=
  (slice_bound len start, slice_bound len stop - slice_bound len start).

(** The double nearest to an integer, ties going to the even mantissa:
    the integer itself below 2^53, and from there on an integer of 53
    significant bits. *)
Definition nearest_double (n : Z) : Z :=
  let m := Z.abs n in
  if (m <? 2 ^ 53)%Z then n
  else
    let e := (Z.log2 m - 52)%Z in
    let q := (m / 2 ^ e)%Z in
    let r := (m mod 2 ^ e)%Z in
    let half := (2 ^ (e - 1))%Z in
    let q' := if (r <? half)%Z then q
              else if (half <? r)%Z then (q + 1)%Z
              else if Z.even q then q else (q + 1)%Z in
    (Z.sgn n * (q' * 2 ^ e))%Z.

(** [float(n)] of an integer: [OverflowError] when the nearest double
    would be 2^1024 or more. *)
Definition float_of_int (n : Z) : result Z :=
  let f := nearest_double n in
  if (Z.abs f <? 2 ^ 1024)%Z then Returns f else Raises OverflowError.

(** [int(len / 2.0)] for a dimension [len]: the integer becomes a float,
    is halved, and is truncated. *)
Definition half_length (len : nat) : result Z :=
  f <- float_of_int (Z.of_nat len) ;;
  Returns (Z.quot f 2).

(** [int(size / 2)]: the true division of two integers gives the double
    nearest to the quotient, or [OverflowError] when that would be 2^1024
    or more; [int] truncates toward zero. *)
Definition half_size (size : Z) : result Z :=
  let f := nearest_double size in
  if (Z.abs f <? 2 ^ 1025)%Z then Returns (Z.quot f 2) else Raises OverflowError.

(** The slice [c - h : c + h] of a dimension of length [len]. *)
Definition crop_window (len : nat) (c h : Z) : nat * nat :=
  slice_range len (c - h) (c + h).

(** Entry [(n, ch, y, x, r)] of the data of a tensor of shape
    [_ :: b :: H :: W :: rest], where [R] is the number of elements of
    [rest] and [r] runs over them. *)
Definition entry5 (b H W R : nat) (d : list fnum) (n ch y x r : nat) : fnum :=
  nth ((((n * b + ch) * H + y) * W + x) * R + r) d (Fin 0%Qc).

Definition center_crop_default_size : Z := 512.

(** The entries of the window of [rows] by [cols] of an image of shape
    [a :: b :: H :: W :: rest]. *)
Definition window_data (a b H W : nat) (rest : list nat) (d : list fnum)
    (rows cols : nat * nat) : list fnum :=
  let R := numel rest in
  flat_map (fun n =>
    flat_map (fun ch =>
      flat_map (fun y =>
        flat_map (fun x =>
          map (fun r => entry5 b H W R d n ch (fst rows + y) (fst cols + x) r)
              (seq 0 R))
          (seq 0 (snd cols)))
        (seq 0 (snd rows)))
      (seq 0 b))
    (seq 0 a).

(** [center_crop(img, size)]:
    [x_center = int(img.shape[2] / 2.0)]; [y_center = int(img.shape[3] / 2.0)];
    [img[:, :, x_center - int(size/2) : x_center + int(size/2),
               y_center - int(size/2) : y_center + int(size/2)]].
    [img.shape[2]] and [img.shape[3]] raise [IndexError] on a tensor of
    fewer dimensions; the result is a view, with the strides of [img]. *)
Definition center_crop (img : tensor) (size : option Z) : result tensor :=
  let size := or_default size center_crop_default_size in
  match shape img with
  | a :: b :: H :: after =>
      x_center <- half_length H ;;
      match after with
      | W :: rest =>
          y_center <- half_length W ;;
          h <- half_size size ;;
          let rows := crop_window H x_center h in
          let cols := crop_window W y_center h in
          Returns (mkTensor (a :: b :: snd rows :: snd cols :: rest)
                            (strides img)
                            (window_data a b H W rest (data img) rows cols))
      | [] => Raises IndexError
      end
  | _ => Raises IndexError
  end.

(* ================================================================== *)
(** ** Further vocabulary *)

(** Entry [(i, j)] of the Gram matrix of the [n] x [k] feature matrix [F],
    normalised by [N]. *)
Definition gram_entry (k N : nat) (F : list fnum) (i j : nat) : fnum :=
  fdiv_count
    (fsum (map (fun l => fmul (entry k F i l) (entry k F j l)) (seq 0 k))) N.

(** The value of a finite number (0 for the others). *)
Definition finite_value (x : fnum) : Qc :=
  match x with
  | Fin a => a
  | _ => 0%Qc
  end.

(** The sign of a product, from the signs of the factors. *)
Definition sign_mul (x y : comparison) : comparison :=
  match x, y with
  | Eq, _ | _, Eq => Eq
  | Gt, Gt | Lt, Lt => Gt
  | _, _ => Lt
  end.

(** The quadratic form [v^T G v] of an [n] by [n] matrix, for a vector of
    finite numbers. *)
Definition quadratic_form (n : nat) (G : list fnum) (v : list Qc) : fnum :=
  fsum (map (fun i =>
          fsum (map (fun j => fmul (fmul (Fin (nth i v 0%Qc)) (entry n G i j))
                                   (Fin (nth j v 0%Qc)))
                    (seq 0 n)))
        (seq 0 n)).

(** The tensor of the shape and layout of [t] whose entries are those of
    [t] multiplied by the finite number [k]. *)
Definition scale_tensor (k : Qc) (t : tensor) : tensor :=
  mkTensor (shape t) (strides t) (map (fmul (Fin k)) (data t)).

(** [layer.__class__.__name__] *)
Definition class_name (l : layer) : string :=
  match l with
  | Conv2d _ _ => "Conv2d"
  | ReLU _ => "ReLU"
  | MaxPool2d _ _ _ _ => "MaxPool2d"
  | AvgPool2d _ _ _ _ => "AvgPool2d"
  | BatchNorm2d _ => "BatchNorm2d"
  | OtherLayer c => c
  end.

(** Every activation stage of a pipeline works out of place. *)
Definition relu_out_of_place (m : sequential) : Prop :=
  Forall (fun ns =>
            match snd ns with
            | Backbone (ReLU inplace) => inplace = false
            | _ => True
            end) m.

(** The names of the stages of a pipeline, in order. *)
Definition stage_names (m : sequential) : list string := map fst m.

(** The loss module at [r] has its [.loss] attribute. *)
Definition has_loss (st : store) (r : ref) : Prop :=
  exists mo l, nth_error st r = Some mo /\ loss mo = Some l.

(** The loss module at [r] is a stage of the pipeline. *)
Definition tap_in (m : sequential) (r : ref) : Prop :=
  exists name, In (name, ContentLoss r) m \/ In (name, StyleLoss r) m.

(** Every tap of the pipeline is in the loss list of its class. *)
Definition taps_listed (m : sequential) (content style : list ref) : Prop :=
  Forall (fun ns =>
            match snd ns with
            | ContentLoss r => In r content
            | StyleLoss r => In r style
            | _ => True
            end) m.

(** A pipeline without its taps. *)
Definition without_taps (m : sequential) : sequential :=
  filter (fun ns => negb (is_tap (snd ns))) m.

(** The number of layer names that are among the requested depths. *)
Definition count_matches (layers names : list string) : nat :=
  List.length (filter (fun name => name_in name layers) names).

(** The two loss lists together name every object of the store once, and
    every tap of the pipeline is in the list of its class. *)
Definition listed_once (s : assembly) : Prop :=
  Permutation (content_losses s ++ style_losses s)
              (seq 0 (List.length (modules s))) /\
  taps_listed (pipeline s) (content_losses s) (style_losses s).

(** Every listed loss module has its [.loss] attribute or is a stage of
    the pipeline (whose forward pass will set it). *)
Definition readable (m : sequential) (content style : list ref) (st : store)
  : Prop :=
  forall r, In r (content ++ style) -> has_loss st r \/ tap_in m r.

(** The taps of a pipeline go by the names the assembly gives to taps. *)
Definition taps_named (m : sequential) : Prop :=
  Forall (fun ns =>
            match snd ns with
            | ContentLoss _ => exists i, fst ns = layer_name "content_loss" i
            | StyleLoss _ => exists i, fst ns = layer_name "style_loss" i
            | _ => True
            end) m.

(** A step of the optimizer that evaluates the closure at most [k] times,
    whatever it observes. *)
Fixpoint evals_at_most {S : Type} (k : nat) (p : opt_prog S) : Prop :=
  match p with
  | OptDone _ => True
  | OptEval f =>
      match k with
      | O => False
      | S k' => forall l g, evals_at_most k' (f l g)
      end
  | OptRead f => forall t, evals_at_most k (f t)
  | OptWrite _ p' => evals_at_most k p'
  end.

(** A pixel as [clamp_(0, 1)] leaves it: a number in [0,1], or NaN. *)
Definition clamped_pixel (x : fnum) : Prop := x = NaN \/ in_unit_interval x.

Definition pixels_clamped (t : tensor) : Prop :=
  Forall clamped_pixel (data t).

(** Every image handed to [save_image] has its pixels in [0,1] or NaN. *)
Definition snapshots_clamped (log : list event) : Prop :=
  Forall (fun e =>
            match e with
            | SaveImage img _ => pixels_clamped img
            | _ => True
            end) log.

(** The backbone as the walk names and substitutes it, from block index
    [i] on (up to the first layer it does not accept). *)
Fixpoint named_layers (i : nat) (cnn : list layer) : sequential :=
  match cnn with
  | [] => []
  | l :: rest =>
      match classify l i with
      | Returns (i', name, l') => (name, Backbone l') :: named_layers i' rest
      | Raises _ => []
      end
  end.

(** A stage that goes by the canonical name of some layer. *)
Definition layer_named (ns : string * stage) : Prop :=
  exists l l' i0 i, classify l i0 = Returns (i, fst ns, l').


(** The targets of the listed style modules are Gram matrices. *)
Definition style_targets_are_gram (st : store) (style : list ref) : Prop :=
  forall r, In r style ->
    exists mo feat,
      nth_error st r = Some mo /\ gram_matrix feat = Returns (target mo).

(* ================================================================== *)
(** * Properties *)

(** ** Floating-point arithmetic *)



Lemma fmul_comm (x y : fnum) : fmul x y = fmul y x.
Proof.
  destruct x, y; cbn; try reflexivity. f_equal. apply Qcmult_comm.
Qed.

Lemma feqb_refl (x : fnum) : is_nan x = false -> feqb x x = true.
Proof.
  destruct x as [q| | |]; cbn; intros H; try reflexivity; try discriminate.
  unfold Qc_eq_bool. destruct (Qc_eq_dec q q); congruence.
Qed.

Lemma equal_entries_refl (d : list fnum) :
  Forall (fun x => is_nan x = false) d -> equal_entries d d.
Proof.
  unfold equal_entries. induction 1; constructor; auto using feqb_refl.
Qed.


(* ------------------------------------------------------------------ *)
(** ** Tabulated matrices *)

Lemma nth_flat_rows (row : nat -> list fnum) (k : nat) (d : fnum) :
  forall n s i l,
    (forall x, List.length (row x) = k) ->
    i < n -> l < k ->
    nth (i * k + l) (flat_map row (seq s n)) d = nth l (row (s + i)) d.
Proof.
  induction n as [|n IH]; intros s i l Hlen Hi Hl; [lia|].
  cbn [seq flat_map].
  destruct i as [|i].
  - rewrite Nat.add_0_r. cbn [Nat.mul Nat.add].
    rewrite app_nth1 by (rewrite Hlen; exact Hl). reflexivity.
  - rewrite app_nth2 by (rewrite Hlen; lia).
    rewrite Hlen.
    replace (S i * k + l - k) with (i * k + l) by lia.
    rewrite IH by (auto; lia).
    f_equal. f_equal. lia.
Qed.

Lemma entry_tabulate (rows cols : nat) (f : nat -> nat -> fnum) (i j : nat) :
  i < rows -> j < cols ->
  entry cols (tabulate rows cols f) i j = f i j.
Proof.
  intros Hi Hj. unfold entry, tabulate.
  rewrite (nth_flat_rows (fun i => map (f i) (seq 0 cols)) cols);
    [| intros; rewrite length_map, length_seq; reflexivity | assumption..].
  cbn [Nat.add].
  rewrite (nth_indep _ _ (f i 0)) by (rewrite length_map, length_seq; exact Hj).
  rewrite map_nth, seq_nth by exact Hj. reflexivity.
Qed.

Lemma tabulate_ext (rows cols : nat) (f g : nat -> nat -> fnum) :
  (forall i j, i < rows -> j < cols -> f i j = g i j) ->
  tabulate rows cols f = tabulate rows cols g.
Proof.
  intros H. unfold tabulate.
  assert (Hrows : forall i, In i (seq 0 rows) -> i < rows)
    by (intros i Hi; apply in_seq in Hi; lia).
  induction (seq 0 rows) as [|i l IH]; [reflexivity|].
  cbn [flat_map]. f_equal.
  - apply map_ext_in. intros j Hj. apply in_seq in Hj.
    apply H; [apply Hrows; left; reflexivity | lia].
  - apply IH. intros x Hx. apply Hrows. right. exact Hx.
Qed.

Lemma map_tabulate (h : fnum -> fnum) (rows cols : nat) (f : nat -> nat -> fnum) :
  map h (tabulate rows cols f) = tabulate rows cols (fun i j => h (f i j)).
Proof.
  unfold tabulate.
  induction (seq 0 rows) as [|i l IH]; [reflexivity|].
  cbn [flat_map]. rewrite map_app, IH, map_map. reflexivity.
Qed.


(** The entries of the unnormalised Gram product: row [i] against row [j]
    of the [n] x [k] feature matrix. *)
Lemma mm_transpose_entry (n k : nat) (F : list fnum) :
  mm n k n F (transpose n k F) =
  tabulate n n
    (fun i j => fsum (map (fun l => fmul (entry k F i l) (entry k F j l)) (seq 0 k))).
Proof.
  unfold mm. apply tabulate_ext. intros i j Hi Hj.
  f_equal. apply map_ext_in. intros l Hl. apply in_seq in Hl.
  unfold transpose. rewrite entry_tabulate by lia. reflexivity.
Qed.

Lemma gram_matrix_4d (t : tensor) (a b c d : nat) :
  shape t = [a; b; c; d] ->
  viewable a b c d (strides t) = true ->
  gram_matrix t =
  Returns (fresh_tensor [a * b; a * b]
    (tabulate (a * b) (a * b) (gram_entry (c * d) (a * b * c * d) (data t)))).
Proof.
  intros Hs Hv. unfold gram_matrix. rewrite Hs, Hv.
  rewrite mm_transpose_entry, map_tabulate. reflexivity.
Qed.

Lemma gram_entry_comm (k N : nat) (F : list fnum) (i j : nat) :
  gram_entry k N F i j = gram_entry k N F j i.
Proof.
  unfold gram_entry. f_equal. f_equal. apply map_ext. intros l.
  apply fmul_comm.
Qed.

(** The entries [(i, j)] and [(j, i)] of a Gram matrix are the same. *)
Lemma gram_transpose (n k N : nat) (F : list fnum) :
  transpose n n (tabulate n n (gram_entry k N F)) = tabulate n n (gram_entry k N F).
Proof.
  unfold transpose. apply tabulate_ext. intros i j Hi Hj.
  rewrite entry_tabulate by assumption. apply gram_entry_comm.
Qed.



(* ------------------------------------------------------------------ *)
(** ** The loss modules *)

Lemma bind_returns {A C : Type} (r : result A) (k : A -> result C) (c : C) :
  bind r k = Returns c -> exists a, r = Returns a /\ k a = Returns c.
Proof.
  destruct r as [a|e]; cbn; intros H; [eauto | discriminate].
Qed.

Lemma store_set_length (r : ref) (m : loss_module) (st : store) :
  List.length (store_set r m st) = List.length st.
Proof.
  revert r. induction st as [|x st IH]; intros [|r]; cbn; auto.
Qed.

Lemma store_set_other (r r' : ref) (m : loss_module) (st : store) :
  r' <> r -> nth_error (store_set r m st) r' = nth_error st r'.
Proof.
  revert r r'.
  induction st as [|x st IH]; intros [|r] [|r'] H; cbn;
    try congruence; auto.
Qed.

Lemma store_set_same (r : ref) (m self : loss_module) (st : store) :
  nth_error st r = Some self -> nth_error (store_set r m st) r = Some m.
Proof.
  revert r. induction st as [|x st IH]; intros [|r] H; cbn in *;
    try discriminate; auto.
Qed.

Lemma store_set_targets (r : ref) (m self : loss_module) (st : store) :
  nth_error st r = Some self -> target m = target self ->
  map target (store_set r m st) = map target st.
Proof.
  revert r. induction st as [|x st IH]; intros [|r] H Ht; cbn in *;
    try discriminate.
  - injection H as ->. now rewrite Ht.
  - f_equal. now apply IH.
Qed.

Lemma store_set_only_loss (r : ref) (self : loss_module) (l : fnum) (st : store) :
  nth_error st r = Some self ->
  only_loss_of r st (store_set r (mkLoss (target self) (Some l)) st).
Proof.
  intros H. repeat split.
  - apply store_set_length.
  - now apply (store_set_targets r _ self).
  - intros r' Hr. now apply store_set_other.
Qed.

(** C4.  On every input tensor, the forward pass of a [ContentLoss] and of
    a [StyleLoss] module (the object [self] at reference [r]) either returns its input
    itself, having changed nothing in the store but the [.loss] of the
    module (all targets, its own too, are as before; the loss recorded is
    the mean squared error against the stored target), or raises, and it
    raises only when the loss cannot be computed from that input (the
    backend's [mse_loss] raises, or for [StyleLoss] the input has no Gram
    matrix). *)
Theorem loss_forward_is_identity_changing_only_loss
    (B : backend) (st : store) (r : ref) (self : loss_module) (input : tensor)
    (Hself : nth_error st r = Some self) :
  match ContentLoss_forward B st r input with
  | Returns (y, st') =>
      y = input /\ only_loss_of r st st' /\
      exists l, mse_loss B input (target self) = Returns l /\
                nth_error st' r = Some (mkLoss (target self) (Some l))
  | Raises e => mse_loss B input (target self) = Raises e
  end /\
  match StyleLoss_forward B st r input with
  | Returns (y, st') =>
      y = input /\ only_loss_of r st st' /\
      exists G l, gram_matrix input = Returns G /\
                  mse_loss B G (target self) = Returns l /\
                  nth_error st' r = Some (mkLoss (target self) (Some l))
  | Raises e =>
      gram_matrix input = Raises e \/
      exists G, gram_matrix input = Returns G /\
                mse_loss B G (target self) = Raises e
  end.
Proof.
  split.
  - unfold ContentLoss_forward. rewrite Hself.
    destruct (mse_loss B input (target self)) as [l|e]; cbn; [|reflexivity].
    split; [reflexivity|]. split; [now apply store_set_only_loss|].
    exists l. split; [reflexivity|]. now apply (store_set_same r _ self).
  - unfold StyleLoss_forward. rewrite Hself.
    destruct (gram_matrix input) as [G|e]; cbn; [|now left].
    destruct (mse_loss B G (target self)) as [l|e] eqn:Hl; cbn.
    + split; [reflexivity|]. split; [now apply store_set_only_loss|].
      exists G, l. repeat split; auto. now apply (store_set_same r _ self).
    + right. exists G. auto.
Qed.

(* ------------------------------------------------------------------ *)
(** ** Clamping *)

Lemma Qcleb_true (x y : Qc) : Qcleb x y = true -> (x <= y)%Qc.
Proof.
  unfold Qcleb. intros H. apply Qcle_alt.
  destruct (x ?= y)%Qc; congruence.
Qed.

Lemma Qcleb_false (x y : Qc) : Qcleb x y = false -> (y <= x)%Qc.
Proof.
  unfold Qcleb. intros H. apply Qclt_le_weak, Qcgt_alt.
  destruct (x ?= y)%Qc; congruence.
Qed.

(** What [clamp_(0, 1)] makes of an entry: a NaN stays NaN, and every
    other entry, the two infinities too, is brought into [0,1]. *)
Lemma clamp_value_cases (x : fnum) :
  (x = NaN /\ clamp_value 0%Qc 1%Qc x = NaN) \/
  (x <> NaN /\ in_unit_interval (clamp_value 0%Qc 1%Qc x)).
Proof.
  assert (H01 : (0 <= 1)%Qc) by (apply Qcle_alt; discriminate).
  destruct x as [q| | |].
  - right. split; [discriminate|].
    unfold in_unit_interval, clamp_value.
    cbn [fmax fmin fle]. unfold Qcmax, Qcmin.
    destruct (Qcleb q 0) eqn:Hx.
    + destruct (Qcleb 0 1) eqn:H1; split;
        auto using Qcle_refl, Qcleb_true, Qcleb_false.
    + destruct (Qcleb q 1) eqn:H1; split;
        auto using Qcle_refl, Qcleb_true, Qcleb_false.
  - right. split; [discriminate|].
    unfold in_unit_interval, clamp_value. cbn [fmax fmin fle].
    split; [exact H01 | apply Qcle_refl].
  - right. split; [discriminate|].
    unfold in_unit_interval, clamp_value. cbn [fmax fmin fle].
    unfold Qcmin. destruct (Qcleb 0 1) eqn:H1; split;
      auto using Qcle_refl, Qcleb_true, Qcleb_false.
  - left. split; reflexivity.
Qed.

Lemma clamp_pixels_clamped (t : tensor) :
  pixels_clamped (clamp_ 0%Qc 1%Qc t).
Proof.
  unfold pixels_clamped, clamp_. cbn [data].
  apply Forall_forall. intros x Hx. apply in_map_iff in Hx.
  destruct Hx as [y [<- _]].
  destruct (clamp_value_cases y) as [[_ H] | [_ H]]; [left | right]; exact H.
Qed.

Lemma clamp_in_unit_interval (t : tensor) :
  no_nan t -> pixels_in_unit_interval (clamp_ 0%Qc 1%Qc t).
Proof.
  unfold no_nan, pixels_in_unit_interval, clamp_. cbn [data].
  intros Hnan. apply Forall_forall. intros x Hx. apply in_map_iff in Hx.
  destruct Hx as [y [<- Hy]].
  rewrite Forall_forall in Hnan. specialize (Hnan y Hy).
  destruct (clamp_value_cases y) as [[-> _] | [_ H]]; [discriminate | exact H].
Qed.

(** A clamped image without NaN has its pixels in [0,1]. *)
Lemma pixels_clamped_no_nan (t : tensor) :
  pixels_clamped t -> no_nan t -> pixels_in_unit_interval t.
Proof.
  unfold pixels_clamped, no_nan, pixels_in_unit_interval.
  rewrite !Forall_forall. intros Hc Hn x Hx.
  destruct (Hc x Hx) as [-> | H]; [|exact H].
  specialize (Hn NaN Hx). discriminate.
Qed.

(* ------------------------------------------------------------------ *)
(** ** One evaluation of the closure *)

Section ClosureFacts.

Variable B : backend.
Variable pipe : sequential.
Variables style_losses content_losses : list ref.
Variables style_weight content_weight : fnum.

Let closure' := closure B pipe style_losses content_losses style_weight content_weight.

(** What an evaluation that returns has done. *)
Lemma closure_returns (w w' : run_state) (l : pyval) :
  closure' w = Returns (l, w') ->
  exists x st s c g printed saved,
    let img := clamp_ 0%Qc 1%Qc (input_img w) in
    let s' := py_mul s (PyNum style_weight) in
    let c' := py_mul c (PyNum content_weight) in
    Sequential_forward B pipe (taps w) img = Returns (x, st) /\
    sum_losses st style_losses (PyNum (Fin 0%Qc)) = Returns s /\
    sum_losses st content_losses (PyNum (Fin 0%Qc)) = Returns c /\
    py_backward B pipe style_weight content_weight st img (py_add s' c') = Returns g /\
    report (run w + 1)%Z s' c' = Returns printed /\
    snapshot B (run w + 1)%Z img = Returns saved /\
    l = py_add s' c' /\
    w' = mkRun img (Some g) (run w + 1)%Z st (out w ++ printed ++ saved).
Proof.
  unfold closure', closure. intros H.
  apply bind_returns in H. destruct H as [[x st] [H1 H]].
  apply bind_returns in H. destruct H as [s [H2 H]].
  apply bind_returns in H. destruct H as [c [H3 H]].
  apply bind_returns in H. destruct H as [g [H4 H]].
  apply bind_returns in H. destruct H as [printed [H5 H]].
  apply bind_returns in H. destruct H as [saved [H6 H]].
  injection H as <- <-.
  exists x, st, s, c, g, printed, saved. cbn zeta. repeat split; assumption.
Qed.

Lemma closure_image (w w' : run_state) (l : pyval) :
  closure' w = Returns (l, w') ->
  input_img w' = clamp_ 0%Qc 1%Qc (input_img w).
Proof.
  intros H. apply closure_returns in H.
  destruct H as (x & st & s & c & g & printed & saved & H). cbn zeta in H.
  destruct H as (_ & _ & _ & _ & _ & _ & _ & ->). reflexivity.
Qed.

Lemma closure_counter (w w' : run_state) (l : pyval) :
  closure' w = Returns (l, w') -> run w' = (run w + 1)%Z.
Proof.
  intros H. apply closure_returns in H.
  destruct H as (x & st & s & c & g & printed & saved & H). cbn zeta in H.
  destruct H as (_ & _ & _ & _ & _ & _ & _ & ->). reflexivity.
Qed.

Lemma report_events (n : Z) (s c : pyval) (printed : list event) :
  report n s c = Returns printed ->
  if (n mod 10 =? 0)%Z
  then exists vs vc, printed = [PrintRun n; PrintScores vs vc; PrintBlank]
  else printed = [].
Proof.
  unfold report. destruct (n mod 10 =? 0)%Z.
  - intros H. apply bind_returns in H. destruct H as [vs [_ H]].
    apply bind_returns in H. destruct H as [vc [_ H]].
    injection H as <-. eauto.
  - intros H. now injection H as <-.
Qed.

Lemma snapshot_events (n : Z) (img : tensor) (saved : list event) :
  snapshot B n img = Returns saved ->
  saved = if (n mod 25 =? 0)%Z then [SaveImage img (snapshot_path n)] else [].
Proof.
  unfold snapshot. destruct (n mod 25 =? 0)%Z.
  - intros H. apply bind_returns in H. destruct H as [u [_ H]].
    now injection H as <-.
  - intros H. now injection H as <-.
Qed.

(** The output of one evaluation: the progress report when the new counter
    value is a multiple of 10, then the snapshot when it is one of 25. *)
Lemma closure_output (w w' : run_state) (l : pyval) :
  closure' w = Returns (l, w') ->
  let n := (run w + 1)%Z in
  exists printed,
    out w' = out w ++ printed ++
             (if (n mod 25 =? 0)%Z
              then [SaveImage (input_img w') (snapshot_path n)] else []) /\
    if (n mod 10 =? 0)%Z
    then exists vs vc, printed = [PrintRun n; PrintScores vs vc; PrintBlank]
    else printed = [].
Proof.
  intros H. pose proof (closure_image _ _ _ H) as Himg.
  apply closure_returns in H.
  destruct H as (x & st & s & c & g & printed & saved & H). cbn zeta in H.
  destruct H as (_ & _ & _ & _ & Hp & Hs & _ & Hw).
  apply report_events in Hp. apply snapshot_events in Hs.
  cbn zeta. exists printed. split; [|exact Hp].
  rewrite Himg. subst w' saved. reflexivity.
Qed.

End ClosureFacts.

(* ------------------------------------------------------------------ *)
(** ** Steps of the optimizer and the loop *)

Section LoopFacts.

Variable B : backend.
Variable pipe : sequential.
Variables style_losses content_losses : list ref.
Variables style_weight content_weight : fnum.
Variable opt : optimizer.
Variable num_steps : Z.

Let closure' := closure B pipe style_losses content_losses style_weight content_weight.
Let run_step' := @run_step B pipe style_losses content_losses style_weight content_weight.
Let optimize' := optimize B pipe style_losses content_losses style_weight content_weight
                          opt num_steps.

(** A property of the state that every evaluation of the closure keeps and
    that does not look at the image holds after a step of any optimizer. *)
Lemma run_step_invariant (I : run_state -> Prop) :
  (forall w l w', I w -> closure' w = Returns (l, w') -> I w') ->
  (forall w t, I w -> I (with_image t w)) ->
  forall (S : Type) (p : opt_prog S) (w w' : run_state) (s : S),
    I w -> run_step' S p w = Returns (s, w') -> I w'.
Proof.
  intros Hc Hi S p.
  induction p as [s0 | k IH | k IH | t k IH]; intros w w' s Hw H;
    cbn in H.
  - injection H as _ <-. exact Hw.
  - apply bind_returns in H. destruct H as [[l w1] [H1 H]].
    eapply IH; [|exact H]. eapply Hc; eauto.
  - eapply IH; eauto.
  - eapply IH; [|exact H]. apply (Hi w t Hw).
Qed.

Lemma optimize_invariant (I : run_state -> Prop) :
  (forall w l w', I w -> closure' w = Returns (l, w') -> I w') ->
  (forall w t, I w -> I (with_image t w)) ->
  forall (fuel : nat) (os : opt_state opt) (w w' : run_state),
    I w -> optimize' fuel os w = Some (Returns w') ->
    I w' /\ (num_steps < run w')%Z.
Proof.
  intros Hc Hi fuel.
  induction fuel as [|fuel IH]; intros os w w' Hw H; cbn in H.
  - destruct (run w <=? num_steps)%Z eqn:Hle; [discriminate|].
    injection H as <-. split; [exact Hw | now apply Z.leb_gt].
  - destruct (run w <=? num_steps)%Z eqn:Hle.
    + destruct (run_step B pipe style_losses content_losses style_weight
                         content_weight (opt_step opt os) w)
        as [[os' w1]|e] eqn:Hs; [|discriminate].
      eapply IH; [|exact H].
      eapply (run_step_invariant I Hc Hi); eauto.
    + injection H as <-. split; [exact Hw | now apply Z.leb_gt].
Qed.

(** The counter never goes down in a step, and goes up in a step that
    begins with an evaluation. *)
Lemma run_step_counter (S : Type) (p : opt_prog S) :
  forall (w w' : run_state) (s : S),
    run_step' S p w = Returns (s, w') ->
    (run w <= run w')%Z /\ (evaluates_first p -> (run w < run w')%Z).
Proof.
  induction p as [s0 | k IH | k IH | t k IH]; intros w w' s H; cbn in H.
  - injection H as _ <-. split; [lia | intros []].
  - apply bind_returns in H. destruct H as [[l w1] [H1 H]].
    apply closure_counter in H1. apply IH in H. lia.
  - apply IH in H. split; [lia | intros []].
  - apply IH in H. cbn in H. split; [lia | intros []].
Qed.

(** With an optimizer whose steps begin with an evaluation, the loop needs
    at most one step for each counter value up to the budget. *)
Lemma optimize_terminates :
  (forall os, evaluates_first (opt_step opt os)) ->
  forall (fuel : nat) (os : opt_state opt) (w : run_state),
    (num_steps - run w + 1 <= Z.of_nat fuel)%Z ->
    optimize' fuel os w <> None.
Proof.
  intros Hev fuel.
  induction fuel as [|fuel IH]; intros os w Hf; cbn.
  - destruct (run w <=? num_steps)%Z eqn:Hle; [|discriminate].
    apply Z.leb_le in Hle. lia.
  - destruct (run w <=? num_steps)%Z eqn:Hle; [|discriminate].
    destruct (run_step B pipe style_losses content_losses style_weight
                       content_weight (opt_step opt os) w)
      as [[os' w1]|e] eqn:Hs; [|discriminate].
    apply IH. apply run_step_counter in Hs. destruct Hs as [_ Hs].
    specialize (Hs (Hev os)). lia.
Qed.

End LoopFacts.

(* ------------------------------------------------------------------ *)
(** ** The cadence of snapshots and progress reports *)

Lemma saved_paths_app (a b : list event) :
  saved_paths (a ++ b) = saved_paths a ++ saved_paths b.
Proof.
  induction a as [|[] a IH]; cbn; try rewrite IH; reflexivity.
Qed.

Lemma progress_steps_app (a b : list event) :
  progress_steps (a ++ b) = progress_steps a ++ progress_steps b.
Proof.
  induction a as [|[] a IH]; cbn; try rewrite IH; reflexivity.
Qed.

Lemma printed_scores_app (a b : list event) :
  printed_scores (a ++ b) = printed_scores a ++ printed_scores b.
Proof.
  induction a as [|[] a IH]; cbn; try rewrite IH; reflexivity.
Qed.

Lemma multiples_S (m : Z) (k : nat) :
  multiples m (S k) = multiples m k ++ [(m * Z.of_nat (S k))%Z].
Proof.
  unfold multiples. rewrite seq_S, map_app. reflexivity.
Qed.

Lemma multiples_length (m : Z) (k : nat) : List.length (multiples m k) = k.
Proof.
  unfold multiples. now rewrite length_map, length_seq.
Qed.

(** The quotient by [m] goes up by one exactly when the successor is a
    multiple of [m]. *)
Lemma quotient_step (m r : Z) :
  (0 < m)%Z -> (0 <= r)%Z ->
  if ((r + 1) mod m =? 0)%Z
  then Z.to_nat ((r + 1) / m) = S (Z.to_nat (r / m)) /\
       (r + 1 = m * Z.of_nat (S (Z.to_nat (r / m))))%Z
  else Z.to_nat ((r + 1) / m) = Z.to_nat (r / m).
Proof.
  intros Hm Hr.
  assert (Hq : (0 <= r / m)%Z) by (apply Z.div_pos; lia).
  destruct ((r + 1) mod m =? 0)%Z eqn:E.
  - apply Z.eqb_eq in E.
    assert (Hd : ((r + 1) / m = r / m + 1)%Z)
      by (Z.div_mod_to_equations; nia).
    split; [rewrite Hd; lia|].
    rewrite Nat2Z.inj_succ, Z2Nat.id by exact Hq.
    Z.div_mod_to_equations; nia.
  - apply Z.eqb_neq in E.
    f_equal. Z.div_mod_to_equations; nia.
Qed.

Section Cadence.

Variable B : backend.
Variable pipe : sequential.
Variables style_losses content_losses : list ref.
Variables style_weight content_weight : fnum.

Lemma closure_keeps_cadence (w w' : run_state) (l : pyval) :
  cadence w ->
  closure B pipe style_losses content_losses style_weight content_weight w
    = Returns (l, w') ->
  cadence w'.
Proof.
  intros (H0 & Hsaved & Hsteps & Hscores) H.
  pose proof (closure_counter _ _ _ _ _ _ _ _ _ H) as Hrun.
  apply closure_output in H. cbn zeta in H.
  destruct H as (printed & Hout & Hprinted).
  pose proof (quotient_step 25 (run w) eq_refl H0) as H25.
  pose proof (quotient_step 10 (run w) eq_refl H0) as H10.
  unfold cadence. rewrite Hrun, Hout.
  rewrite !saved_paths_app, !progress_steps_app, !printed_scores_app.
  rewrite Hsaved, Hsteps, !length_app, Hscores.
  split; [lia|].
  destruct ((run w + 1) mod 10 =? 0)%Z;
    [destruct Hprinted as (vs & vc & ->), H10 as [-> H10] | subst printed; rewrite H10];
    (destruct ((run w + 1) mod 25 =? 0)%Z;
      [destruct H25 as [-> H25] | rewrite H25]);
    cbn [saved_paths progress_steps printed_scores List.length app];
    rewrite ?multiples_S, ?map_app, ?app_nil_r, <- ?H25, <- ?H10;
    cbn [map]; repeat split; try reflexivity; lia.
Qed.

Lemma with_image_keeps_cadence (w : run_state) (t : tensor) :
  cadence w -> cadence (with_image t w).
Proof.
  intros H. exact H.
Qed.

End Cadence.

(* ------------------------------------------------------------------ *)
(** ** The whole run *)

Section WholeRun.

Variable B : backend.
Variable opt : optimizer.
Variable cnn : list layer.
Variables normalization_mean normalization_std : tensor.
Variables content_img style_img input_img0 : tensor.
Variable num_steps : option Z.
Variables style_weight content_weight : option fnum.
Variables content_layers style_layers : option (list string).

Let run_style_transfer' :=
  run_style_transfer B opt cnn normalization_mean normalization_std
    content_img style_img input_img0 num_steps style_weight content_weight
    content_layers style_layers.

(** A run that returns has assembled the pipeline, left the loop, and
    clamped the image a last time. *)
Lemma run_style_transfer_returns (fuel : nat) (w : run_state) :
  run_style_transfer' fuel = Some (Returns w) ->
  exists m w1,
    get_style_model_and_losses B cnn normalization_mean normalization_std
      style_img content_img
      (fst (run_tap_arguments content_layers style_layers))
      (snd (run_tap_arguments content_layers style_layers)) = Returns m /\
    optimize B (model m) (style_refs m) (content_refs m)
      (or_default style_weight run_default_style_weight)
      (or_default content_weight run_default_content_weight)
      opt (or_default num_steps run_default_num_steps) fuel
      (opt_init opt input_img0)
      (mkRun input_img0 None 0%Z (objects m) [PrintBuilding; PrintOptimizing])
      = Some (Returns w1) /\
    w = with_image (clamp_ 0%Qc 1%Qc (input_img w1)) w1.
Proof.
  unfold run_style_transfer', run_style_transfer. cbn zeta. intros H.
  destruct (get_style_model_and_losses _ _ _ _ _ _ _ _) as [m|e];
    [|discriminate].
  destruct (optimize _ _ _ _ _ _ _ _ _ _ _) as [[w1|e]|] eqn:Ho;
    try discriminate.
  injection H as <-. exists m, w1. auto.
Qed.

Lemma run_style_transfer_cadence (fuel : nat) (w : run_state) :
  run_style_transfer' fuel = Some (Returns w) ->
  cadence w /\ (or_default num_steps run_default_num_steps < run w)%Z.
Proof.
  intros H. apply run_style_transfer_returns in H.
  destruct H as (m & w1 & _ & Ho & ->).
  eapply (optimize_invariant _ _ _ _ _ _ _ _ cadence) in Ho.
  - exact Ho.
  - intros w0 l w' Hw Hc. eapply closure_keeps_cadence; eauto.
  - intros w0 t Hw. exact Hw.
  - unfold cadence. cbn. repeat split; reflexivity || lia.
Qed.

Lemma run_style_transfer_terminates (fuel : nat) :
  (forall os, evaluates_first (opt_step opt os)) ->
  (or_default num_steps run_default_num_steps + 1 <= Z.of_nat fuel)%Z ->
  run_style_transfer' fuel <> None.
Proof.
  intros Hev Hf. unfold run_style_transfer', run_style_transfer. cbn zeta.
  destruct (get_style_model_and_losses _ _ _ _ _ _ _ _) as [m|e];
    [|discriminate].
  destruct (optimize _ _ _ _ _ _ _ _ _ _ _) as [[w1|e]|] eqn:Ho;
    try discriminate.
  exfalso. revert Ho. apply optimize_terminates; [exact Hev|]. cbn. lia.
Qed.

End WholeRun.

(** C1, as amended.  In every invocation of [run_style_transfer], whatever
    the backend and the optimizer: after every evaluation of the closure,
    every pixel value of the synthesized image is NaN or lies in [0,1], and
    all of them lie in [0,1] when the image held no NaN before the
    evaluation; and when the run returns, the step counter has exceeded
    the iteration budget and every pixel value of the returned image is
    NaN or lies in [0,1], so all of them lie in [0,1] when the returned
    image holds no NaN.  (With an optimizer whose steps begin with an
    evaluation, as those of LBFGS do, the run does finish: fuel for one
    step per counter value suffices.) *)
Theorem synthesized_image_is_clamped_or_nan
    (B : backend) (opt : optimizer) (cnn : list layer)
    (normalization_mean normalization_std : tensor)
    (content_img style_img input_img0 : tensor)
    (num_steps : option Z) (style_weight content_weight : option fnum)
    (content_layers style_layers : option (list string)) :
  (forall pipe style_losses content_losses sw cw w l w',
      closure B pipe style_losses content_losses sw cw w = Returns (l, w') ->
      pixels_clamped (input_img w') /\
      (no_nan (input_img w) -> pixels_in_unit_interval (input_img w'))) /\
  (forall fuel w,
      run_style_transfer B opt cnn normalization_mean normalization_std
        content_img style_img input_img0 num_steps style_weight content_weight
        content_layers style_layers fuel = Some (Returns w) ->
      (or_default num_steps run_default_num_steps < run w)%Z /\
      pixels_clamped (input_img w) /\
      (no_nan (input_img w) -> pixels_in_unit_interval (input_img w))) /\
  ((forall os, evaluates_first (opt_step opt os)) ->
   forall fuel,
     (or_default num_steps run_default_num_steps + 1 <= Z.of_nat fuel)%Z ->
     run_style_transfer B opt cnn normalization_mean normalization_std
       content_img style_img input_img0 num_steps style_weight content_weight
       content_layers style_layers fuel <> None).
Proof.
  split; [|split].
  - intros pipe sl cl sw cw w l w' H.
    rewrite (closure_image _ _ _ _ _ _ _ _ _ H).
    split; [apply clamp_pixels_clamped | apply clamp_in_unit_interval].
  - intros fuel w H.
    split; [apply (run_style_transfer_cadence _ _ _ _ _ _ _ _ _ _ _ _ _ _ _ H)|].
    apply run_style_transfer_returns in H.
    destruct H as (m & w1 & _ & _ & ->). cbn [input_img with_image].
    split; [apply clamp_pixels_clamped|].
    apply pixels_clamped_no_nan, clamp_pixels_clamped.
  - intros Hev fuel Hf. now apply run_style_transfer_terminates.
Qed.

(** C8.  In a run of [N] evaluations of the closure (the run returns with
    its counter at [N]), exactly [N / 25] snapshots of the synthesized image
    have been written, named after the counter values 25, 50, 75, ... up to
    [N], and the progress report (the counter and the score line) has been
    printed exactly for the counter values 10, 20, 30, ... up to [N]. *)
Theorem snapshot_and_progress_cadence
    (B : backend) (opt : optimizer) (cnn : list layer)
    (normalization_mean normalization_std : tensor)
    (content_img style_img input_img0 : tensor)
    (num_steps : option Z) (style_weight content_weight : option fnum)
    (content_layers style_layers : option (list string))
    (fuel : nat) (w : run_state)
    (Hrun : run_style_transfer B opt cnn normalization_mean normalization_std
              content_img style_img input_img0 num_steps style_weight
              content_weight content_layers style_layers fuel
            = Some (Returns w)) :
  let N := run w in
  List.length (saved_paths (out w)) = Z.to_nat (N / 25) /\
  saved_paths (out w) = map snapshot_path (multiples 25 (Z.to_nat (N / 25))) /\
  progress_steps (out w) = multiples 10 (Z.to_nat (N / 10)) /\
  List.length (printed_scores (out w)) = Z.to_nat (N / 10).
Proof.
  apply run_style_transfer_cadence in Hrun.
  destruct Hrun as [(_ & Hs & Hp & Hl) _]. cbn zeta.
  repeat split; try assumption.
  rewrite Hs, length_map. apply multiples_length.
Qed.

(* ------------------------------------------------------------------ *)
(** ** An unchecked loss *)

Section UncheckedLoss.

Variable B : backend.
Variable pipe : sequential.
Variables style_losses content_losses : list ref.
Variables style_weight content_weight : fnum.

(** The only conditions for an evaluation to return: its six calls do. *)
Lemma closure_complete (w : run_state) (x : tensor) (st : store)
    (s c : pyval) (g : tensor) (printed saved : list event) :
  let img := clamp_ 0%Qc 1%Qc (input_img w) in
  let s' := py_mul s (PyNum style_weight) in
  let c' := py_mul c (PyNum content_weight) in
  Sequential_forward B pipe (taps w) img = Returns (x, st) ->
  sum_losses st style_losses (PyNum (Fin 0%Qc)) = Returns s ->
  sum_losses st content_losses (PyNum (Fin 0%Qc)) = Returns c ->
  py_backward B pipe style_weight content_weight st img (py_add s' c') = Returns g ->
  report (run w + 1)%Z s' c' = Returns printed ->
  snapshot B (run w + 1)%Z img = Returns saved ->
  closure B pipe style_losses content_losses style_weight content_weight w
  = Returns (py_add s' c',
             mkRun img (Some g) (run w + 1)%Z st (out w ++ printed ++ saved)).
Proof.
  cbn zeta. intros H1 H2 H3 H4 H5 H6. unfold closure.
  rewrite H1. cbn [bind]. rewrite H2. cbn [bind]. rewrite H3. cbn [bind].
  rewrite H4. cbn [bind]. rewrite H5. cbn [bind]. rewrite H6. reflexivity.
Qed.

End UncheckedLoss.

(** C6, as amended.  [run_style_transfer] makes no test on the loss.  An
    evaluation whose total loss is not finite, and whose calls (the forward
    pass, the reading of the [.loss] attributes, [backward], the progress
    report, the snapshot) do not raise, returns that loss to the optimizer
    and counts as a step like any other; and the loop that goes on from
    there does not return before the counter has exceeded the budget. *)
Theorem non_finite_loss_is_returned_to_the_optimizer
    (B : backend) (pipe : sequential) (style_losses content_losses : list ref)
    (style_weight content_weight : fnum)
    (w : run_state) (x : tensor) (st : store) (s c : pyval) (g : tensor)
    (printed saved : list event)
    (Hforward : Sequential_forward B pipe (taps w) (clamp_ 0%Qc 1%Qc (input_img w))
                = Returns (x, st))
    (Hstyle : sum_losses st style_losses (PyNum (Fin 0%Qc)) = Returns s)
    (Hcontent : sum_losses st content_losses (PyNum (Fin 0%Qc)) = Returns c)
    (Hbackward : py_backward B pipe style_weight content_weight st
                   (clamp_ 0%Qc 1%Qc (input_img w))
                   (py_add (py_mul s (PyNum style_weight))
                           (py_mul c (PyNum content_weight))) = Returns g)
    (Hreport : report (run w + 1)%Z (py_mul s (PyNum style_weight))
                 (py_mul c (PyNum content_weight)) = Returns printed)
    (Hsnapshot : snapshot B (run w + 1)%Z (clamp_ 0%Qc 1%Qc (input_img w))
                 = Returns saved)
    (Hnonfinite : non_finite (py_add (py_mul s (PyNum style_weight))
                                     (py_mul c (PyNum content_weight)))) :
  closure B pipe style_losses content_losses style_weight content_weight w
  = Returns (py_add (py_mul s (PyNum style_weight))
                    (py_mul c (PyNum content_weight)),
             mkRun (clamp_ 0%Qc 1%Qc (input_img w)) (Some g) (run w + 1)%Z st
                   (out w ++ printed ++ saved)) /\
  forall (opt : optimizer) (num_steps : Z) (fuel : nat) (os : opt_state opt)
         (w' : run_state),
    optimize B pipe style_losses content_losses style_weight content_weight
             opt num_steps fuel os w = Some (Returns w') ->
    (num_steps < run w')%Z.
Proof.
  split.
  - apply (closure_complete B pipe style_losses content_losses style_weight
             content_weight w x st s c g printed saved); assumption.
  - intros opt num_steps fuel os w' Ho.
    eapply (optimize_invariant _ _ _ _ _ _ _ _ (fun _ => True)) in Ho;
      [apply Ho | auto ..].
Qed.

(* ------------------------------------------------------------------ *)
(** ** The walk over the backbone *)

Lemma add_module_Forall (Q : string * stage -> Prop) (name : string) (x : stage)
    (m : sequential) :
  Forall Q m -> Q (name, x) -> Forall Q (add_module name x m).
Proof.
  intros Hm Hx. induction m as [|[n y] m IH]; cbn.
  - constructor; [exact Hx | constructor].
  - inversion Hm as [|? ? Hy Hm']; subst.
    destruct (String.eqb n name) eqn:E.
    + apply String.eqb_eq in E. subst n. constructor; assumption.
    + constructor; [exact Hy | now apply IH].
Qed.

Lemma add_module_head (k name : string) (x y : stage) (m : sequential) :
  String.eqb k name = false ->
  add_module name y ((k, x) :: m) = (k, x) :: add_module name y m.
Proof.
  intros E. cbn. now rewrite E.
Qed.

(** The canonical name of a layer is built from one of four kinds and the
    block index after the layer. *)
Lemma classify_returns (l l' : layer) (i i' : nat) (name : string) :
  classify l i = Returns (i', name, l') ->
  (In (i', name) [(S i, layer_name "conv" (S i)); (i, layer_name "relu" i);
                  (i, layer_name "pool" i); (i, layer_name "bn" i)]) /\
  recognised l = true.
Proof.
  destruct l; cbn; intros H; try discriminate; injection H as <- <- <-; auto 6.
Qed.

Lemma classify_recognised (l : layer) (i : nat) :
  recognised l = true -> exists i' name l', classify l i = Returns (i', name, l').
Proof.
  destruct l; cbn; intros H; try discriminate; eauto.
Qed.

Section WalkFacts.

Variable B : backend.
Variables style_img content_img : tensor.
Variables content_layers style_layers : list string.

Let add_content_loss' := add_content_loss B content_img content_layers.
Let add_style_loss' := add_style_loss B style_img style_layers.
Let walk_layer' := walk_layer B style_img content_img content_layers style_layers.
Let walk' := walk B style_img content_img content_layers style_layers.

Lemma add_content_loss_returns (name : string) (s s' : assembly) :
  add_content_loss' name s = Returns s' ->
  (name_in name content_layers = false /\ s' = s) \/
  (name_in name content_layers = true /\
   exists tgt st,
     Sequential_forward B (pipeline s) (modules s) content_img = Returns (tgt, st) /\
     s' = mkAssembly (block s)
            (add_module (layer_name "content_loss" (block s))
                        (ContentLoss (List.length st)) (pipeline s))
            (st ++ [mkLoss tgt None])
            (content_losses s ++ [List.length st])
            (style_losses s)).
Proof.
  unfold add_content_loss', add_content_loss.
  destruct (name_in name content_layers); intros H.
  - right. split; [reflexivity|].
    apply bind_returns in H. destruct H as [[tgt st] [H1 H]].
    injection H as <-. eauto.
  - left. injection H as <-. auto.
Qed.

Lemma add_style_loss_returns (name : string) (s s' : assembly) :
  add_style_loss' name s = Returns s' ->
  (name_in name style_layers = false /\ s' = s) \/
  (name_in name style_layers = true /\
   exists feat st G,
     Sequential_forward B (pipeline s) (modules s) style_img = Returns (feat, st) /\
     gram_matrix feat = Returns G /\
     s' = mkAssembly (block s)
            (add_module (layer_name "style_loss" (block s))
                        (StyleLoss (List.length st)) (pipeline s))
            (st ++ [mkLoss G None])
            (content_losses s)
            (style_losses s ++ [List.length st])).
Proof.
  unfold add_style_loss', add_style_loss.
  destruct (name_in name style_layers); intros H.
  - right. split; [reflexivity|].
    apply bind_returns in H. destruct H as [[feat st] [H1 H]].
    apply bind_returns in H. destruct H as [G [H2 H]].
    injection H as <-. eauto 6.
  - left. injection H as <-. auto.
Qed.

Lemma walk_layer_returns (s s' : assembly) (l : layer) :
  walk_layer' s l = Returns s' ->
  exists i name l' s2,
    classify l (block s) = Returns (i, name, l') /\
    add_content_loss' name
      (mkAssembly i (add_module name (Backbone l') (pipeline s))
                  (modules s) (content_losses s) (style_losses s)) = Returns s2 /\
    add_style_loss' name s2 = Returns s'.
Proof.
  unfold walk_layer', walk_layer. intros H.
  apply bind_returns in H. destruct H as [[[i name] l'] [H1 H]].
  apply bind_returns in H. destruct H as [s2 [H2 H]].
  exists i, name, l', s2. auto.
Qed.

(** The block index after a layer is the one [classify] computes. *)
Lemma walk_layer_block (s s' : assembly) (l : layer) :
  walk_layer' s l = Returns s' ->
  exists name l', classify l (block s) = Returns (block s', name, l').
Proof.
  intros H. apply walk_layer_returns in H.
  destruct H as (i & name & l' & s2 & Hc & H2 & H3).
  exists name, l'.
  apply add_content_loss_returns in H2.
  apply add_style_loss_returns in H3.
  destruct H2 as [[_ ->] | [_ (tgt & st & _ & ->)]];
    destruct H3 as [[_ ->] | [_ (feat & st' & G & _ & _ & ->)]];
    exact Hc.
Qed.

(** A property of the stages that holds of every stage the walk can add
    holds of the whole pipeline. *)
Lemma walk_layer_Forall (Q : string * stage -> Prop) (s s' : assembly) (l : layer) :
  (forall i name l', classify l (block s) = Returns (i, name, l') ->
     Q (name, Backbone l') /\
     (name_in name content_layers = true ->
      forall r, Q (layer_name "content_loss" i, ContentLoss r)) /\
     (name_in name style_layers = true ->
      forall r, Q (layer_name "style_loss" i, StyleLoss r))) ->
  Forall Q (pipeline s) ->
  walk_layer' s l = Returns s' ->
  Forall Q (pipeline s').
Proof.
  intros HQ Hs H. apply walk_layer_returns in H.
  destruct H as (i & name & l' & s2 & Hc & H2 & H3).
  destruct (HQ i name l' Hc) as (Hb & Hcl & Hsl).
  apply add_content_loss_returns in H2.
  apply add_style_loss_returns in H3.
  assert (Hs2 : Forall Q (pipeline s2) /\ block s2 = i).
  { destruct H2 as [[_ ->] | [Hin (tgt & st & _ & ->)]]; cbn; split; auto.
    - now apply add_module_Forall.
    - apply add_module_Forall; [now apply add_module_Forall | now apply Hcl]. }
  destruct Hs2 as [Hs2 Hblock].
  destruct H3 as [[_ ->] | [Hin (feat & st & G & _ & _ & ->)]]; cbn; auto.
  apply add_module_Forall; [exact Hs2 | rewrite Hblock; now apply Hsl].
Qed.

Lemma walk_Forall (Q : string * stage -> Prop) :
  (forall l i0 i name l', classify l i0 = Returns (i, name, l') ->
     Q (name, Backbone l') /\
     (name_in name content_layers = true ->
      forall r, Q (layer_name "content_loss" i, ContentLoss r)) /\
     (name_in name style_layers = true ->
      forall r, Q (layer_name "style_loss" i, StyleLoss r))) ->
  forall (cnn : list layer) (s s' : assembly),
    Forall Q (pipeline s) -> walk' s cnn = Returns s' -> Forall Q (pipeline s').
Proof.
  intros HQ cnn.
  induction cnn as [|l cnn IH]; intros s s' Hs H; cbn in H.
  - now injection H as <-.
  - apply bind_returns in H. destruct H as [s1 [H1 H]].
    eapply IH; [|exact H].
    eapply walk_layer_Forall; eauto.
Qed.

End WalkFacts.

(* ------------------------------------------------------------------ *)
(** ** The assembled pipeline *)

Lemma get_style_model_and_losses_returns (B : backend) (cnn : list layer)
    (normalization_mean normalization_std style_img content_img : tensor)
    (content_layers style_layers : option (list string)) (m : assembled) :
  get_style_model_and_losses B cnn normalization_mean normalization_std
    style_img content_img content_layers style_layers = Returns m ->
  exists s,
    walk B style_img content_img
         (or_default content_layers default_content_layers)
         (or_default style_layers default_style_layers)
         (initial_assembly normalization_mean normalization_std) cnn = Returns s /\
    m = mkAssembled
          (firstn (trim_index (pipeline s) (block s) + 1) (pipeline s))
          (style_losses s) (content_losses s) (modules s).
Proof.
  unfold get_style_model_and_losses. cbn zeta. intros H.
  apply bind_returns in H. destruct H as [s [Hw H]].
  injection H as <-. exists s. split; [exact Hw | reflexivity].
Qed.

Lemma Forall_firstn_keeps {A : Type} (Q : A -> Prop) (n : nat) (l : list A) :
  Forall Q l -> Forall Q (firstn n l).
Proof.
  intros H. revert n. induction H as [|x l Hx Hl IH]; intros [|n]; cbn;
    constructor; auto.
Qed.

(** C5, as amended.  During assembly every max-pooling layer of the
    backbone is replaced by the average-pooling layer of kernel size 2,
    stride 2, padding 0 (and [ceil_mode] off), whatever the geometry of the
    original: the kernel size, stride and padding are those of the original
    exactly when the original has kernel size 2, stride 2 and padding 0.
    The pipeline returned holds no max-pooling stage, and each of its
    average-pooling stages is that fixed layer. *)
Theorem max_pool_replaced_by_fixed_average_pool
    (B : backend) (cnn : list layer)
    (normalization_mean normalization_std style_img content_img : tensor)
    (content_layers style_layers : option (list string)) :
  (forall k s p c i,
      classify (MaxPool2d k s p c) i
      = Returns (i, layer_name "pool" i, AvgPool2d 2 2 0 false)) /\
  (forall k s p c,
      same_pooling_geometry (MaxPool2d k s p c) (AvgPool2d 2 2 0 false)
      <-> k = 2 /\ s = 2 /\ p = 0) /\
  (forall m,
      get_style_model_and_losses B cnn normalization_mean normalization_std
        style_img content_img content_layers style_layers = Returns m ->
      pooling_replaced (model m)).
Proof.
  split; [reflexivity|]. split.
  - intros k s p c. cbn. intuition congruence.
  - intros m H. apply get_style_model_and_losses_returns in H.
    destruct H as (s & Hw & ->). cbn [model].
    apply Forall_firstn_keeps.
    eapply walk_Forall; [| |exact Hw].
    + intros l i0 i name l' Hc. cbn [snd].
      split; [|split; intros; exact I].
      destruct l; cbn in Hc; try discriminate;
        injection Hc as <- <- <-; exact I || reflexivity.
    + repeat constructor.
Qed.

(* ------------------------------------------------------------------ *)
(** ** Truncation after the last tap *)

Lemma trim_scan_le (m : sequential) (k : nat) : trim_scan m k <= k.
Proof.
  induction k as [|k IH]; cbn [trim_scan]; [lia|].
  destruct (nth_error m (S k)) as [[n s]|]; [destruct (is_tap s)|]; lia.
Qed.

Lemma trim_scan_tap_or_zero (m : sequential) (k : nat) :
  tap_at m (trim_scan m k) = true \/ trim_scan m k = 0.
Proof.
  induction k as [|k IH]; cbn [trim_scan]; [now right|].
  destruct (nth_error m (S k)) as [[n s]|] eqn:E; [|exact IH].
  destruct (is_tap s) eqn:Et; [|exact IH].
  left. unfold tap_at. now rewrite E.
Qed.

Lemma last_tap_index_firstn (m : sequential) (i : nat) :
  tap_at m i = true -> last_tap_index (firstn (S i) m) = Some i.
Proof.
  revert i. induction m as [|[n s] m IH]; intros i H.
  - unfold tap_at in H. destruct i; discriminate.
  - destruct i as [|i].
    + unfold tap_at in H. cbn in H. cbn. now rewrite H.
    + change (firstn (S (S i)) ((n, s) :: m)) with ((n, s) :: firstn (S i) m).
      cbn [last_tap_index]. rewrite IH; [reflexivity|]. exact H.
Qed.

Lemma tap_at_length (m : sequential) (i : nat) :
  tap_at m i = true -> i < List.length m.
Proof.
  unfold tap_at. intros H. apply nth_error_Some.
  destruct (nth_error m i); [discriminate | discriminate].
Qed.

(** What the trimming makes of a pipeline that begins with a stage that
    is no tap. *)
Lemma trim_spec (n : string) (x : stage) (rest : sequential) (i0 : nat) :
  is_tap x = false ->
  let m := (n, x) :: rest in
  let trimmed := firstn (trim_index m i0 + 1) m in
  match last_tap_index trimmed with
  | Some j => List.length trimmed = j + 1
  | None => trimmed = [(n, x)] /\ trim_index m i0 = 0
  end.
Proof.
  intros Hx m trimmed. subst trimmed.
  unfold trim_index. cbn [List.length m].
  pose proof (trim_scan_le m (List.length rest)) as Hle.
  destruct (trim_scan_tap_or_zero m (List.length rest)) as [Ht | H0].
  - rewrite Nat.add_1_r, (last_tap_index_firstn _ _ Ht).
    rewrite length_firstn. subst m. cbn [List.length]. lia.
  - rewrite H0. subst m. cbn. rewrite Hx. auto.
Qed.

Section HeadOfPipeline.

Variable B : backend.
Variables style_img content_img : tensor.
Variables content_layers style_layers : list string.

(** The walk leaves the first stage, named "0", where it is: no name it
    builds is "0". *)
Lemma walk_layer_head (s s' : assembly) (l : layer) (x : stage) (rest : sequential) :
  pipeline s = ("0", x) :: rest ->
  walk_layer B style_img content_img content_layers style_layers s l = Returns s' ->
  exists rest', pipeline s' = ("0", x) :: rest'.
Proof.
  intros Hp H. apply walk_layer_returns in H.
  destruct H as (i & name & l' & s2 & Hc & H2 & H3).
  apply classify_returns in Hc. destruct Hc as [Hc _].
  assert (Hname : String.eqb "0" name = false).
  { cbn [In] in Hc. decompose [or] Hc; try contradiction;
      match goal with E : _ = (i, name) |- _ => injection E as _ <- end;
      reflexivity. }
  apply add_content_loss_returns in H2.
  apply add_style_loss_returns in H3.
  assert (Hs2 : exists rest2, pipeline s2 = ("0", x) :: rest2).
  { destruct H2 as [[_ ->] | [_ (tgt & st & _ & ->)]]; cbn [pipeline];
      rewrite Hp, add_module_head by exact Hname; eauto.
    rewrite add_module_head by reflexivity. eauto. }
  destruct Hs2 as [rest2 Hs2].
  destruct H3 as [[_ ->] | [_ (feat & st & G & _ & _ & ->)]]; cbn [pipeline];
    [eauto|].
  rewrite Hs2, add_module_head by reflexivity. eauto.
Qed.

Lemma walk_head (cnn : list layer) :
  forall (s s' : assembly) (x : stage) (rest : sequential),
    pipeline s = ("0", x) :: rest ->
    walk B style_img content_img content_layers style_layers s cnn = Returns s' ->
    exists rest', pipeline s' = ("0", x) :: rest'.
Proof.
  induction cnn as [|l cnn IH]; intros s s' x rest Hp H; cbn in H.
  - injection H as <-. eauto.
  - apply bind_returns in H. destruct H as [s1 [H1 H]].
    destruct (walk_layer_head _ _ _ _ _ Hp H1) as [rest1 Hp1].
    eapply IH; eauto.
Qed.

End HeadOfPipeline.

(** C2, as amended.  For every tap-depth configuration in which the
    pipeline returned by [get_style_model_and_losses] holds a loss tap, it
    has no stage after the last one: its number of stages is the index of
    the last tap stage plus 1.  When it holds no tap (no requested depth
    names a layer), it is the Normalization stage alone. *)
Theorem truncated_pipeline_ends_with_last_tap
    (B : backend) (cnn : list layer)
    (normalization_mean normalization_std style_img content_img : tensor)
    (content_layers style_layers : option (list string)) (m : assembled)
    (Hreturns : get_style_model_and_losses B cnn normalization_mean
                  normalization_std style_img content_img
                  content_layers style_layers = Returns m) :
  match last_tap_index (model m) with
  | Some j => List.length (model m) = j + 1
  | None =>
      model m = [("0", Normalization (view_channels normalization_mean)
                                     (view_channels normalization_std))]
  end.
Proof.
  apply get_style_model_and_losses_returns in Hreturns.
  destruct Hreturns as (s & Hw & ->). cbn [model].
  destruct (walk_head B style_img content_img _ _ cnn
              (initial_assembly normalization_mean normalization_std) s
              _ [] eq_refl Hw) as [rest Hp].
  rewrite Hp.
  pose proof (trim_spec "0"
                (Normalization (view_channels normalization_mean)
                               (view_channels normalization_std))
                rest (block s) eq_refl) as H.
  cbn zeta in H.
  destruct (last_tap_index _); [exact H | apply H].
Qed.

(* ------------------------------------------------------------------ *)
(** ** Requested depths that name no layer *)

Lemma trim_scan_no_tap (m : sequential) (k : nat) :
  (forall j, tap_at m j = false) -> trim_scan m k = 0.
Proof.
  intros H. destruct (trim_scan_tap_or_zero m k) as [Ht | H0]; [|exact H0].
  rewrite H in Ht. discriminate.
Qed.

Lemma name_in_app (name : string) (a b : list string) :
  name_in name (a ++ b) = name_in name a || name_in name b.
Proof.
  unfold name_in. apply existsb_app.
Qed.

Lemma name_in_false (name : string) (l : list string) :
  ~ In name l -> name_in name l = false.
Proof.
  intros H. unfold name_in.
  destruct (existsb (String.eqb name) l) eqn:E; [|reflexivity].
  apply existsb_exists in E. destruct E as [x [Hx E]].
  apply String.eqb_eq in E. subst x. contradiction.
Qed.

Section AbsentDepths.

Variable B : backend.
Variables style_img content_img : tensor.

(** The walk looks at the requested depths only through the names of the
    layers it meets. *)
Lemma walk_ext (cl sl cl' sl' : list string) (cnn : list layer) :
  forall s : assembly,
    (forall name, In name (backbone_names (block s) cnn) ->
       name_in name cl = name_in name cl' /\
       name_in name sl = name_in name sl') ->
    walk B style_img content_img cl sl s cnn =
    walk B style_img content_img cl' sl' s cnn.
Proof.
  induction cnn as [|l cnn IH]; intros s Hn; [reflexivity|].
  cbn [walk]. cbn [backbone_names] in Hn.
  assert (Hl : walk_layer B style_img content_img cl sl s l =
               walk_layer B style_img content_img cl' sl' s l).
  { unfold walk_layer.
    destruct (classify l (block s)) as [[[i name] l']|e]; [|reflexivity].
    destruct (Hn name (or_introl eq_refl)) as [Hc Hs].
    cbn [bind]. unfold add_content_loss, add_style_loss.
    now rewrite Hc, Hs. }
  rewrite Hl.
  destruct (walk_layer B style_img content_img cl' sl' s l) as [s1|e] eqn:H1;
    [|reflexivity].
  cbn [bind]. apply IH. intros name Hin. apply Hn.
  apply walk_layer_block in H1. destruct H1 as (name1 & l1 & H1).
  rewrite H1. right. exact Hin.
Qed.

(** Without a match in a category, its loss list stays as it is. *)
Lemma walk_content_untouched (cl sl : list string) (cnn : list layer) :
  forall s s' : assembly,
    (forall name, In name (backbone_names (block s) cnn) ->
       name_in name cl = false) ->
    walk B style_img content_img cl sl s cnn = Returns s' ->
    content_losses s' = content_losses s.
Proof.
  induction cnn as [|l cnn IH]; intros s s' Hn H; cbn in H.
  - now injection H as <-.
  - apply bind_returns in H. destruct H as [s1 [H1 H]].
    pose proof (walk_layer_block _ _ _ _ _ _ _ _ H1) as (name1 & l1 & Hb).
    cbn [backbone_names] in Hn.
    apply walk_layer_returns in H1.
    destruct H1 as (i & name & l' & s2 & Hc & H2 & H3).
    rewrite Hc in Hn, Hb. injection Hb as Hi _ _.
    rewrite (IH s1 s'); [| |exact H].
    + apply add_content_loss_returns in H2.
      apply add_style_loss_returns in H3.
      destruct H2 as [[_ ->] | [Hin _]].
      * destruct H3 as [[_ ->] | [_ (feat & st & G & _ & _ & ->)]]; reflexivity.
      * rewrite (Hn name (or_introl eq_refl)) in Hin. discriminate.
    + intros n Hin. apply Hn. right. rewrite Hi. exact Hin.
Qed.

Lemma walk_style_untouched (cl sl : list string) (cnn : list layer) :
  forall s s' : assembly,
    (forall name, In name (backbone_names (block s) cnn) ->
       name_in name sl = false) ->
    walk B style_img content_img cl sl s cnn = Returns s' ->
    style_losses s' = style_losses s.
Proof.
  induction cnn as [|l cnn IH]; intros s s' Hn H; cbn in H.
  - now injection H as <-.
  - apply bind_returns in H. destruct H as [s1 [H1 H]].
    pose proof (walk_layer_block _ _ _ _ _ _ _ _ H1) as (name1 & l1 & Hb).
    cbn [backbone_names] in Hn.
    apply walk_layer_returns in H1.
    destruct H1 as (i & name & l' & s2 & Hc & H2 & H3).
    rewrite Hc in Hn, Hb. injection Hb as Hi _ _.
    rewrite (IH s1 s'); [| |exact H].
    + apply add_content_loss_returns in H2.
      apply add_style_loss_returns in H3.
      destruct H3 as [[_ ->] | [Hin _]].
      * destruct H2 as [[_ ->] | [_ (tgt & st & _ & ->)]]; reflexivity.
      * rewrite (Hn name (or_introl eq_refl)) in Hin. discriminate.
    + intros n Hin. apply Hn. right. rewrite Hi. exact Hin.
Qed.

(** Without a match in either category, the walk over a backbone of
    accepted layers returns, having added the layers and nothing else. *)
Lemma walk_without_match (cl sl : list string) (cnn : list layer) :
  forall s : assembly,
    forallb recognised cnn = true ->
    (forall name, In name (backbone_names (block s) cnn) ->
       name_in name cl = false /\ name_in name sl = false) ->
    (forall j, tap_at (pipeline s) j = false) ->
    exists s',
      walk B style_img content_img cl sl s cnn = Returns s' /\
      modules s' = modules s /\
      content_losses s' = content_losses s /\
      style_losses s' = style_losses s /\
      (forall j, tap_at (pipeline s') j = false).
Proof.
  induction cnn as [|l cnn IH]; intros s Hr Hn Ht.
  - exists s. cbn. auto.
  - cbn [forallb] in Hr. apply andb_prop in Hr. destruct Hr as [Hl Hr].
    destruct (classify_recognised l (block s) Hl) as (i & name & l' & Hc).
    cbn [backbone_names] in Hn. rewrite Hc in Hn.
    destruct (Hn name (or_introl eq_refl)) as [Hcl Hsl].
    assert (H1 : walk_layer B style_img content_img cl sl s l =
                 Returns (mkAssembly i (add_module name (Backbone l') (pipeline s))
                            (modules s) (content_losses s) (style_losses s))).
    { unfold walk_layer. rewrite Hc. cbn [bind].
      unfold add_content_loss. rewrite Hcl. cbn [bind].
      unfold add_style_loss. rewrite Hsl. reflexivity. }
    cbn [walk]. rewrite H1. cbn [bind].
    destruct (IH (mkAssembly i (add_module name (Backbone l') (pipeline s))
                    (modules s) (content_losses s) (style_losses s)) Hr)
      as (s' & Hw & Hm & Hcs & Hss & Hts);
      [| | exists s'; auto].
    + intros n Hin. apply Hn. right. exact Hin.
    + cbn [pipeline]. intros j. unfold tap_at.
      destruct (nth_error _ j) as [[n x]|] eqn:E; [|reflexivity].
      apply nth_error_In in E.
      assert (HF : Forall (fun ns => is_tap (snd ns) = false)
                     (add_module name (Backbone l') (pipeline s))).
      { apply add_module_Forall; [|reflexivity].
        apply Forall_forall. intros [n0 x0] Hin0.
        apply In_nth_error in Hin0. destruct Hin0 as [j0 Hj0].
        specialize (Ht j0). unfold tap_at in Ht. rewrite Hj0 in Ht. exact Ht. }
      rewrite Forall_forall in HF. apply (HF _ E).
Qed.

End AbsentDepths.

(** C9.  If neither the content-tap set nor the style-tap set names any
    layer of the backbone (and the backbone has only layers the walk
    accepts, so that the assembly returns at all), then
    [get_style_model_and_losses] returns the pipeline of exactly one stage,
    the Normalization module, with two empty loss lists: no loss module was
    made, and the trimming loop is left with index 0. *)
Theorem no_matching_tap_leaves_normalization_alone
    (B : backend) (cnn : list layer)
    (normalization_mean normalization_std style_img content_img : tensor)
    (content_layers style_layers : option (list string))
    (Haccepted : forallb recognised cnn = true)
    (Hcontent : never_requested cnn (or_default content_layers default_content_layers))
    (Hstyle : never_requested cnn (or_default style_layers default_style_layers)) :
  get_style_model_and_losses B cnn normalization_mean normalization_std
    style_img content_img content_layers style_layers
  = Returns (mkAssembled
               [("0", Normalization (view_channels normalization_mean)
                                    (view_channels normalization_std))]
               [] [] []) /\
  exists s,
    walk B style_img content_img
      (or_default content_layers default_content_layers)
      (or_default style_layers default_style_layers)
      (initial_assembly normalization_mean normalization_std) cnn = Returns s /\
    trim_index (pipeline s) (block s) = 0.
Proof.
  destruct (walk_without_match B style_img content_img
              (or_default content_layers default_content_layers)
              (or_default style_layers default_style_layers) cnn
              (initial_assembly normalization_mean normalization_std))
    as (s & Hw & Hm & Hc & Hs & Ht).
  - exact Haccepted.
  - intros name Hin. split; [now apply Hcontent | now apply Hstyle].
  - intros [|[|j]]; reflexivity.
  - destruct (walk_head B style_img content_img _ _ cnn
                (initial_assembly normalization_mean normalization_std) s
                _ [] eq_refl Hw) as [rest Hp].
    assert (Hi : trim_index (pipeline s) (block s) = 0).
    { unfold trim_index. destruct (List.length (pipeline s)) eqn:El.
      - rewrite Hp in El. discriminate.
      - now apply trim_scan_no_tap. }
    split; [|exists s; auto].
    unfold get_style_model_and_losses. cbn zeta. rewrite Hw. cbn [bind].
    rewrite Hi, Hm, Hc, Hs, Hp. reflexivity.
Qed.

Lemma absent_never_requested (cnn : list layer) (absent : list string) :
  (forall name, In name absent -> never_occurs cnn name) ->
  never_requested cnn absent.
Proof.
  intros H name Hin. apply name_in_false. intros Ha.
  exact (H name Ha Hin).
Qed.

(** C7.  Requested content-tap or style-tap depths whose canonical names
    never occur among the names of the backbone's layers are a silent
    no-op: the call has the outcome (the result, or the error) it has
    without them, so they raise no error; a category in which only such
    depths are requested comes back with an empty loss list; and when only
    such depths are requested at all, the call on a backbone of accepted
    layers returns, with both loss lists empty. *)
Theorem absent_depths_are_a_silent_no_op
    (B : backend) (cnn : list layer)
    (normalization_mean normalization_std style_img content_img : tensor)
    (absent content_layers style_layers : list string)
    (Habsent : forall name, In name absent -> never_occurs cnn name) :
  let assemble := get_style_model_and_losses B cnn normalization_mean
                    normalization_std style_img content_img in
  assemble (Some (absent ++ content_layers)) (Some style_layers)
    = assemble (Some content_layers) (Some style_layers) /\
  assemble (Some content_layers) (Some (absent ++ style_layers))
    = assemble (Some content_layers) (Some style_layers) /\
  (forall m, assemble (Some absent) (Some style_layers) = Returns m ->
             content_refs m = []) /\
  (forall m, assemble (Some content_layers) (Some absent) = Returns m ->
             style_refs m = []) /\
  (forallb recognised cnn = true ->
   exists m, assemble (Some absent) (Some absent) = Returns m /\
             content_refs m = [] /\ style_refs m = []).
Proof.
  pose proof (absent_never_requested cnn absent Habsent) as Hnever.
  cbn zeta. repeat split.
  - unfold get_style_model_and_losses. cbn [or_default].
    rewrite (walk_ext B style_img content_img (absent ++ content_layers)
               style_layers content_layers style_layers); [reflexivity|].
    intros name Hin. split; [|reflexivity].
    rewrite name_in_app, (Hnever name Hin). reflexivity.
  - unfold get_style_model_and_losses. cbn [or_default].
    rewrite (walk_ext B style_img content_img content_layers
               (absent ++ style_layers) content_layers style_layers);
      [reflexivity|].
    intros name Hin. split; [reflexivity|].
    rewrite name_in_app, (Hnever name Hin). reflexivity.
  - intros m H. apply get_style_model_and_losses_returns in H.
    destruct H as (s & Hw & ->). cbn [content_refs].
    apply walk_content_untouched in Hw; [exact Hw|].
    intros name Hin. now apply Hnever.
  - intros m H. apply get_style_model_and_losses_returns in H.
    destruct H as (s & Hw & ->). cbn [style_refs].
    apply walk_style_untouched in Hw; [exact Hw|].
    intros name Hin. now apply Hnever.
  - intros Hacc.
    destruct (walk_without_match B style_img content_img absent absent cnn
                (initial_assembly normalization_mean normalization_std) Hacc)
      as (s & Hw & _ & Hc & Hs & _).
    + intros name Hin. split; now apply Hnever.
    + intros [|[|j]]; reflexivity.
    + unfold get_style_model_and_losses. cbn zeta. cbn [or_default].
      rewrite Hw. cbn [bind]. eexists. split; [reflexivity|].
      cbn [content_refs style_refs]. rewrite Hc, Hs. split; reflexivity.
Qed.

(* ------------------------------------------------------------------ *)
(** ** The default taps of the two entry points *)


Lemma add_module_In_other (k name : string) (x y : stage) (m : sequential) :
  In (k, y) m -> String.eqb k name = false -> In (k, y) (add_module name x m).
Proof.
  intros Hin Hk. induction m as [|[n z] m IH]; [contradiction|].
  cbn. destruct (String.eqb n name) eqn:E.
  - destruct Hin as [Heq | Hin]; [|right; exact Hin].
    injection Heq as -> ->. congruence.
  - destruct Hin as [Heq | Hin]; [left; exact Heq | right; now apply IH].
Qed.

Lemma add_module_In_new (name : string) (x : stage) (m : sequential) :
  In (name, x) (add_module name x m).
Proof.
  induction m as [|[n z] m IH]; cbn; [now left|].
  destruct (String.eqb n name) eqn:E.
  - apply String.eqb_eq in E. subst n. now left.
  - right. exact IH.
Qed.

Lemma trim_scan_ge (m : sequential) (k j : nat) :
  j <= k -> tap_at m j = true -> j <= trim_scan m k.
Proof.
  induction k as [|k IH]; intros Hj Ht; cbn [trim_scan]; [lia|].
  destruct (Nat.eq_dec j (S k)) as [-> | Hne].
  - unfold tap_at in Ht.
    destruct (nth_error m (S k)) as [[n s]|]; [|discriminate].
    now rewrite Ht.
  - assert (j <= trim_scan m k) by (apply IH; [lia | exact Ht]).
    destruct (nth_error m (S k)) as [[n s]|]; [destruct (is_tap s)|]; lia.
Qed.

(** The trimming drops no tap. *)
Lemma trim_keeps_taps (m : sequential) (i0 : nat) (k : string) (x : stage) :
  is_tap x = true -> In (k, x) m ->
  In (k, x) (firstn (trim_index m i0 + 1) m).
Proof.
  intros Hx Hin. apply In_nth_error in Hin. destruct Hin as [j Hj].
  assert (Hlt : j < List.length m) by (apply nth_error_Some; congruence).
  assert (Ht : tap_at m j = true) by (unfold tap_at; now rewrite Hj).
  unfold trim_index. destruct (List.length m) as [|n] eqn:El; [lia|].
  pose proof (trim_scan_ge m n j ltac:(lia) Ht) as Hge.
  apply nth_error_In with (n := j).
  rewrite nth_error_firstn.
  destruct (Nat.ltb_spec j (trim_scan m n + 1)); [exact Hj | lia].
Qed.

Section DefaultTaps.

Variable B : backend.
Variables style_img content_img : tensor.






End DefaultTaps.


(* ================================================================== *)
(** * The properties at concrete inputs *)

(** C1 as stated fails: with an infinite style weight the gradient of a
    pixel at 0 is NaN, a descent step writes NaN into the image, the clamp
    leaves it, and the run of budget 3 returns an image of NaN pixels. *)
Lemma returned_image_may_hold_nan :
  exists w,
    run_style_transfer weighted_backend descent_optimizer small_cnn
      no_tensor no_tensor small_feature small_feature small_image
      (Some 3%Z) (Some PInf) None (Some ["conv_2"]) (Some ["conv_1"]) 10
    = Some (Returns w) /\
    data (input_img w) = [NaN; NaN] /\
    ~ pixels_in_unit_interval (input_img w).
Proof.
  eexists. split; [vm_compute; reflexivity|]. split; [reflexivity|].
  intros H. inversion H as [|x l [H0 _] _]. exact H0.
Qed.

(** C1 as amended, at a run of budget 3 whose optimizer throws every pixel
    out of the unit interval after each evaluation. *)
Lemma synthesized_image_is_clamped_or_nan_witness :
  exists w,
    run_style_transfer unit_backend shift_optimizer small_cnn
      no_tensor no_tensor small_feature small_feature small_image
      (Some 3%Z) None None (Some ["conv_2"]) (Some ["conv_1"]) 10
    = Some (Returns w) /\
    (3 < run w)%Z /\
    pixels_clamped (input_img w) /\
    pixels_in_unit_interval (input_img w).
Proof.
  eexists. split; [vm_compute; reflexivity|].
  match goal with
  | |- (_ < run ?w)%Z /\ _ =>
      destruct (proj1 (proj2 (synthesized_image_is_clamped_or_nan
                                unit_backend shift_optimizer small_cnn
                                no_tensor no_tensor small_feature small_feature
                                small_image (Some 3%Z) None None
                                (Some ["conv_2"]) (Some ["conv_1"]))) 10 w
                 ltac:(vm_compute; reflexivity)) as (H1 & H2 & H3)
  end.
  split; [exact H1|]. split; [exact H2|].
  apply H3. repeat constructor.
Defined.

(** C2 as stated fails: a configuration whose depths name no layer returns
    a pipeline without any tap, of one stage. *)
Lemma untapped_pipeline_has_no_last_tap :
  exists m,
    get_style_model_and_losses unit_backend small_cnn no_tensor no_tensor
      small_feature small_feature (Some ["conv_7"]) (Some ["conv_9"])
    = Returns m /\
    List.length (model m) = 1 /\
    last_tap_index (model m) = None /\
    ~ (exists j, last_tap_index (model m) = Some j /\
                 List.length (model m) = j + 1).
Proof.
  eexists. split; [vm_compute; reflexivity|]. split; [reflexivity|].
  split; [reflexivity|]. intros [j [Hj _]]. discriminate Hj.
Qed.

(** C2 as amended, at the default taps on a backbone of two blocks. *)
Lemma truncated_pipeline_ends_with_last_tap_witness :
  exists m,
    get_style_model_and_losses unit_backend small_cnn no_tensor no_tensor
      small_feature small_feature None None = Returns m /\
    last_tap_index (model m) = Some 6 /\
    List.length (model m) = 6 + 1.
Proof.
  eexists. split; [vm_compute; reflexivity|]. split; [reflexivity|].
  match goal with
  | |- List.length (model ?m) = _ =>
      exact (truncated_pipeline_ends_with_last_tap unit_backend small_cnn
               no_tensor no_tensor small_feature small_feature None None m
               ltac:(vm_compute; reflexivity))
  end.
Defined.



(** C4 at a module that has not yet seen an input. *)
Lemma loss_forward_is_identity_changing_only_loss_witness :
  nth_error [mkLoss small_feature None] 0 = Some (mkLoss small_feature None) /\
  (exists st',
     ContentLoss_forward unit_backend [mkLoss small_feature None] 0 small_feature
     = Returns (small_feature, st') /\
     only_loss_of 0 [mkLoss small_feature None] st') /\
  (exists st',
     StyleLoss_forward unit_backend [mkLoss small_feature None] 0 small_feature
     = Returns (small_feature, st') /\
     only_loss_of 0 [mkLoss small_feature None] st').
Proof.
  split; [reflexivity|].
  pose proof (loss_forward_is_identity_changing_only_loss unit_backend
                [mkLoss small_feature None] 0 (mkLoss small_feature None)
                small_feature eq_refl) as [Hc Hs].
  split; eexists; (split; [reflexivity|]).
  - exact (proj1 (proj2 Hc)).
  - exact (proj1 (proj2 Hs)).
Defined.

(** C5 as stated fails: a max-pooling layer of kernel size 3, stride 2 and
    padding 1 is replaced by the average-pooling layer of kernel size 2,
    stride 2 and padding 0. *)
Lemma max_pool_geometry_is_not_kept :
  exists m,
    get_style_model_and_losses unit_backend wide_pool_cnn no_tensor no_tensor
      small_feature small_feature (Some ["pool_1"]) (Some []) = Returns m /\
    In ("pool_1", Backbone (AvgPool2d 2 2 0 false)) (model m) /\
    ~ same_pooling_geometry (MaxPool2d 3 2 1 false) (AvgPool2d 2 2 0 false).
Proof.
  eexists. split; [vm_compute; reflexivity|]. split.
  - cbn. auto.
  - cbn. intros (H & _). discriminate H.
Qed.

(** C5 as amended, on that backbone. *)
Lemma max_pool_replaced_by_fixed_average_pool_witness :
  exists m,
    get_style_model_and_losses unit_backend wide_pool_cnn no_tensor no_tensor
      small_feature small_feature (Some ["pool_1"]) (Some []) = Returns m /\
    pooling_replaced (model m).
Proof.
  eexists. split; [vm_compute; reflexivity|].
  apply (proj2 (proj2 (max_pool_replaced_by_fixed_average_pool unit_backend
                         wide_pool_cnn no_tensor no_tensor small_feature
                         small_feature (Some ["pool_1"]) (Some [])))).
  vm_compute; reflexivity.
Defined.

(** C6 as stated fails: with an infinite style weight the total loss of
    the first evaluation is not finite, the evaluation returns it, and the
    run of budget 12 goes through its 13 evaluations and returns, having
    printed an infinite style score at step 10. *)
Lemma non_finite_loss_is_not_detected :
  exists l w1 w,
    closure unit_backend (model tapped_assembly) (style_refs tapped_assembly)
      (content_refs tapped_assembly) PInf (Fin 1%Qc) start_state
    = Returns (l, w1) /\
    non_finite l /\
    run_style_transfer unit_backend shift_optimizer small_cnn
      no_tensor no_tensor small_feature small_feature small_image
      (Some 12%Z) (Some PInf) None (Some ["conv_2"]) (Some ["conv_1"]) 20
    = Some (Returns w) /\
    run w = 13%Z /\
    map (fun sc => is_finite (fst sc)) (printed_scores (out w)) = [false].
Proof.
  eexists. eexists. eexists.
  split; [vm_compute; reflexivity|]. split; [vm_compute; reflexivity|].
  split; [vm_compute; reflexivity|]. split; vm_compute; reflexivity.
Qed.

(** C6 as amended, at that first evaluation. *)
Lemma non_finite_loss_is_returned_to_the_optimizer_witness :
  exists l w1,
    closure unit_backend (model tapped_assembly) (style_refs tapped_assembly)
      (content_refs tapped_assembly) PInf (Fin 1%Qc) start_state
    = Returns (l, w1) /\
    non_finite l /\ run w1 = 1%Z.
Proof.
  eexists. eexists. split.
  - eapply proj1.
    eapply (non_finite_loss_is_returned_to_the_optimizer unit_backend
              (model tapped_assembly) (style_refs tapped_assembly)
              (content_refs tapped_assembly) PInf (Fin 1%Qc) start_state);
      vm_compute; reflexivity.
  - split; vm_compute; reflexivity.
Defined.

(** C7 at two absent depths beside a present one. *)
Lemma absent_depths_are_a_silent_no_op_witness :
  (forall name, In name ["conv_7"; "pool_9"] -> never_occurs small_cnn name) /\
  get_style_model_and_losses unit_backend small_cnn no_tensor no_tensor
    small_feature small_feature
    (Some (["conv_7"; "pool_9"] ++ ["conv_2"])) (Some ["conv_1"])
  = get_style_model_and_losses unit_backend small_cnn no_tensor no_tensor
      small_feature small_feature (Some ["conv_2"]) (Some ["conv_1"]) /\
  exists m,
    get_style_model_and_losses unit_backend small_cnn no_tensor no_tensor
      small_feature small_feature
      (Some ["conv_7"; "pool_9"]) (Some ["conv_7"; "pool_9"]) = Returns m /\
    content_refs m = [] /\ style_refs m = [].
Proof.
  assert (Habsent : forall name, In name ["conv_7"; "pool_9"] ->
                                 never_occurs small_cnn name).
  { intros name [<- | [<- | []]]; unfold never_occurs; vm_compute;
      intuition discriminate. }
  split; [exact Habsent|].
  pose proof (absent_depths_are_a_silent_no_op unit_backend small_cnn
                no_tensor no_tensor small_feature small_feature
                ["conv_7"; "pool_9"] ["conv_2"] ["conv_1"] Habsent) as H.
  cbv zeta in H. destruct H as (H1 & _ & _ & _ & H5).
  split; [exact H1|]. apply H5. reflexivity.
Defined.

(** C8 at a run of budget 52: 53 evaluations, two snapshots, five
    progress reports. *)
Lemma snapshot_and_progress_cadence_witness :
  exists w,
    run_style_transfer unit_backend shift_optimizer small_cnn
      no_tensor no_tensor small_feature small_feature small_image
      (Some 52%Z) None None (Some ["conv_2"]) (Some ["conv_1"]) 60
    = Some (Returns w) /\
    run w = 53%Z /\
    List.length (saved_paths (out w)) = 2 /\
    saved_paths (out w) = ["./images/step_25.jpg"; "./images/step_50.jpg"] /\
    progress_steps (out w) = [10; 20; 30; 40; 50]%Z /\
    List.length (printed_scores (out w)) = 5.
Proof.
  eexists. split; [vm_compute; reflexivity|]. split; [vm_compute; reflexivity|].
  match goal with
  | |- List.length (saved_paths (out ?w)) = _ /\ _ =>
      exact (snapshot_and_progress_cadence unit_backend shift_optimizer small_cnn
               no_tensor no_tensor small_feature small_feature small_image
               (Some 52%Z) None None (Some ["conv_2"]) (Some ["conv_1"]) 60 w
               ltac:(vm_compute; reflexivity))
  end.
Defined.

(** C9 at two depths that name no layer of a backbone of two blocks. *)
Lemma no_matching_tap_leaves_normalization_alone_witness :
  forallb recognised small_cnn = true /\
  never_requested small_cnn ["conv_7"] /\
  never_requested small_cnn ["conv_9"] /\
  get_style_model_and_losses unit_backend small_cnn no_tensor no_tensor
    small_feature small_feature (Some ["conv_7"]) (Some ["conv_9"])
  = Returns (mkAssembled
               [("0", Normalization (view_channels no_tensor)
                                    (view_channels no_tensor))]
               [] [] []).
Proof.
  assert (H7 : never_requested small_cnn ["conv_7"]).
  { intros name H. vm_compute in H. decompose [or] H; try contradiction;
      subst name; reflexivity. }
  assert (H9 : never_requested small_cnn ["conv_9"]).
  { intros name H. vm_compute in H. decompose [or] H; try contradiction;
      subst name; reflexivity. }
  split; [reflexivity|]. split; [exact H7|]. split; [exact H9|].
  exact (proj1 (no_matching_tap_leaves_normalization_alone unit_backend small_cnn
                  no_tensor no_tensor small_feature small_feature
                  (Some ["conv_7"]) (Some ["conv_9"]) eq_refl H7 H9)).
Defined.


(* ================================================================== *)
(** * Further properties *)

(** ** Cropping *)

Lemma half_bounds (len : nat) : 2 * (len / 2) <= len < 2 * (len / 2) + 2.
Proof.
  pose proof (Nat.div_mod_eq len 2) as H.
  pose proof (Nat.mod_upper_bound len 2 ltac:(lia)) as Hm. lia.
Qed.

(** An integer below 2^53 is a double. *)
Lemma nearest_double_exact (n : Z) :
  (Z.abs n < 2 ^ 53)%Z -> nearest_double n = n.
Proof.
  intros H. unfold nearest_double. apply Z.ltb_lt in H. now rewrite H.
Qed.

Lemma half_length_exact (len : nat) :
  (Z.of_nat len < 2 ^ 53)%Z ->
  half_length len = Returns (Z.of_nat (len / 2)).
Proof.
  intros H.
  assert (Hp : (2 ^ 53 < 2 ^ 1024)%Z) by (apply Z.pow_lt_mono_r; lia).
  assert (Ha : (Z.abs (Z.of_nat len) < 2 ^ 53)%Z) by (rewrite Z.abs_eq; lia).
  unfold half_length, float_of_int. rewrite (nearest_double_exact _ Ha).
  assert (Hb : (Z.abs (Z.of_nat len) <? 2 ^ 1024)%Z = true)
    by (apply Z.ltb_lt; lia).
  rewrite Hb. cbn [bind]. f_equal.
  rewrite Z.quot_div_nonneg by lia.
  change 2%Z with (Z.of_nat 2). now rewrite <- Nat2Z.inj_div.
Qed.

Lemma half_size_exact (size : Z) :
  (Z.abs size < 2 ^ 53)%Z -> half_size size = Returns (Z.quot size 2).
Proof.
  intros H.
  assert (Hp : (2 ^ 53 < 2 ^ 1025)%Z) by (apply Z.pow_lt_mono_r; lia).
  unfold half_size. rewrite (nearest_double_exact _ H).
  assert (Hb : (Z.abs size <? 2 ^ 1025)%Z = true) by (apply Z.ltb_lt; lia).
  now rewrite Hb.
Qed.

(** X1.  The window [center_crop] takes of a dimension of length [len]
    below 2^53 (so that [int(len / 2.0)] is [c = len / 2] exactly), with
    [h = int(size/2)], which is the quotient truncated toward zero when
    [size] is below 2^53 too: nothing when [h <= 0]; the [2h] indices from
    [c - h] when [0 < h <= c] (the centred window); the last [h - c]
    indices, from [len + c - h] on, when [c < h < len + c] (the negative
    start of the slice counts from the end, so the window is not centred
    and not the whole dimension); and the whole dimension when
    [len + c <= h]. *)
Theorem crop_window_regimes (len : nat) (size h : Z)
    (Hlen : (Z.of_nat len < 2 ^ 53)%Z)
    (Hsize : half_size size = Returns h) :
  let c := len / 2 in
  half_length len = Returns (Z.of_nat c) /\
  ((Z.abs size < 2 ^ 53)%Z -> h = Z.quot size 2) /\
  ((h <= 0)%Z -> snd (crop_window len (Z.of_nat c) h) = 0) /\
  ((0 < h <= Z.of_nat c)%Z ->
   crop_window len (Z.of_nat c) h = (c - Z.to_nat h, 2 * Z.to_nat h)) /\
  ((Z.of_nat c < h < Z.of_nat (len + c))%Z ->
   crop_window len (Z.of_nat c) h = (len + c - Z.to_nat h, Z.to_nat h - c)) /\
  ((Z.of_nat (len + c) <= h)%Z -> crop_window len (Z.of_nat c) h = (0, len)).
Proof.
  cbn zeta. pose proof (half_bounds len) as Hc.
  split; [now apply half_length_exact|].
  split.
  { intros Hs. rewrite (half_size_exact size Hs) in Hsize.
    now injection Hsize as <-. }
  clear Hsize Hlen.
  unfold crop_window, slice_range, slice_bound.
  set (c := len / 2) in *.
  repeat split; intros Hh; cbn [snd fst];
    destruct (Z.of_nat c - h <? 0)%Z eqn:E1;
    destruct (Z.of_nat c + h <? 0)%Z eqn:E2;
    try apply Z.ltb_lt in E1; try apply Z.ltb_ge in E1;
    try apply Z.ltb_lt in E2; try apply Z.ltb_ge in E2;
    try (f_equal; lia); lia.
Qed.

Lemma crop_window_regimes_witness :
  (half_size 512 = Returns 256%Z) /\
  crop_window 512 256 256 = (0, 512) /\
  crop_window 600 300 256 = (44, 512) /\
  crop_window 300 150 256 = (194, 106) /\
  crop_window 100 50 256 = (0, 100).
Proof.
  assert (Hh : half_size 512 = Returns 256%Z) by (vm_compute; reflexivity).
  assert (B : forall len, len <= 600 -> (Z.of_nat len < 2 ^ 53)%Z).
  { intros len Hl. apply Z.le_lt_trans with (m := 600%Z); [lia|].
    vm_compute. reflexivity. }
  pose proof (crop_window_regimes 512 512 256 (B 512 ltac:(lia)) Hh)
    as (_ & _ & _ & H1 & _ & _).
  pose proof (crop_window_regimes 600 512 256 (B 600 ltac:(lia)) Hh)
    as (_ & _ & _ & H2 & _ & _).
  pose proof (crop_window_regimes 300 512 256 (B 300 ltac:(lia)) Hh)
    as (_ & _ & _ & _ & H3 & _).
  pose proof (crop_window_regimes 100 512 256 (B 100 ltac:(lia)) Hh)
    as (_ & _ & _ & _ & _ & H4).
  split; [exact Hh|]. split; [|split; [|split]].
  - apply H1. vm_compute. split; [reflexivity | discriminate].
  - apply H2. vm_compute. split; [reflexivity | discriminate].
  - apply H3. vm_compute. split; reflexivity.
  - apply H4. vm_compute. discriminate.
Defined.

Lemma length_flat_rows (row : nat -> list fnum) (k : nat) :
  forall n s,
    (forall x, List.length (row x) = k) ->
    List.length (flat_map row (seq s n)) = n * k.
Proof.
  induction n as [|n IH]; intros s Hlen; [reflexivity|].
  cbn [seq flat_map]. rewrite length_app, Hlen, IH by exact Hlen. lia.
Qed.

Lemma index_bound (a b i j : nat) : i < a -> j < b -> i * b + j < a * b.
Proof. nia. Qed.

Lemma crop_window_centred (len : nat) (h : Z) :
  (0 < h <= Z.of_nat (len / 2))%Z ->
  crop_window len (Z.of_nat (len / 2)) h
  = (len / 2 - Z.to_nat h, 2 * Z.to_nat h).
Proof.
  intros Hh. pose proof (half_bounds len) as Hc.
  unfold crop_window, slice_range, slice_bound.
  destruct (Z.of_nat (len / 2) - h <? 0)%Z eqn:E1;
    destruct (Z.of_nat (len / 2) + h <? 0)%Z eqn:E2;
    try apply Z.ltb_lt in E1; try apply Z.ltb_ge in E1;
    try apply Z.ltb_lt in E2; try apply Z.ltb_ge in E2;
    try (f_equal; lia); lia.
Qed.

(** The entries of a window, in terms of those of the image. *)
Lemma window_data_entries (a b H W : nat) (rest : list nat) (d : list fnum)
    (rows cols : nat * nat) :
  let R := numel rest in
  List.length (window_data a b H W rest d rows cols)
  = numel (a :: b :: snd rows :: snd cols :: rest) /\
  forall n ch y x r,
    n < a -> ch < b -> y < snd rows -> x < snd cols -> r < R ->
    entry5 b (snd rows) (snd cols) R (window_data a b H W rest d rows cols)
           n ch y x r
    = entry5 b H W R d n ch (fst rows + y) (fst cols + x) r.
Proof.
  intros R. unfold window_data. fold R.
  set (f4 := fun n ch y x =>
               map (fun r => entry5 b H W R d n ch
                                    (fst rows + y) (fst cols + x) r) (seq 0 R)).
  set (f3 := fun n ch y => flat_map (f4 n ch y) (seq 0 (snd cols))).
  set (f2 := fun n ch => flat_map (f3 n ch) (seq 0 (snd rows))).
  set (f1 := fun n => flat_map (f2 n) (seq 0 b)).
  assert (L4 : forall n ch y x, List.length (f4 n ch y x) = R)
    by (intros; unfold f4; now rewrite length_map, length_seq).
  assert (L3 : forall n ch y, List.length (f3 n ch y) = snd cols * R)
    by (intros; unfold f3; apply length_flat_rows; apply L4).
  assert (L2 : forall n ch, List.length (f2 n ch) = snd rows * (snd cols * R))
    by (intros; unfold f2; apply length_flat_rows; apply L3).
  assert (L1 : forall n, List.length (f1 n) = b * (snd rows * (snd cols * R)))
    by (intros; unfold f1; apply length_flat_rows; apply L2).
  split.
  - cbn [numel fold_right].
    change (flat_map _ (seq 0 a)) with (flat_map f1 (seq 0 a)).
    rewrite (length_flat_rows f1 _ a 0 L1). fold (numel rest). fold R. lia.
  - intros n ch y x r Hn Hch Hy Hx Hr.
    change (flat_map _ (seq 0 a)) with (flat_map f1 (seq 0 a)).
    unfold entry5 at 1.
    replace ((((n * b + ch) * snd rows + y) * snd cols + x) * R + r)
      with (n * (b * (snd rows * (snd cols * R)))
            + (ch * (snd rows * (snd cols * R))
               + (y * (snd cols * R) + (x * R + r)))) by ring.
    pose proof (index_bound _ _ _ _ Hx Hr) as B4.
    pose proof (index_bound _ _ _ _ Hy B4) as B3.
    pose proof (index_bound _ _ _ _ Hch B3) as B2.
    rewrite (nth_flat_rows f1 _ (Fin 0%Qc) a 0 n _ L1 Hn B2).
    cbn [Nat.add]. unfold f1.
    rewrite (nth_flat_rows (f2 n) _ (Fin 0%Qc) b 0 ch _ (L2 n) Hch B3).
    cbn [Nat.add]. unfold f2.
    rewrite (nth_flat_rows (f3 n ch) _ (Fin 0%Qc) (snd rows) 0 y _ (L3 n ch) Hy B4).
    cbn [Nat.add]. unfold f3.
    rewrite (nth_flat_rows (f4 n ch y) _ (Fin 0%Qc) (snd cols) 0 x _ (L4 n ch y) Hx Hr).
    cbn [Nat.add]. unfold f4.
    rewrite (nth_indep _ _ (entry5 b H W R d n ch
                              (fst rows + y) (fst cols + x) 0))
      by (now rewrite length_map, length_seq).
    rewrite (map_nth (fun r => entry5 b H W R d n ch
                                      (fst rows + y) (fst cols + x) r)).
    now rewrite seq_nth.
Qed.

(** What [center_crop] returns on a tensor of at least four dimensions
    when its three conversions to a float go through, in terms of the two
    windows. *)
Lemma center_crop_entries (img : tensor) (size : option Z)
    (a b H W : nat) (rest : list nat) (xc yc h : Z) :
  shape img = a :: b :: H :: W :: rest ->
  half_length H = Returns xc ->
  half_length W = Returns yc ->
  half_size (or_default size center_crop_default_size) = Returns h ->
  let rows := crop_window H xc h in
  let cols := crop_window W yc h in
  let R := numel rest in
  exists out,
    center_crop img size = Returns out /\
    shape out = a :: b :: snd rows :: snd cols :: rest /\
    strides out = strides img /\
    wf_tensor out /\
    forall n ch y x r,
      n < a -> ch < b -> y < snd rows -> x < snd cols -> r < R ->
      entry5 b (snd rows) (snd cols) R (data out) n ch y x r
      = entry5 b H W R (data img) n ch (fst rows + y) (fst cols + x) r.
Proof.
  intros Hs Hxc Hyc Hh rows cols R.
  destruct (window_data_entries a b H W rest (data img) rows cols)
    as [Hlen Hent].
  unfold center_crop. rewrite Hs, Hxc. cbn [bind].
  rewrite Hyc. cbn [bind]. rewrite Hh. cbn [bind]. fold rows cols.
  eexists. split; [reflexivity|]. cbn [shape strides data].
  split; [reflexivity|]. split; [reflexivity|]. split.
  - unfold wf_tensor. cbn [shape data]. exact Hlen.
  - exact Hent.
Qed.

Lemma half_length_raises (len : nat) (e : exn) :
  half_length len = Raises e -> e = OverflowError.
Proof.
  unfold half_length, float_of_int.
  destruct (Z.abs (nearest_double (Z.of_nat len)) <? 2 ^ 1024)%Z;
    cbn [bind]; intros H; [discriminate | now injection H as <-].
Qed.

Lemma half_size_raises (size : Z) (e : exn) :
  half_size size = Raises e -> e = OverflowError.
Proof.
  unfold half_size.
  destruct (Z.abs (nearest_double size) <? 2 ^ 1025)%Z;
    intros H; [discriminate | now injection H as <-].
Qed.

(** X2.  [center_crop] raises nothing but [IndexError] and
    [OverflowError]: [IndexError] on every tensor of fewer than three
    dimensions and on no tensor of four or more, [OverflowError] on a
    tensor of four or more dimensions when a dimension or [size / 2] is too
    large for a float.  When the three conversions go through, it returns
    a view of the tensor: the first two and the trailing dimensions are
    kept with the strides, dimensions 2 and 3 are cut to their windows, the
    result has as many entries as its shape says, and its entry at
    [(n, ch, y, x, r)] is the entry of the image at row [y] and column [x]
    of the windows (no padding, no rescaling). *)
Theorem center_crop_returns_the_windows (img : tensor) (size : option Z) :
  let s := or_default size center_crop_default_size in
  (forall e, center_crop img size = Raises e ->
             e = IndexError \/ e = OverflowError) /\
  (List.length (shape img) < 3 -> center_crop img size = Raises IndexError) /\
  (center_crop img size = Raises IndexError -> List.length (shape img) < 4) /\
  (forall a b H W rest,
      shape img = a :: b :: H :: W :: rest ->
      (half_length H = Raises OverflowError \/
       half_length W = Raises OverflowError \/
       half_size s = Raises OverflowError) ->
      center_crop img size = Raises OverflowError) /\
  forall a b H W rest xc yc h,
    shape img = a :: b :: H :: W :: rest ->
    half_length H = Returns xc ->
    half_length W = Returns yc ->
    half_size s = Returns h ->
    let rows := crop_window H xc h in
    let cols := crop_window W yc h in
    let R := numel rest in
    exists out,
      center_crop img size = Returns out /\
      shape out = a :: b :: snd rows :: snd cols :: rest /\
      strides out = strides img /\
      wf_tensor out /\
      forall n ch y x r,
        n < a -> ch < b -> y < snd rows -> x < snd cols -> r < R ->
        entry5 b (snd rows) (snd cols) R (data out) n ch y x r
        = entry5 b H W R (data img) n ch (fst rows + y) (fst cols + x) r.
Proof.
  cbn zeta. split; [|split; [|split; [|split]]].
  - intros e. unfold center_crop.
    destruct (shape img) as [|a [|b [|H [|W rest]]]];
      try (intros He; injection He as <-; now left).
    + destruct (half_length H) as [xc|e1] eqn:E1; cbn [bind]; intros He.
      * injection He as <-. now left.
      * injection He as <-. right. now apply (half_length_raises H).
    + destruct (half_length H) as [xc|e1] eqn:E1; cbn [bind].
      * destruct (half_length W) as [yc|e2] eqn:E2; cbn [bind].
        -- destruct (half_size _) as [h|e3] eqn:E3; cbn [bind]; intros He;
             [discriminate|].
           injection He as <-. right. now apply half_size_raises in E3.
        -- intros He. injection He as <-. right.
           now apply (half_length_raises W).
      * intros He. injection He as <-. right.
        now apply (half_length_raises H).
  - unfold center_crop.
    destruct (shape img) as [|a [|b [|H rest]]]; cbn [List.length];
      intros Hl; try reflexivity; lia.
  - unfold center_crop.
    destruct (shape img) as [|a [|b [|H [|W rest]]]]; cbn [List.length];
      intros He; try lia.
    destruct (half_length H) as [xc|e1] eqn:E1; cbn [bind] in He.
    + destruct (half_length W) as [yc|e2] eqn:E2; cbn [bind] in He.
      * destruct (half_size _) as [h|e3] eqn:E3; cbn [bind] in He;
          [discriminate|].
        injection He as ->. apply half_size_raises in E3. discriminate.
      * injection He as ->. apply half_length_raises in E2. discriminate.
    + injection He as ->. apply half_length_raises in E1. discriminate.
  - intros a b H W rest Hs Hov. unfold center_crop. rewrite Hs.
    destruct (half_length H) as [xc|e1] eqn:E1; cbn [bind].
    + destruct (half_length W) as [yc|e2] eqn:E2; cbn [bind].
      * destruct Hov as [Hov | [Hov | Hov]]; try discriminate.
        rewrite Hov. reflexivity.
      * apply half_length_raises in E2. now subst e2.
    + apply half_length_raises in E1. now subst e1.
  - intros a b H W rest xc yc h Hs Hxc Hyc Hh.
    now apply center_crop_entries.
Qed.

Lemma center_crop_returns_the_windows_witness :
  center_crop no_tensor None = Raises IndexError /\
  center_crop (tensor_of [1; 1; 3; 4] [1; 2; 3; 4; 5; 6; 7; 8; 9; 10; 11; 12]%Z)
              (Some (10 ^ 400)%Z) = Raises OverflowError.
Proof.
  split.
  - apply (proj1 (proj2 (center_crop_returns_the_windows no_tensor None))).
    cbn. lia.
  - apply (proj1 (proj2 (proj2 (proj2
             (center_crop_returns_the_windows
                (tensor_of [1; 1; 3; 4] [1; 2; 3; 4; 5; 6; 7; 8; 9; 10; 11; 12]%Z)
                (Some (10 ^ 400)%Z))))) 1 1 3 4 [] eq_refl).
    right. right. vm_compute. reflexivity.
Defined.

(** X3.  On an image whose height and width are both at least [size] (and
    below 2^53, so that a float holds them), for an even positive [size]
    (the default 512 is one), [center_crop] returns a [size] by [size]
    image: the window of rows [H/2 - size/2 ...] and columns
    [W/2 - size/2 ...], which lies inside the image. *)
Theorem center_crop_of_a_large_image (img : tensor) (size : option Z)
    (a b H W : nat) (rest : list nat) (k : nat)
    (Hshape : shape img = a :: b :: H :: W :: rest)
    (Hsize : or_default size center_crop_default_size = (2 * Z.of_nat k)%Z)
    (Hk : 0 < k)
    (HH : 2 * k <= H) (HW : 2 * k <= W)
    (HH53 : (Z.of_nat H < 2 ^ 53)%Z) (HW53 : (Z.of_nat W < 2 ^ 53)%Z) :
  exists out,
    center_crop img size = Returns out /\
    shape out = a :: b :: 2 * k :: 2 * k :: rest /\
    H / 2 - k + 2 * k <= H /\ W / 2 - k + 2 * k <= W /\
    forall n ch y x r,
      n < a -> ch < b -> y < 2 * k -> x < 2 * k -> r < numel rest ->
      entry5 b (2 * k) (2 * k) (numel rest) (data out) n ch y x r
      = entry5 b H W (numel rest) (data img) n ch
               (H / 2 - k + y) (W / 2 - k + x) r.
Proof.
  assert (Hh : half_size (or_default size center_crop_default_size)
               = Returns (Z.of_nat k)).
  { rewrite Hsize, half_size_exact by (rewrite Z.abs_eq; lia).
    f_equal. rewrite Z.mul_comm. apply Z.quot_mul. lia. }
  destruct (center_crop_entries img size a b H W rest _ _ _ Hshape
              (half_length_exact H HH53) (half_length_exact W HW53) Hh)
    as (out & Hout & Hs & _ & _ & He).
  cbn zeta in Hs, He.
  pose proof (half_bounds H) as BH. pose proof (half_bounds W) as BW.
  rewrite (crop_window_centred H), (crop_window_centred W) in Hs, He by lia.
  rewrite Nat2Z.id in Hs, He. cbn [fst snd] in Hs, He.
  exists out. repeat split; try assumption; lia.
Qed.

Lemma center_crop_of_a_large_image_witness :
  exists out,
    center_crop (tensor_of [1; 1; 3; 4] [1; 2; 3; 4; 5; 6; 7; 8; 9; 10; 11; 12]%Z)
                (Some 2%Z) = Returns out /\
    shape out = [1; 1; 2; 2].
Proof.
  destruct (center_crop_of_a_large_image
              (tensor_of [1; 1; 3; 4] [1; 2; 3; 4; 5; 6; 7; 8; 9; 10; 11; 12]%Z)
              (Some 2%Z) 1 1 3 4 [] 1 eq_refl eq_refl)
    as (out & H1 & H2 & _);
    [lia | lia | lia | vm_compute; reflexivity | vm_compute; reflexivity |].
  exists out. split; assumption.
Defined.

(* ------------------------------------------------------------------ *)
(** ** More on the Gram matrix *)

Lemma Qcsum_scale (c : Qc) {A : Type} (f : A -> Qc) (l : list A) :
  Qcsum (map (fun x => c * f x)%Qc l) = (c * Qcsum (map f l))%Qc.
Proof.
  unfold Qcsum. induction l as [|x l IH]; cbn [map fold_right].
  - ring.
  - rewrite IH. ring.
Qed.

Lemma Qcsum_plus {A : Type} (f g : A -> Qc) (l : list A) :
  Qcsum (map (fun x => f x + g x)%Qc l)
  = (Qcsum (map f l) + Qcsum (map g l))%Qc.
Proof.
  unfold Qcsum. induction l as [|x l IH]; cbn [map fold_right].
  - ring.
  - rewrite IH. ring.
Qed.

Lemma Qcsum_zero {A : Type} (l : list A) :
  Qcsum (map (fun _ => 0%Qc) l) = 0%Qc.
Proof.
  unfold Qcsum. induction l as [|x l IH]; cbn [map fold_right];
    [reflexivity|]. rewrite IH. ring.
Qed.

Lemma Qcsum_swap {A C : Type} (f : A -> C -> Qc) (l1 : list A) (l2 : list C) :
  Qcsum (map (fun i => Qcsum (map (fun j => f i j) l2)) l1)
  = Qcsum (map (fun j => Qcsum (map (fun i => f i j) l1)) l2).
Proof.
  induction l1 as [|i l1 IH].
  - cbn [map]. rewrite Qcsum_zero. reflexivity.
  - change (Qcsum (map (fun j => Qcsum (map (fun i0 => f i0 j) (i :: l1))) l2))
      with (Qcsum (map (fun j => f i j + Qcsum (map (fun i0 => f i0 j) l1))%Qc l2)).
    rewrite Qcsum_plus, <- IH. reflexivity.
Qed.

Lemma Qcsum_ext_in {A : Type} (f g : A -> Qc) (l : list A) :
  (forall x, In x l -> f x = g x) -> Qcsum (map f l) = Qcsum (map g l).
Proof.
  intros H. f_equal. now apply map_ext_in.
Qed.

Lemma Qcsum_nonneg {A : Type} (f : A -> Qc) (l : list A) :
  (forall x, In x l -> (0 <= f x)%Qc) -> (0 <= Qcsum (map f l))%Qc.
Proof.
  unfold Qcsum. induction l as [|x l IH]; intros H; cbn [map fold_right].
  - apply Qcle_refl.
  - replace 0%Qc with (0 + 0)%Qc by ring.
    apply Qcplus_le_compat; [apply H; now left|].
    apply IH. intros y Hy. apply H. now right.
Qed.

Lemma Qcsquare_nonneg (x : Qc) : (0 <= x * x)%Qc.
Proof.
  unfold Qcle. cbn [this Qcmult Q2Qc]. rewrite !Qred_correct.
  destruct (Qlt_le_dec (this x) 0) as [Hneg | Hpos].
  - setoid_replace (this x * this x)%Q with ((- this x) * (- this x))%Q by ring.
    apply Qmult_le_0_compat;
      (apply Qlt_le_weak; apply (proj1 (Qlt_minus_iff _ _)) in Hneg;
       now rewrite Qplus_0_l in Hneg).
  - now apply Qmult_le_0_compat.
Qed.

Lemma Qcinv_of_nat_nonneg (n : nat) : (0 <= / Qc_of_nat n)%Qc.
Proof.
  unfold Qcle, Qc_of_nat. cbn [this Qcinv Q2Qc]. rewrite !Qred_correct.
  apply Qinv_le_0_compat. unfold Qle. cbn. lia.
Qed.

Lemma Qcmult_nonneg (x y : Qc) : (0 <= x)%Qc -> (0 <= y)%Qc -> (0 <= x * y)%Qc.
Proof.
  unfold Qcle. cbn [this Qcmult Q2Qc]. rewrite !Qred_correct.
  apply Qmult_le_0_compat.
Qed.

(** The quadratic form of a matrix of inner products is a scaled sum of
    squares. *)
Lemma Qc_gram_quadratic_form (q : nat -> nat -> Qc) (v : nat -> Qc) (n k N : nat) :
  Qcsum (map (fun i =>
    Qcsum (map (fun j =>
      (v i * (Qcsum (map (fun l => q i l * q j l) (seq 0 k)) / Qc_of_nat N)
       * v j)%Qc) (seq 0 n))) (seq 0 n))
  = (/ Qc_of_nat N *
     Qcsum (map (fun l =>
              Qcsum (map (fun i => v i * q i l) (seq 0 n)) *
              Qcsum (map (fun i => v i * q i l) (seq 0 n)))
            (seq 0 k)))%Qc.
Proof.
  transitivity
    (Qcsum (map (fun i =>
       Qcsum (map (fun j =>
         (/ Qc_of_nat N *
          Qcsum (map (fun l => (v i * q i l) * (v j * q j l)) (seq 0 k))))
         (seq 0 n))) (seq 0 n)))%Qc.
  - apply Qcsum_ext_in. intros i _.
    apply Qcsum_ext_in. intros j _.
    rewrite (Qcsum_ext_in
               (fun l => (v i * q i l) * (v j * q j l))
               (fun l => (v i * v j) * (q i l * q j l))
               (seq 0 k))%Qc by (intros; ring).
    rewrite Qcsum_scale. unfold Qcdiv. ring.
  - transitivity
      (/ Qc_of_nat N *
       Qcsum (map (fun i =>
         Qcsum (map (fun j =>
           Qcsum (map (fun l => (v i * q i l) * (v j * q j l)) (seq 0 k)))
           (seq 0 n))) (seq 0 n)))%Qc.
    + rewrite <- Qcsum_scale. apply Qcsum_ext_in. intros i _.
      now rewrite Qcsum_scale.
    + f_equal.
      transitivity
        (Qcsum (map (fun i =>
           Qcsum (map (fun l =>
             Qcsum (map (fun j => (v i * q i l) * (v j * q j l)) (seq 0 n)))
             (seq 0 k))) (seq 0 n)))%Qc.
      * apply Qcsum_ext_in. intros i _. apply Qcsum_swap.
      * rewrite Qcsum_swap. apply Qcsum_ext_in. intros l _.
        rewrite <- Qcsum_scale.
        apply Qcsum_ext_in. intros i _.
        rewrite Qcsum_scale. ring.
Qed.

Lemma tabulate_length (rows cols : nat) (f : nat -> nat -> fnum) :
  List.length (tabulate rows cols f) = rows * cols.
Proof.
  unfold tabulate. apply length_flat_rows.
  intros x. now rewrite length_map, length_seq.
Qed.

(** *** Finite sums and products *)

Lemma fsum_Fin {A : Type} (g : A -> Qc) (l : list A) :
  fsum (map (fun x => Fin (g x)) l) = Fin (Qcsum (map g l)).
Proof.
  unfold fsum, Qcsum. induction l as [|x l IH]; cbn [map fold_right];
    [reflexivity|]. rewrite IH. reflexivity.
Qed.

Lemma fadd_finite (x y : fnum) (s : Qc) :
  fadd x y = Fin s -> is_finite x = true /\ is_finite y = true.
Proof.
  destruct x, y; cbn; intros H; try discriminate; auto.
Qed.

Lemma fsum_finite (l : list fnum) (s : Qc) :
  fsum l = Fin s -> Forall (fun x => is_finite x = true) l.
Proof.
  unfold fsum. revert s. induction l as [|x l IH]; intros s H; [constructor|].
  cbn [fold_right] in H. destruct (fadd_finite _ _ _ H) as [Hx Hl].
  constructor; [exact Hx|].
  destruct (fold_right fadd (Fin 0%Qc) l) as [s'| | |] eqn:E;
    try discriminate. now apply (IH s').
Qed.

Lemma fmul_square_finite (x : fnum) (s : Qc) :
  fmul x x = Fin s -> is_finite x = true.
Proof.
  destruct x; cbn; intros H; try discriminate; reflexivity.
Qed.

Lemma fdiv_count_finite (x : fnum) (N : nat) (s : Qc) :
  fdiv_count x N = Fin s -> is_finite x = true /\ 0 < N.
Proof.
  destruct x as [a| | |], N as [|N]; cbn; intros H; try discriminate.
  - destruct (a ?= 0)%Qc; discriminate.
  - split; [reflexivity | lia].
Qed.

Lemma finite_is_Fin (x : fnum) :
  is_finite x = true -> x = Fin (finite_value x).
Proof.
  destruct x; cbn; intros H; try discriminate; reflexivity.
Qed.

(** A finite diagonal entry of a Gram matrix: the normaliser is positive
    and the row of features behind it is finite. *)
Lemma gram_diagonal_finite (k N : nat) (F : list fnum) (i : nat) :
  is_finite (gram_entry k N F i i) = true ->
  0 < N /\ forall l, l < k -> entry k F i l = Fin (finite_value (entry k F i l)).
Proof.
  intros H. apply finite_is_Fin in H. unfold gram_entry in H.
  apply fdiv_count_finite in H. destruct H as [H HN]. split; [exact HN|].
  apply finite_is_Fin, fsum_finite in H. rewrite Forall_forall in H.
  intros l Hl. apply finite_is_Fin.
  assert (Hin : In (fmul (entry k F i l) (entry k F i l))
                   (map (fun l => fmul (entry k F i l) (entry k F i l)) (seq 0 k)))
    by (apply in_map_iff; exists l; split; [reflexivity | apply in_seq; lia]).
  specialize (H _ Hin). apply finite_is_Fin in H.
  now apply fmul_square_finite in H.
Qed.

(** An entry of a Gram matrix between two finite rows of features. *)
Lemma gram_entry_Fin (k N : nat) (F : list fnum) (i j : nat) :
  0 < N ->
  (forall l, l < k -> entry k F i l = Fin (finite_value (entry k F i l))) ->
  (forall l, l < k -> entry k F j l = Fin (finite_value (entry k F j l))) ->
  gram_entry k N F i j
  = Fin (Qcsum (map (fun l => finite_value (entry k F i l) *
                              finite_value (entry k F j l))%Qc (seq 0 k))
         / Qc_of_nat N)%Qc.
Proof.
  intros HN Hi Hj. unfold gram_entry.
  rewrite (map_ext_in _
             (fun l => Fin (finite_value (entry k F i l) *
                            finite_value (entry k F j l))%Qc)).
  - rewrite fsum_Fin. destruct N; [lia | reflexivity].
  - intros l Hl. apply in_seq in Hl.
    rewrite (Hi l), (Hj l) at 1 by lia. reflexivity.
Qed.

(** X4.  A Gram matrix whose entries are all finite (this excludes the
    Gram matrix of an input without spatial positions, which is NaN
    throughout) is positive semi-definite: its quadratic form [v^T G v] is
    non-negative for every vector [v] of finite numbers; in particular its
    diagonal entries are non-negative. *)
Theorem gram_matrix_positive_semidefinite
    (t G : tensor) (a b c d : nat)
    (Hshape : shape t = [a; b; c; d])
    (Hgram : gram_matrix t = Returns G)
    (Hfinite : finite_entries G) :
  (forall v : list Qc, fle (Fin 0%Qc) (quadratic_form (a * b) (data G) v)) /\
  (forall i, i < a * b -> fle (Fin 0%Qc) (entry (a * b) (data G) i i)).
Proof.
  assert (Hview : viewable a b c d (strides t) = true).
  { unfold gram_matrix in Hgram. rewrite Hshape in Hgram.
    destruct (viewable a b c d (strides t)); [reflexivity | discriminate]. }
  rewrite (gram_matrix_4d t a b c d Hshape Hview) in Hgram.
  injection Hgram as <-. unfold finite_entries in Hfinite.
  cbn [data fresh_tensor] in *.
  set (N := a * b * c * d) in *. set (n := a * b) in *. set (k := c * d) in *.
  set (F := data t) in *.
  assert (Hentry : forall i j, i < n -> j < n ->
            is_finite (gram_entry k N F i j) = true).
  { intros i j Hi Hj. rewrite Forall_forall in Hfinite.
    rewrite <- (entry_tabulate n n (gram_entry k N F) i j Hi Hj).
    apply Hfinite. unfold entry. apply nth_In.
    rewrite tabulate_length. now apply index_bound. }
  assert (Hrows : forall i, i < n ->
            0 < N /\
            forall l, l < k -> entry k F i l = Fin (finite_value (entry k F i l))).
  { intros i Hi. apply gram_diagonal_finite. now apply Hentry. }
  set (q := fun i l => finite_value (entry k F i l)).
  assert (Hg : forall i j, i < n -> j < n ->
            gram_entry k N F i j
            = Fin (Qcsum (map (fun l => q i l * q j l)%Qc (seq 0 k))
                   / Qc_of_nat N)%Qc).
  { intros i j Hi Hj. destruct (Hrows i Hi) as [HN Hi']. 
    destruct (Hrows j Hj) as [_ Hj']. now apply gram_entry_Fin. }
  split.
  - intros v. unfold quadratic_form.
    rewrite (map_ext_in _
      (fun i => Fin (Qcsum (map (fun j =>
         (nth i v 0 * (Qcsum (map (fun l => q i l * q j l) (seq 0 k))
                       / Qc_of_nat N) * nth j v 0)%Qc) (seq 0 n))))).
    + rewrite fsum_Fin.
      rewrite (Qc_gram_quadratic_form q (fun i => nth i v 0%Qc) n k N).
      cbn [fle].
      apply Qcmult_nonneg; [apply Qcinv_of_nat_nonneg|].
      apply Qcsum_nonneg. intros l _. apply Qcsquare_nonneg.
    + intros i Hi. apply in_seq in Hi.
      rewrite (map_ext_in _
        (fun j => Fin (nth i v 0 * (Qcsum (map (fun l => q i l * q j l) (seq 0 k))
                                    / Qc_of_nat N) * nth j v 0)%Qc)).
      * apply fsum_Fin.
      * intros j Hj. apply in_seq in Hj.
        rewrite entry_tabulate, Hg by lia. reflexivity.
  - intros i Hi. rewrite entry_tabulate, Hg by assumption.
    cbn [fle]. unfold Qcdiv.
    apply Qcmult_nonneg; [|apply Qcinv_of_nat_nonneg].
    apply Qcsum_nonneg. intros l _. apply Qcsquare_nonneg.
Qed.

Lemma gram_matrix_positive_semidefinite_witness :
  exists G,
    gram_matrix small_feature = Returns G /\
    finite_entries G /\
    fle (Fin 0%Qc)
        (quadratic_form 2 (data G) [Q2Qc (inject_Z 1); Q2Qc (inject_Z (-1))]).
Proof.
  assert (H : exists G, gram_matrix small_feature = Returns G /\ finite_entries G)
    by (eexists; split; [vm_compute; reflexivity | repeat constructor]).
  destruct H as (G & HG & Hf).
  exists G. split; [exact HG|]. split; [exact Hf|].
  apply (gram_matrix_positive_semidefinite small_feature G 1 2 1 2 eq_refl HG Hf).
Defined.

Lemma contiguous_viewable (a b c d : nat) :
  viewable a b c d (contiguous_strides [a; b; c; d]) = true.
Proof.
  unfold viewable, mergeable. cbn [contiguous_strides fold_right nth].
  destruct b as [|b]; [rewrite Nat.mul_0_r; reflexivity|].
  destruct d as [|d]; [rewrite Nat.mul_0_r; reflexivity|].
  apply orb_true_iff. right. apply andb_true_iff.
  split; apply orb_true_iff; right; apply Nat.eqb_eq;
    rewrite ?Nat.max_l by lia; lia.
Qed.

(** X5.  [gram_matrix] raises [ValueError] exactly on inputs that do not
    have four dimensions, and on an input of shape [a, b, c, d] the
    [RuntimeError] of [view] exactly when the strides do not let the first
    two and the last two dimensions be merged (a freshly made tensor lets
    them); it raises nothing else, and otherwise returns a fresh tensor of
    shape [a*b, a*b] holding [(a*b) * (a*b)] entries. *)
Theorem gram_matrix_shape_and_errors (t : tensor) :
  (gram_matrix t = Raises ValueError <-> List.length (shape t) <> 4) /\
  (forall e, gram_matrix t = Raises e ->
             e = ValueError \/ e = RuntimeError view_error) /\
  (forall a b c d,
      shape t = [a; b; c; d] ->
      (gram_matrix t = Raises (RuntimeError view_error) <->
       viewable a b c d (strides t) = false) /\
      (strides t = contiguous_strides (shape t) ->
       viewable a b c d (strides t) = true) /\
      (viewable a b c d (strides t) = true ->
       exists G, gram_matrix t = Returns G /\
                 shape G = [a * b; a * b] /\
                 strides G = contiguous_strides [a * b; a * b] /\
                 wf_tensor G)).
Proof.
  split; [|split].
  - unfold gram_matrix.
    destruct (shape t) as [|a [|b [|c [|d [|x rest]]]]]; cbn [List.length];
      split; intros H; try reflexivity; try lia; try discriminate.
    destruct (viewable a b c d (strides t)); discriminate.
  - intros e. unfold gram_matrix.
    destruct (shape t) as [|a [|b [|c [|d [|x rest]]]]]; intros H;
      try (injection H as <-; now left).
    destruct (viewable a b c d (strides t)); [discriminate|].
    injection H as <-. now right.
  - intros a b c d Hs. split; [|split].
    + unfold gram_matrix. rewrite Hs.
      destruct (viewable a b c d (strides t)); split; intros H;
        try reflexivity; discriminate.
    + intros Hc. rewrite Hc, Hs. apply contiguous_viewable.
    + intros Hv. eexists.
      split; [apply (gram_matrix_4d t a b c d Hs Hv)|].
      split; [reflexivity|]. split; [reflexivity|].
      unfold wf_tensor. cbn [shape data fresh_tensor numel fold_right].
      rewrite tabulate_length. lia.
Qed.

Lemma gram_matrix_shape_and_errors_witness :
  gram_matrix no_tensor = Raises ValueError /\
  gram_matrix transposed_feature = Raises (RuntimeError view_error) /\
  exists G, gram_matrix small_feature = Returns G /\ shape G = [2; 2].
Proof.
  split; [|split].
  - apply (proj1 (gram_matrix_shape_and_errors no_tensor)). cbn. lia.
  - apply (proj2 (proj2 (gram_matrix_shape_and_errors transposed_feature))
             1 1 2 2 eq_refl).
    reflexivity.
  - destruct (proj2 (proj2 (proj2 (proj2 (gram_matrix_shape_and_errors
                                            small_feature)) 1 2 1 2 eq_refl))
                eq_refl) as (G & HG & Hs & _).
    exists G. split; [exact HG | exact Hs].
Defined.

(** *** Scaling *)

Lemma Qccompare_mult (a b : Qc) :
  (a * b ?= 0)%Qc = sign_mul (a ?= 0)%Qc (b ?= 0)%Qc.
Proof.
  unfold Qccompare. destruct a as [[na da] Ha], b as [[nb db] Hb].
  cbn [this Qcmult Q2Qc].
  change (Qred (0#1)) with (0#1)%Q.
  rewrite Qred_correct.
  unfold Qcompare. cbn [Qnum Qden Qmult].
  rewrite !Z.mul_1_r. cbn [Z.mul].
  destruct na, nb; reflexivity.
Qed.

Ltac sign_cases :=
  repeat (unfold scale_inf;
          rewrite ?Qccompare_mult;
          repeat match goal with
                 | H : (_ ?= 0)%Qc = _ |- _ => rewrite H
                 end;
          cbn [fmul fadd fneg sign_mul];
          try match goal with
              | |- context [(?a ?= 0)%Qc] =>
                  is_var a; destruct (a ?= 0)%Qc eqn:?
              end).

Lemma fmul_scaled (k : Qc) (x y : fnum) :
  fmul (fmul (Fin k) x) (fmul (Fin k) y) = fmul (Fin (k * k)) (fmul x y).
Proof.
  destruct x as [p| | |], y as [q| | |]; cbn [fmul]; sign_cases;
    try reflexivity.
  f_equal. ring.
Qed.

Lemma fmul_fadd_distr (c : Qc) (u v : fnum) :
  fmul (Fin c) (fadd u v) = fadd (fmul (Fin c) u) (fmul (Fin c) v).
Proof.
  destruct u as [p| | |], v as [q| | |]; cbn [fmul fadd]; sign_cases;
    try reflexivity.
  f_equal. ring.
Qed.

Lemma fsum_scaled {A : Type} (c : Qc) (f : A -> fnum) (l : list A) :
  fsum (map (fun x => fmul (Fin c) (f x)) l) = fmul (Fin c) (fsum (map f l)).
Proof.
  unfold fsum. induction l as [|x l IH]; cbn [map fold_right].
  - cbn [fmul]. f_equal. ring.
  - rewrite IH. symmetry. apply fmul_fadd_distr.
Qed.

Lemma fdiv_count_scaled (c : Qc) (s : fnum) (N : nat) :
  fdiv_count (fmul (Fin c) s) N = fmul (Fin c) (fdiv_count s N).
Proof.
  destruct s as [p| | |], N as [|N]; cbn [fmul fdiv_count]; sign_cases;
    cbn [fdiv_count]; try reflexivity.
  f_equal. unfold Qcdiv. ring.
Qed.

Lemma entry_scaled (k : Qc) (cols : nat) (d : list fnum) (i j : nat) :
  entry cols (map (fmul (Fin k)) d) i j = fmul (Fin k) (entry cols d i j).
Proof.
  unfold entry.
  replace (Fin 0%Qc) with (fmul (Fin k) (Fin 0%Qc)) at 1
    by (cbn [fmul]; f_equal; ring).
  apply (map_nth (fmul (Fin k))).
Qed.

(** X6.  The Gram matrix is quadratic in its input: multiplying every
    entry of a 4-dimensional tensor (that [view] accepts) by a finite
    number [k] multiplies every entry of its Gram matrix by [k * k]. *)
Theorem gram_matrix_is_quadratic
    (t : tensor) (k : Qc) (a b c d : nat)
    (Hshape : shape t = [a; b; c; d])
    (Hview : viewable a b c d (strides t) = true) :
  exists G,
    gram_matrix t = Returns G /\
    gram_matrix (scale_tensor k t) = Returns (scale_tensor (k * k) G).
Proof.
  eexists. split; [apply (gram_matrix_4d t a b c d Hshape Hview)|].
  rewrite (gram_matrix_4d (scale_tensor k t) a b c d) by assumption.
  unfold scale_tensor, fresh_tensor. cbn [shape strides data]. f_equal. f_equal.
  rewrite map_tabulate. apply tabulate_ext. intros i j _ _.
  unfold gram_entry.
  rewrite (map_ext _
             (fun l => fmul (Fin (k * k))
                         (fmul (entry (c * d) (data t) i l)
                               (entry (c * d) (data t) j l))))
    by (intros l; rewrite !entry_scaled; apply fmul_scaled).
  rewrite fsum_scaled. apply fdiv_count_scaled.
Qed.

Lemma gram_matrix_is_quadratic_witness :
  exists G,
    gram_matrix small_feature = Returns G /\
    gram_matrix (scale_tensor (Q2Qc (inject_Z 3)) small_feature)
    = Returns (scale_tensor (Q2Qc (inject_Z 3) * Q2Qc (inject_Z 3)) G).
Proof.
  exact (gram_matrix_is_quadratic small_feature (Q2Qc (inject_Z 3))
           1 2 1 2 eq_refl eq_refl).
Defined.

(* ------------------------------------------------------------------ *)
(** ** More on the assembly *)

Lemma walk_app (B : backend) (style_img content_img : tensor)
    (cl sl : list string) (pre post : list layer) :
  forall s,
    walk B style_img content_img cl sl s (pre ++ post)
    = bind (walk B style_img content_img cl sl s pre)
           (fun s' => walk B style_img content_img cl sl s' post).
Proof.
  induction pre as [|l pre IH]; intros s; [reflexivity|].
  cbn [app walk].
  destruct (walk_layer B style_img content_img cl sl s l) as [s1|e];
    cbn [bind]; [apply IH | reflexivity].
Qed.

Lemma walk_returns_recognised (B : backend) (style_img content_img : tensor)
    (cl sl : list string) (cnn : list layer) :
  forall s s',
    walk B style_img content_img cl sl s cnn = Returns s' ->
    forallb recognised cnn = true.
Proof.
  induction cnn as [|l cnn IH]; intros s s' H; [reflexivity|].
  cbn in H. apply bind_returns in H. destruct H as [s1 [H1 H]].
  cbn [forallb]. rewrite (IH _ _ H), andb_true_r.
  apply walk_layer_returns in H1.
  destruct H1 as (i & name & l' & s2 & Hc & _).
  now apply classify_returns in Hc.
Qed.

Lemma classify_unrecognised (l : layer) (i : nat) :
  recognised l = false ->
  classify l i = Raises (RuntimeError ("Unrecognized layer: " ++ class_name l)%string).
Proof.
  destruct l; cbn; intros H; try discriminate; reflexivity.
Qed.

(** X7.  [get_style_model_and_losses] never skips a layer it does not
    know: it returns only if every layer of the backbone is a convolution,
    an activation, a max-pooling or a batch-normalization layer (an
    average-pooling layer in the backbone is rejected too); and when the
    walk over the layers before the first other layer goes through, the
    call raises [RuntimeError('Unrecognized layer: <class name>')] for that
    layer, whatever comes after it. *)
Theorem unrecognised_layer_is_fatal
    (B : backend) (normalization_mean normalization_std : tensor)
    (style_img content_img : tensor)
    (content_layers style_layers : option (list string)) :
  let assemble cnn := get_style_model_and_losses B cnn normalization_mean
                        normalization_std style_img content_img
                        content_layers style_layers in
  (forall cnn m, assemble cnn = Returns m -> forallb recognised cnn = true) /\
  (forall before l after m,
      assemble before = Returns m ->
      recognised l = false ->
      assemble (before ++ l :: after)
      = Raises (RuntimeError ("Unrecognized layer: " ++ class_name l)%string)).
Proof.
  cbn zeta. split.
  - intros cnn m H. apply get_style_model_and_losses_returns in H.
    destruct H as (s & Hw & _). now apply walk_returns_recognised in Hw.
  - intros before l after m H Hl.
    apply get_style_model_and_losses_returns in H.
    destruct H as (s & Hw & _).
    unfold get_style_model_and_losses. cbn zeta.
    rewrite walk_app, Hw. cbn [bind walk]. unfold walk_layer.
    now rewrite (classify_unrecognised l (block s) Hl).
Qed.

Lemma unrecognised_layer_is_fatal_witness :
  get_style_model_and_losses unit_backend
    (small_cnn ++ AvgPool2d 2 2 0 false :: small_cnn)
    no_tensor no_tensor small_feature small_feature None None
  = Raises (RuntimeError "Unrecognized layer: AvgPool2d").
Proof.
  pose proof (unrecognised_layer_is_fatal unit_backend no_tensor no_tensor
                small_feature small_feature None None) as H.
  cbv zeta in H. destruct H as [_ H].
  eapply (H small_cnn (AvgPool2d 2 2 0 false) small_cnn);
    [vm_compute; reflexivity | reflexivity].
Defined.

(** X8.  Every activation stage of the pipeline returned by
    [get_style_model_and_losses] is an out-of-place [ReLU], whether the
    backbone's activation was in place or not. *)
Theorem activations_are_out_of_place
    (B : backend) (cnn : list layer)
    (normalization_mean normalization_std style_img content_img : tensor)
    (content_layers style_layers : option (list string)) (m : assembled)
    (Hreturns : get_style_model_and_losses B cnn normalization_mean
                  normalization_std style_img content_img
                  content_layers style_layers = Returns m) :
  relu_out_of_place (model m).
Proof.
  apply get_style_model_and_losses_returns in Hreturns.
  destruct Hreturns as (s & Hw & ->). cbn [model].
  apply Forall_firstn_keeps.
  eapply walk_Forall; [| |exact Hw].
  - intros l i0 i name l' Hc. cbn [snd].
    split; [|split; intros; exact I].
    destruct l; cbn in Hc; try discriminate;
      injection Hc as <- <- <-; exact I || reflexivity.
  - repeat constructor.
Qed.

Lemma activations_are_out_of_place_witness :
  exists m,
    get_style_model_and_losses unit_backend small_cnn no_tensor no_tensor
      small_feature small_feature None None = Returns m /\
    In ("relu_1", Backbone (ReLU false)) (model m) /\
    relu_out_of_place (model m).
Proof.
  eexists. split; [vm_compute; reflexivity|]. split; [cbn; auto|].
  apply (activations_are_out_of_place unit_backend small_cnn no_tensor
           no_tensor small_feature small_feature None None).
  vm_compute; reflexivity.
Defined.

Lemma add_module_names (name : string) (x : stage) (m : sequential) :
  stage_names (add_module name x m)
  = if existsb (String.eqb name) (stage_names m) then stage_names m
    else stage_names m ++ [name].
Proof.
  unfold stage_names. induction m as [|[n y] m IH]; [reflexivity|].
  cbn [add_module map fst existsb].
  rewrite (String.eqb_sym name n).
  destruct (String.eqb n name) eqn:E; cbn [orb map fst]; [reflexivity|].
  rewrite IH.
  destruct (existsb (String.eqb name) (map fst m)); reflexivity.
Qed.

Lemma add_module_NoDup (name : string) (x : stage) (m : sequential) :
  NoDup (stage_names m) -> NoDup (stage_names (add_module name x m)).
Proof.
  intros H. rewrite add_module_names.
  destruct (existsb (String.eqb name) (stage_names m)) eqn:E; [exact H|].
  apply NoDup_app; [exact H | repeat constructor; intros [] |].
  intros n Hn [Heq | []]. subst n.
  assert (Ht : existsb (String.eqb name) (stage_names m) = true)
    by (apply existsb_exists; exists name; split;
        [exact Hn | apply String.eqb_refl]).
  congruence.
Qed.

Section PipelineShape.

Variable B : backend.
Variables style_img content_img : tensor.
Variables content_layers style_layers : list string.

(** What holds of a pipeline and is kept by [add_module] holds after the
    walk. *)
Lemma walk_preserves (P : sequential -> Prop) :
  (forall name x m, P m -> P (add_module name x m)) ->
  forall cnn s s',
    P (pipeline s) ->
    walk B style_img content_img content_layers style_layers s cnn = Returns s' ->
    P (pipeline s').
Proof.
  intros HP cnn.
  induction cnn as [|l cnn IH]; intros s s' Hs H; cbn in H.
  - now injection H as <-.
  - apply bind_returns in H. destruct H as [s1 [H1 H]].
    eapply IH; [|exact H].
    apply walk_layer_returns in H1.
    destruct H1 as (i & name & l' & s2 & _ & H2 & H3).
    apply add_content_loss_returns in H2.
    apply add_style_loss_returns in H3.
    assert (Hs2 : P (pipeline s2)).
    { destruct H2 as [[_ ->] | [_ (tgt & st & _ & ->)]]; cbn [pipeline];
        auto. }
    destruct H3 as [[_ ->] | [_ (feat & st & G & _ & _ & ->)]]; cbn [pipeline];
      auto.
Qed.

End PipelineShape.

Lemma In_firstn {A : Type} (x : A) (n : nat) (l : list A) :
  In x (firstn n l) -> In x l.
Proof.
  revert n. induction l as [|y l IH]; intros [|n]; cbn; try tauto.
  intros [H | H]; [now left | right; eauto].
Qed.

Lemma NoDup_firstn_keeps {A : Type} (n : nat) (l : list A) :
  NoDup l -> NoDup (firstn n l).
Proof.
  intros H. revert n. induction H as [|x l Hx Hl IH]; intros [|n]; cbn;
    try constructor; auto.
  intros Hin. apply Hx. eapply In_firstn. exact Hin.
Qed.

(** X9.  The pipeline returned by [get_style_model_and_losses] begins with
    the Normalization stage, named "0", built from the given mean and
    standard deviation viewed as [n, 1, 1]; and no two of its stages have
    the same name. *)
Theorem pipeline_starts_with_normalization
    (B : backend) (cnn : list layer)
    (normalization_mean normalization_std style_img content_img : tensor)
    (content_layers style_layers : option (list string)) (m : assembled)
    (Hreturns : get_style_model_and_losses B cnn normalization_mean
                  normalization_std style_img content_img
                  content_layers style_layers = Returns m) :
  (exists rest,
      model m = ("0", Normalization
                        (mkTensor [List.length (data normalization_mean); 1; 1]
                                  [1; 1; 1] (data normalization_mean))
                        (mkTensor [List.length (data normalization_std); 1; 1]
                                  [1; 1; 1] (data normalization_std))) :: rest) /\
  NoDup (stage_names (model m)).
Proof.
  apply get_style_model_and_losses_returns in Hreturns.
  destruct Hreturns as (s & Hw & ->). cbn [model]. split.
  - destruct (walk_head B style_img content_img _ _ cnn
                (initial_assembly normalization_mean normalization_std) s
                _ [] eq_refl Hw) as [rest Hp].
    rewrite Hp, Nat.add_1_r. cbn [firstn]. eauto.
  - unfold stage_names. rewrite <- firstn_map. apply NoDup_firstn_keeps.
    apply (walk_preserves B style_img content_img
             (or_default content_layers default_content_layers)
             (or_default style_layers default_style_layers)
             (fun p => NoDup (stage_names p))
             (fun name x p => add_module_NoDup name x p) cnn
             (initial_assembly normalization_mean normalization_std) s);
      [|exact Hw].
    cbn. repeat constructor. intros [].
Qed.

Lemma pipeline_starts_with_normalization_witness :
  exists m,
    get_style_model_and_losses unit_backend small_cnn
      (tensor_of [3] [1; 2; 3]%Z) (tensor_of [3] [4; 5; 6]%Z)
      small_feature small_feature
      (Some ["conv_1"; "relu_1"]) (Some ["relu_1"]) = Returns m /\
    NoDup (stage_names (model m)).
Proof.
  eexists. split; [vm_compute; reflexivity|].
  apply (pipeline_starts_with_normalization unit_backend small_cnn
           (tensor_of [3] [1; 2; 3]%Z) (tensor_of [3] [4; 5; 6]%Z)
           small_feature small_feature
           (Some ["conv_1"; "relu_1"]) (Some ["relu_1"])).
  vm_compute; reflexivity.
Defined.

(* ------------------------------------------------------------------ *)
(** ** The forward pass through a pipeline *)

Lemma store_set_has_loss (st : store) (r r' : ref) (self : loss_module) (l : fnum) :
  nth_error st r = Some self ->
  has_loss (store_set r (mkLoss (target self) (Some l)) st) r /\
  (has_loss st r' -> has_loss (store_set r (mkLoss (target self) (Some l)) st) r').
Proof.
  intros Hself. split.
  - exists (mkLoss (target self) (Some l)), l.
    split; [now apply (store_set_same r _ self) | reflexivity].
  - intros (mo & l0 & Hmo & Hl0).
    destruct (Nat.eq_dec r' r) as [-> | Hne].
    + exists (mkLoss (target self) (Some l)), l.
      split; [now apply (store_set_same r _ self) | reflexivity].
    + exists mo, l0. split; [|exact Hl0].
      now rewrite store_set_other.
Qed.

Section ForwardFacts.

Variable B : backend.

(** What a stage does to the store when it returns. *)
Lemma stage_forward_store (st st' : store) (s : stage) (input x : tensor) :
  stage_forward B st s input = Returns (x, st') ->
  List.length st' = List.length st /\
  map target st' = map target st /\
  (forall r, has_loss st r -> has_loss st' r) /\
  (forall r, s = ContentLoss r \/ s = StyleLoss r -> has_loss st' r /\ x = input) /\
  (is_tap s = false -> st' = st).
Proof.
  destruct s as [mean std | l | r | r]; cbn [stage_forward is_tap]; intros H.
  - apply bind_returns in H. destruct H as [y [_ H]]. injection H as _ <-.
    split; [|split; [|split; [|split]]]; auto.
    intros r [Hr | Hr]; discriminate Hr.
  - apply bind_returns in H. destruct H as [y [_ H]]. injection H as _ <-.
    split; [|split; [|split; [|split]]]; auto.
    intros r [Hr | Hr]; discriminate Hr.
  - unfold ContentLoss_forward in H.
    destruct (nth_error st r) as [self|] eqn:Hself; [|discriminate].
    apply bind_returns in H. destruct H as [l [_ H]]. injection H as <- <-.
    destruct (store_set_only_loss r self l st Hself) as (Hlen & Htg & _).
    split; [|split; [|split; [|split]]]; auto.
    + intros r'. apply (proj2 (store_set_has_loss st r r' self l Hself)).
    + intros r' [Hr | Hr]; [|discriminate Hr]. injection Hr as <-.
      split; [|reflexivity]. apply (proj1 (store_set_has_loss st r r self l Hself)).
    + discriminate.
  - unfold StyleLoss_forward in H.
    destruct (nth_error st r) as [self|] eqn:Hself; [|discriminate].
    apply bind_returns in H. destruct H as [G [_ H]].
    apply bind_returns in H. destruct H as [l [_ H]]. injection H as <- <-.
    destruct (store_set_only_loss r self l st Hself) as (Hlen & Htg & _).
    split; [|split; [|split; [|split]]]; auto.
    + intros r'. apply (proj2 (store_set_has_loss st r r' self l Hself)).
    + intros r' [Hr | Hr]; [discriminate Hr|]. injection Hr as <-.
      split; [|reflexivity]. apply (proj1 (store_set_has_loss st r r self l Hself)).
    + discriminate.
Qed.

(** What the pipeline does to the store when it returns: no object is made
    or dropped, no target changes, no [.loss] is lost, and every tap of the
    pipeline has its [.loss]. *)
Lemma Sequential_forward_store (m : sequential) :
  forall (st st' : store) (input x : tensor),
    Sequential_forward B m st input = Returns (x, st') ->
    List.length st' = List.length st /\
    map target st' = map target st /\
    (forall r, has_loss st r -> has_loss st' r) /\
    (forall r, tap_in m r -> has_loss st' r).
Proof.
  induction m as [|[n s] m IH]; intros st st' input x H; cbn in H.
  - injection H as _ <-.
    split; [reflexivity|]. split; [reflexivity|]. split; [auto|].
    intros r [name [[] | []]].
  - apply bind_returns in H. destruct H as [[x1 st1] [H1 H]].
    apply stage_forward_store in H1.
    destruct H1 as (L1 & T1 & K1 & P1 & _).
    apply IH in H. destruct H as (L2 & T2 & K2 & P2).
    split; [congruence|]. split; [congruence|]. split; [auto|].
    intros r [name [[Heq | Hin] | [Heq | Hin]]].
    + injection Heq as _ ->. apply K2. apply (P1 r). now left.
    + apply P2. exists name. now left.
    + injection Heq as _ ->. apply K2. apply (P1 r). now right.
    + apply P2. exists name. now right.
Qed.

End ForwardFacts.

(** X10.  The loss taps are transparent: whenever the forward pass through
    a pipeline returns, the forward pass through the same pipeline with all
    [ContentLoss] and [StyleLoss] stages removed returns the same tensor,
    and changes no loss module. *)
Theorem taps_do_not_change_the_activations (B : backend) (m : sequential) :
  forall (st st' st0 : store) (input x : tensor),
    Sequential_forward B m st input = Returns (x, st') ->
    Sequential_forward B (without_taps m) st0 input = Returns (x, st0).
Proof.
  induction m as [|[n s] m IH]; intros st st' st0 input x H; cbn in H.
  - injection H as <- _. reflexivity.
  - apply bind_returns in H. destruct H as [[x1 st1] [H1 H]].
    unfold without_taps. cbn [filter snd].
    destruct s as [mean std | l | r | r]; cbn [is_tap negb].
    + cbn [Sequential_forward stage_forward] in *.
      apply bind_returns in H1. destruct H1 as [y [Hy H1]].
      injection H1 as <- <-. rewrite Hy. cbn [bind]. eapply IH; exact H.
    + cbn [Sequential_forward stage_forward] in *.
      apply bind_returns in H1. destruct H1 as [y [Hy H1]].
      injection H1 as <- <-. rewrite Hy. cbn [bind]. eapply IH; exact H.
    + apply (stage_forward_store B) in H1.
      destruct H1 as (_ & _ & _ & P & _).
      destruct (P r (or_introl eq_refl)) as [_ ->]. eapply IH; exact H.
    + apply (stage_forward_store B) in H1.
      destruct H1 as (_ & _ & _ & P & _).
      destruct (P r (or_intror eq_refl)) as [_ ->]. eapply IH; exact H.
Qed.

Lemma taps_do_not_change_the_activations_witness :
  exists x st',
    Sequential_forward unit_backend (model tapped_assembly)
      (objects tapped_assembly) small_image = Returns (x, st') /\
    Sequential_forward unit_backend (without_taps (model tapped_assembly))
      [] small_image = Returns (x, []).
Proof.
  eexists. eexists. split; [vm_compute; reflexivity|].
  eapply (taps_do_not_change_the_activations unit_backend
            (model tapped_assembly) (objects tapped_assembly)).
  vm_compute; reflexivity.
Defined.

(* ------------------------------------------------------------------ *)
(** ** The loss modules of an assembly *)

Section AssemblyInvariants.

Variable B : backend.
Variables style_img content_img : tensor.
Variables content_layers style_layers : list string.

(** A property of the locals that each of the three actions of the walk
    keeps (a layer added, a content tap added, a style tap added) holds
    after the walk. *)
Lemma walk_invariant (I : assembly -> Prop) :
  (forall s l i name l',
      I s -> classify l (block s) = Returns (i, name, l') ->
      I (mkAssembly i (add_module name (Backbone l') (pipeline s))
                    (modules s) (content_losses s) (style_losses s))) ->
  (forall s tgt st,
      I s ->
      Sequential_forward B (pipeline s) (modules s) content_img = Returns (tgt, st) ->
      I (mkAssembly (block s)
           (add_module (layer_name "content_loss" (block s))
                       (ContentLoss (List.length st)) (pipeline s))
           (st ++ [mkLoss tgt None])
           (content_losses s ++ [List.length st]) (style_losses s))) ->
  (forall s feat st G,
      I s ->
      Sequential_forward B (pipeline s) (modules s) style_img = Returns (feat, st) ->
      gram_matrix feat = Returns G ->
      I (mkAssembly (block s)
           (add_module (layer_name "style_loss" (block s))
                       (StyleLoss (List.length st)) (pipeline s))
           (st ++ [mkLoss G None])
           (content_losses s) (style_losses s ++ [List.length st]))) ->
  forall cnn s s',
    I s ->
    walk B style_img content_img content_layers style_layers s cnn = Returns s' ->
    I s'.
Proof.
  intros H1 H2 H3 cnn.
  induction cnn as [|l cnn IH]; intros s s' Hs H; cbn in H.
  - now injection H as <-.
  - apply bind_returns in H. destruct H as [s1 [Hl H]].
    eapply IH; [|exact H].
    apply walk_layer_returns in Hl.
    destruct Hl as (i & name & l' & s2 & Hc & Hcl & Hsl).
    apply add_content_loss_returns in Hcl.
    apply add_style_loss_returns in Hsl.
    pose proof (H1 s l i name l' Hs Hc) as Hs1.
    assert (Hs2 : I s2).
    { destruct Hcl as [[_ ->] | [_ (tgt & st & Hf & ->)]]; [exact Hs1|].
      apply (H2 _ tgt st Hs1 Hf). }
    destruct Hsl as [[_ ->] | [_ (feat & st & G & Hf & HG & ->)]];
      [exact Hs2|].
    apply (H3 _ feat st G Hs2 Hf HG).
Qed.

Lemma taps_listed_mono (m : sequential) (cl sl cl' sl' : list ref) :
  (forall r, In r cl -> In r cl') -> (forall r, In r sl -> In r sl') ->
  taps_listed m cl sl -> taps_listed m cl' sl'.
Proof.
  intros Hc Hs. unfold taps_listed. apply Forall_impl.
  intros [n x]. cbn [snd]. destruct x; auto.
Qed.

Lemma walk_listed_once (cnn : list layer) (s s' : assembly) :
  listed_once s ->
  walk B style_img content_img content_layers style_layers s cnn = Returns s' ->
  listed_once s'.
Proof.
  apply walk_invariant; unfold listed_once; cbn [pipeline modules content_losses style_losses].
  - intros s0 l i name l' [Hp Ht] _. split; [exact Hp|].
    apply add_module_Forall; [exact Ht | exact I].
  - intros s0 tgt st [Hp Ht] Hf.
    apply Sequential_forward_store in Hf. destruct Hf as (Hlen & _).
    split.
    + rewrite length_app, Nat.add_1_r, seq_S. cbn [List.length Nat.add].
      rewrite Hlen.
      apply Permutation_trans
        with ((content_losses s0 ++ style_losses s0) ++ [List.length (modules s0)]).
      * rewrite <- !app_assoc. apply Permutation_app_head.
        apply Permutation_app_comm.
      * apply Permutation_app; [exact Hp | apply Permutation_refl].
    + apply add_module_Forall.
      * apply (taps_listed_mono _ (content_losses s0) (style_losses s0));
          auto. intros r Hr. apply in_or_app. now left.
      * cbn [snd]. apply in_or_app. right. now left.
  - intros s0 feat st G [Hp Ht] Hf _.
    apply Sequential_forward_store in Hf. destruct Hf as (Hlen & _).
    split.
    + rewrite length_app, Nat.add_1_r, seq_S. cbn [List.length Nat.add].
      rewrite Hlen, app_assoc.
      apply Permutation_app; [exact Hp | apply Permutation_refl].
    + apply add_module_Forall.
      * apply (taps_listed_mono _ (content_losses s0) (style_losses s0));
          auto. intros r Hr. apply in_or_app. now left.
      * cbn [snd]. apply in_or_app. right. now left.
Qed.

(** One loss module is made for each layer whose name is requested. *)
Lemma walk_counts (cnn : list layer) :
  forall s s',
    walk B style_img content_img content_layers style_layers s cnn = Returns s' ->
    List.length (content_losses s')
    = List.length (content_losses s)
      + count_matches content_layers (backbone_names (block s) cnn) /\
    List.length (style_losses s')
    = List.length (style_losses s)
      + count_matches style_layers (backbone_names (block s) cnn).
Proof.
  unfold count_matches.
  induction cnn as [|l cnn IH]; intros s s' H; cbn in H.
  - injection H as <-. cbn. lia.
  - apply bind_returns in H. destruct H as [s1 [Hl H]].
    pose proof (walk_layer_block _ _ _ _ _ _ _ _ Hl) as (name1 & l1 & Hb).
    apply IH in H. destruct H as [Hc Hs]. rewrite Hc, Hs.
    apply walk_layer_returns in Hl.
    destruct Hl as (i & name & l' & s2 & Hcl & H2 & H3).
    cbn [backbone_names]. rewrite Hcl.
    rewrite Hcl in Hb. injection Hb as <- _ _.
    apply add_content_loss_returns in H2.
    apply add_style_loss_returns in H3.
    cbn [filter].
    destruct H2 as [[Hn2 ->] | [Hn2 (tgt & st & _ & ->)]];
      destruct H3 as [[Hn3 ->] | [Hn3 (feat & st' & G & _ & _ & ->)]];
      rewrite Hn2, Hn3;
      cbn [content_losses style_losses block List.length];
      rewrite ?length_app; cbn [List.length]; lia.
Qed.

End AssemblyInvariants.

(** X11.  In what [get_style_model_and_losses] returns, the two loss lists
    together hold every loss module that was made exactly once (no module
    is in both lists or twice in one, and none is missing), and every
    [ContentLoss] stage of the pipeline is in the content list, every
    [StyleLoss] stage in the style list. *)
Theorem loss_modules_are_listed_once
    (B : backend) (cnn : list layer)
    (normalization_mean normalization_std style_img content_img : tensor)
    (content_layers style_layers : option (list string)) (m : assembled)
    (Hreturns : get_style_model_and_losses B cnn normalization_mean
                  normalization_std style_img content_img
                  content_layers style_layers = Returns m) :
  Permutation (content_refs m ++ style_refs m)
              (seq 0 (List.length (objects m))) /\
  taps_listed (model m) (content_refs m) (style_refs m).
Proof.
  apply get_style_model_and_losses_returns in Hreturns.
  destruct Hreturns as (s & Hw & ->).
  cbn [model content_refs style_refs objects].
  apply walk_listed_once in Hw.
  - destruct Hw as [Hp Ht]. split; [exact Hp|].
    now apply Forall_firstn_keeps.
  - split; [apply Permutation_refl|]. repeat constructor.
Qed.

Lemma loss_modules_are_listed_once_witness :
  exists m,
    get_style_model_and_losses unit_backend small_cnn no_tensor no_tensor
      small_feature small_feature
      (Some ["conv_1"; "relu_1"]) (Some ["relu_1"]) = Returns m /\
    Permutation (content_refs m ++ style_refs m)
                (seq 0 (List.length (objects m))).
Proof.
  eexists. split; [vm_compute; reflexivity|].
  apply (loss_modules_are_listed_once unit_backend small_cnn no_tensor
           no_tensor small_feature small_feature
           (Some ["conv_1"; "relu_1"]) (Some ["relu_1"])).
  vm_compute; reflexivity.
Defined.

(** X12.  [get_style_model_and_losses] makes one loss module for each
    layer whose canonical name is requested, not one for each requested
    depth: the content list has as many modules as there are layers of the
    backbone whose name is in [content_layers], and likewise the style
    list. *)
Theorem one_loss_module_for_each_matching_layer
    (B : backend) (cnn : list layer)
    (normalization_mean normalization_std style_img content_img : tensor)
    (content_layers style_layers : option (list string)) (m : assembled)
    (Hreturns : get_style_model_and_losses B cnn normalization_mean
                  normalization_std style_img content_img
                  content_layers style_layers = Returns m) :
  List.length (content_refs m)
  = count_matches (or_default content_layers default_content_layers)
                  (backbone_names 0 cnn) /\
  List.length (style_refs m)
  = count_matches (or_default style_layers default_style_layers)
                  (backbone_names 0 cnn).
Proof.
  apply get_style_model_and_losses_returns in Hreturns.
  destruct Hreturns as (s & Hw & ->). cbn [content_refs style_refs].
  apply walk_counts in Hw. cbn in Hw. exact Hw.
Qed.

Lemma one_loss_module_for_each_matching_layer_witness :
  exists m,
    get_style_model_and_losses unit_backend
      [Conv2d no_tensor no_tensor; ReLU true; ReLU true]
      no_tensor no_tensor small_feature small_feature
      (Some ["relu_1"; "relu_1"; "conv_8"]) (Some []) = Returns m /\
    List.length (content_refs m) = 2 /\ List.length (style_refs m) = 0.
Proof.
  eexists. split; [vm_compute; reflexivity|].
  apply (one_loss_module_for_each_matching_layer unit_backend
           [Conv2d no_tensor no_tensor; ReLU true; ReLU true]
           no_tensor no_tensor small_feature small_feature
           (Some ["relu_1"; "relu_1"; "conv_8"]) (Some [])).
  vm_compute; reflexivity.
Defined.

Lemma sum_losses_returns (st : store) (refs : list ref) :
  (forall r, In r refs -> has_loss st r) ->
  forall acc, exists v, sum_losses st refs acc = Returns v.
Proof.
  induction refs as [|r refs IH]; intros H acc; cbn [sum_losses]; [eauto|].
  destruct (H r (or_introl eq_refl)) as (mo & l & Hmo & Hl).
  rewrite Hmo, Hl. apply IH. intros r' Hr'. apply H. now right.
Qed.

Lemma has_loss_app (st : store) (x : loss_module) (r : ref) :
  has_loss st r -> has_loss (st ++ [x]) r.
Proof.
  intros (mo & l & Hmo & Hl). exists mo, l. split; [|exact Hl].
  rewrite nth_error_app1; [exact Hmo|].
  apply nth_error_Some. congruence.
Qed.

Lemma tap_name_is_no_layer_name (l l' : layer) (i0 i j : nat) (name : string) :
  classify l i0 = Returns (i, name, l') ->
  String.eqb (layer_name "content_loss" j) name = false /\
  String.eqb (layer_name "style_loss" j) name = false.
Proof.
  intros Hc. apply classify_returns in Hc. destruct Hc as [Hc _].
  cbn [In] in Hc. decompose [or] Hc; try contradiction;
    match goal with E : _ = (i, name) |- _ => injection E as _ <- end;
    split; reflexivity.
Qed.

Section ReadableLosses.

Variable B : backend.
Variables style_img content_img : tensor.
Variables content_layers style_layers : list string.

Lemma tap_in_add_layer (m : sequential) (r : ref) (l l' : layer)
    (i0 i : nat) (name : string) :
  taps_named m ->
  classify l i0 = Returns (i, name, l') ->
  tap_in m r -> tap_in (add_module name (Backbone l') m) r.
Proof.
  intros Hn Hc [k [Hin | Hin]]; exists k;
    pose proof (proj1 (Forall_forall _ _) Hn _ Hin) as [j Hk];
    cbn [fst] in Hk; subst k;
    destruct (tap_name_is_no_layer_name l l' i0 i j name Hc) as [E1 E2];
    [left | right]; now apply add_module_In_other.
Qed.

Lemma walk_readable (cnn : list layer) (s s' : assembly) :
  taps_named (pipeline s) /\
  readable (pipeline s) (content_losses s) (style_losses s) (modules s) ->
  walk B style_img content_img content_layers style_layers s cnn = Returns s' ->
  taps_named (pipeline s') /\
  readable (pipeline s') (content_losses s') (style_losses s') (modules s').
Proof.
  apply (walk_invariant B style_img content_img content_layers style_layers
           (fun s => taps_named (pipeline s) /\
                     readable (pipeline s) (content_losses s) (style_losses s)
                              (modules s)));
    cbn [pipeline modules content_losses style_losses block].
  - intros s0 l i name l' [Hn Hr] Hc. split.
    + apply add_module_Forall; [exact Hn | exact I].
    + intros r Hin. destruct (Hr r Hin) as [H | H]; [now left | right].
      eapply tap_in_add_layer; eauto.
  - intros s0 tgt st [Hn Hr] Hf.
    apply Sequential_forward_store in Hf. destruct Hf as (_ & _ & Hk & Ht).
    split.
    + apply add_module_Forall; [exact Hn | cbn; eauto].
    + intros r Hin.
      rewrite <- app_assoc in Hin. apply in_app_or in Hin.
      destruct Hin as [Hin | Hin]; [|apply in_app_or in Hin; destruct Hin as [[<- | []] | Hin]].
      * left. apply has_loss_app.
        destruct (Hr r (in_or_app _ _ _ (or_introl Hin))); auto.
      * right. eexists. left. apply add_module_In_new.
      * left. apply has_loss_app.
        destruct (Hr r (in_or_app _ _ _ (or_intror Hin))); auto.
  - intros s0 feat st G [Hn Hr] Hf _.
    apply Sequential_forward_store in Hf. destruct Hf as (_ & _ & Hk & Ht).
    split.
    + apply add_module_Forall; [exact Hn | cbn; eauto].
    + intros r Hin.
      rewrite app_assoc in Hin. apply in_app_or in Hin.
      destruct Hin as [Hin | [<- | []]].
      * left. apply has_loss_app. destruct (Hr r Hin); auto.
      * right. eexists. right. apply add_module_In_new.
Qed.

End ReadableLosses.

(** X13.  In what [get_style_model_and_losses] returns, every module of
    the two loss lists either is a stage of the pipeline or has its [.loss]
    set already (a module whose stage was replaced by a later tap of the
    same name is of the second kind).  So after any forward pass of the
    pipeline that returns, every listed module has a [.loss]: the sums
    over [style_losses] and [content_losses] in the closure never fail on
    a missing attribute, in the first evaluation and in every later one. *)
Theorem listed_losses_are_always_readable
    (B : backend) (cnn : list layer)
    (normalization_mean normalization_std style_img content_img : tensor)
    (content_layers style_layers : option (list string)) (m : assembled)
    (Hreturns : get_style_model_and_losses B cnn normalization_mean
                  normalization_std style_img content_img
                  content_layers style_layers = Returns m) :
  readable (model m) (content_refs m) (style_refs m) (objects m) /\
  forall (st st' : store) (input x : tensor) (acc : pyval),
    readable (model m) (content_refs m) (style_refs m) st ->
    Sequential_forward B (model m) st input = Returns (x, st') ->
    readable (model m) (content_refs m) (style_refs m) st' /\
    (exists s, sum_losses st' (style_refs m) acc = Returns s) /\
    (exists c, sum_losses st' (content_refs m) acc = Returns c).
Proof.
  apply get_style_model_and_losses_returns in Hreturns.
  destruct Hreturns as (s & Hw & ->).
  cbn [model content_refs style_refs objects].
  apply walk_readable in Hw.
  - destruct Hw as [_ Hr]. split.
    + intros r Hin. destruct (Hr r Hin) as [H | [name H]]; [now left | right].
      exists name.
      destruct H as [H | H]; [left | right];
        now apply trim_keeps_taps.
    + intros st st' input x acc Hst Hf.
      apply Sequential_forward_store in Hf. destruct Hf as (_ & _ & Hk & Ht).
      assert (Hall : forall r, In r (content_losses s ++ style_losses s) ->
                               has_loss st' r).
      { intros r Hin. destruct (Hst r Hin) as [H | H]; auto. }
      split; [intros r Hin; left; now apply Hall|].
      split; apply sum_losses_returns; intros r Hin; apply Hall;
        apply in_or_app; auto.
  - split; [repeat constructor|]. intros r [].
Qed.

Lemma listed_losses_are_always_readable_witness :
  exists m x st' c,
    get_style_model_and_losses unit_backend small_cnn no_tensor no_tensor
      small_feature small_feature
      (Some ["conv_1"; "relu_1"]) (Some ["relu_1"]) = Returns m /\
    content_refs m = [0; 1] /\ ~ tap_in (model m) 0 /\
    Sequential_forward unit_backend (model m) (objects m) small_image
    = Returns (x, st') /\
    sum_losses st' (content_refs m) (PyNum (Fin 0%Qc)) = Returns c.
Proof.
  assert (H : exists m,
             get_style_model_and_losses unit_backend small_cnn no_tensor
               no_tensor small_feature small_feature
               (Some ["conv_1"; "relu_1"]) (Some ["relu_1"]) = Returns m)
    by (eexists; vm_compute; reflexivity).
  destruct H as [m Hm].
  destruct (listed_losses_are_always_readable unit_backend small_cnn no_tensor
              no_tensor small_feature small_feature
              (Some ["conv_1"; "relu_1"]) (Some ["relu_1"]) m Hm) as [Hr Hf].
  vm_compute in Hm. injection Hm as <-.
  destruct (Hf _ _ small_image small_image (PyNum (Fin 0%Qc)) Hr
              ltac:(vm_compute; reflexivity)) as (_ & _ & [c Hc]).
  eexists. eexists. eexists. exists c.
  split; [vm_compute; reflexivity|]. split; [reflexivity|].
  split; [|split; [vm_compute; reflexivity | exact Hc]].
  intros [name [H | H]]; cbn in H; intuition discriminate.
Defined.

(* ------------------------------------------------------------------ *)
(** ** More on the run *)

Section RunBounds.

Variable B : backend.
Variable pipe : sequential.
Variables style_losses content_losses : list ref.
Variables style_weight content_weight : fnum.
Variable opt : optimizer.
Variable num_steps : Z.

Lemma run_step_evals (S : Type) (p : opt_prog S) :
  forall (k : nat) (w w' : run_state) (s : S),
    evals_at_most k p ->
    run_step B pipe style_losses content_losses style_weight content_weight p w
    = Returns (s, w') ->
    (run w' <= run w + Z.of_nat k)%Z.
Proof.
  induction p as [s0 | f IH | f IH | t p IH]; intros k w w' s Hk H; cbn in H.
  - injection H as _ <-. lia.
  - apply bind_returns in H. destruct H as [[l w1] [H1 H]].
    destruct k as [|k]; [contradiction|]. cbn in Hk.
    apply closure_counter in H1.
    apply (IH _ _ k _ _ _ (Hk _ _)) in H. lia.
  - apply (IH _ k _ _ _ (Hk _)) in H. exact H.
  - apply (IH k _ _ _ Hk) in H. cbn in H. exact H.
Qed.

Lemma optimize_evals (k : nat) :
  (forall os, evals_at_most k (opt_step opt os)) ->
  forall (fuel : nat) (os : opt_state opt) (w w' : run_state),
    optimize B pipe style_losses content_losses style_weight content_weight
             opt num_steps fuel os w = Some (Returns w') ->
    (run w' <= Z.max (run w) (num_steps + Z.of_nat k))%Z.
Proof.
  intros Hk fuel.
  induction fuel as [|fuel IH]; intros os w w' H; cbn in H.
  - destruct (run w <=? num_steps)%Z; [discriminate|].
    injection H as <-. lia.
  - destruct (run w <=? num_steps)%Z eqn:Hle.
    + destruct (run_step B pipe style_losses content_losses style_weight
                         content_weight (opt_step opt os) w)
        as [[os' w1]|e] eqn:Hs; [|discriminate].
      apply IH in H. apply (run_step_evals _ _ k _ _ _ (Hk os)) in Hs.
      apply Z.leb_le in Hle. lia.
    + injection H as <-. lia.
Qed.

(** An evaluation with an empty loss list does not return when the
    progress report is due, and never when both lists are empty. *)
Lemma closure_with_empty_list (w w' : run_state) (l : pyval) :
  closure B pipe style_losses content_losses style_weight content_weight w
  = Returns (l, w') ->
  (style_losses = [] \/ content_losses = [] -> ((run w + 1) mod 10 <> 0)%Z) /\
  ~ (style_losses = [] /\ content_losses = []).
Proof.
  intros H. apply closure_returns in H.
  destruct H as (x & st & s & c & g & printed & saved & H). cbn zeta in H.
  destruct H as (_ & Hs & Hc & Hb & Hp & _).
  split.
  - intros Hempty Hmod. unfold report in Hp.
    apply Z.eqb_eq in Hmod. rewrite Hmod in Hp.
    destruct Hempty as [-> | ->].
    + cbn in Hs. injection Hs as <-. discriminate Hp.
    + cbn in Hc. injection Hc as <-.
      destruct (py_item (py_mul s (PyNum style_weight))); discriminate Hp.
  - intros [-> ->]. cbn in Hs, Hc. injection Hs as <-. injection Hc as <-.
    discriminate Hb.
Qed.

End RunBounds.

(** X14.  The number of evaluations in a run that returns: more than the
    budget (the loop goes on while the counter is at most [num_steps]), and
    at most the budget plus the number of evaluations the optimizer makes
    in one step, so exactly [num_steps + 1] with an optimizer that
    evaluates once a step.  With a negative budget the closure is never
    evaluated: the image is clamped and returned, and nothing but the two
    opening lines is printed. *)
Theorem evaluations_exceed_the_budget_by_less_than_a_step
    (B : backend) (opt : optimizer) (cnn : list layer)
    (normalization_mean normalization_std : tensor)
    (content_img style_img input_img0 : tensor)
    (num_steps : option Z) (style_weight content_weight : option fnum)
    (content_layers style_layers : option (list string))
    (fuel : nat) (w : run_state)
    (Hrun : run_style_transfer B opt cnn normalization_mean normalization_std
              content_img style_img input_img0 num_steps style_weight
              content_weight content_layers style_layers fuel
            = Some (Returns w)) :
  let budget := or_default num_steps run_default_num_steps in
  (budget < run w)%Z /\
  (forall k, (forall os, evals_at_most k (opt_step opt os)) ->
             (run w <= Z.max 0 (budget + Z.of_nat k))%Z) /\
  ((budget < 0)%Z ->
   run w = 0%Z /\
   input_img w = clamp_ 0%Qc 1%Qc input_img0 /\
   out w = [PrintBuilding; PrintOptimizing]).
Proof.
  cbn zeta.
  pose proof (run_style_transfer_cadence _ _ _ _ _ _ _ _ _ _ _ _ _ _ _ Hrun)
    as [_ Hlt].
  apply run_style_transfer_returns in Hrun.
  destruct Hrun as (m & w1 & _ & Ho & ->).
  split; [exact Hlt|]. split.
  - intros k Hk. apply (optimize_evals _ _ _ _ _ _ _ _ k Hk) in Ho.
    exact Ho.
  - intros Hneg.
    assert (Hw1 : w1 = mkRun input_img0 None 0%Z (objects m)
                         [PrintBuilding; PrintOptimizing]).
    { destruct fuel; cbn in Ho;
        (destruct (0 <=? or_default num_steps run_default_num_steps)%Z eqn:E;
         [apply Z.leb_le in E; lia | now injection Ho as <-]). }
    subst w1. repeat split.
Qed.

Lemma evaluations_exceed_the_budget_by_less_than_a_step_witness :
  exists w,
    run_style_transfer unit_backend shift_optimizer small_cnn
      no_tensor no_tensor small_feature small_feature small_image
      (Some 7%Z) None None (Some ["conv_2"]) (Some ["conv_1"]) 10
    = Some (Returns w) /\
    (7 < run w)%Z /\ (run w <= 8)%Z.
Proof.
  eexists. split; [vm_compute; reflexivity|].
  match goal with
  | |- (7 < run ?w)%Z /\ _ =>
      pose proof (evaluations_exceed_the_budget_by_less_than_a_step
                    unit_backend shift_optimizer small_cnn
                    no_tensor no_tensor small_feature small_feature small_image
                    (Some 7%Z) None None (Some ["conv_2"]) (Some ["conv_1"]) 10 w
                    ltac:(vm_compute; reflexivity)) as H
  end.
  cbv zeta in H. destruct H as (H1 & H2 & _).
  split; [exact H1|].
  apply (H2 1). intros os. cbn. intros; exact I.
Defined.

(** X15.  A run in which a loss list is empty cannot succeed.  When the
    assembly returns both lists empty and the budget is not negative, the
    run never returns (the first [loss.backward()] is on a plain number);
    when it returns one of them empty and the budget is at least 9, the
    run never returns either (at the tenth evaluation the score of the
    empty list is a plain number without [.item()]). *)
Theorem run_with_an_empty_loss_list_never_returns
    (B : backend) (opt : optimizer) (cnn : list layer)
    (normalization_mean normalization_std : tensor)
    (content_img style_img input_img0 : tensor)
    (num_steps : option Z) (style_weight content_weight : option fnum)
    (content_layers style_layers : option (list string))
    (m : assembled)
    (Hassembled : get_style_model_and_losses B cnn normalization_mean
                    normalization_std style_img content_img
                    (fst (run_tap_arguments content_layers style_layers))
                    (snd (run_tap_arguments content_layers style_layers))
                  = Returns m) :
  let budget := or_default num_steps run_default_num_steps in
  let result fuel :=
    run_style_transfer B opt cnn normalization_mean normalization_std
      content_img style_img input_img0 num_steps style_weight content_weight
      content_layers style_layers fuel in
  (style_refs m = [] /\ content_refs m = [] -> (0 <= budget)%Z ->
   forall fuel w, result fuel <> Some (Returns w)) /\
  (style_refs m = [] \/ content_refs m = [] -> (9 <= budget)%Z ->
   forall fuel w, result fuel <> Some (Returns w)).
Proof.
  cbn zeta. split.
  - intros Hempty Hb fuel w Hrun.
    apply run_style_transfer_returns in Hrun.
    destruct Hrun as (m' & w1 & Hm & Ho & _).
    rewrite Hassembled in Hm. injection Hm as <-.
    eapply (optimize_invariant _ _ _ _ _ _ _ _ (fun w => run w = 0%Z)) in Ho.
    + destruct Ho as [H0 Hlt]. lia.
    + intros w0 l w' _ Hc.
      apply closure_with_empty_list in Hc. destruct Hc as [_ Hc].
      contradiction.
    + intros w0 t Hw0. exact Hw0.
    + reflexivity.
  - intros Hempty Hb fuel w Hrun.
    apply run_style_transfer_returns in Hrun.
    destruct Hrun as (m' & w1 & Hm & Ho & _).
    rewrite Hassembled in Hm. injection Hm as <-.
    eapply (optimize_invariant _ _ _ _ _ _ _ _
              (fun w => (0 <= run w < 10)%Z)) in Ho.
    + destruct Ho as [H0 Hlt]. lia.
    + intros w0 l w' Hw0 Hc.
      pose proof (closure_counter _ _ _ _ _ _ _ _ _ Hc) as Hrun'.
      apply closure_with_empty_list in Hc. destruct Hc as [Hc _].
      specialize (Hc Hempty). rewrite Hrun'.
      assert (run w0 + 1 <> 10)%Z by (intros E; rewrite E in Hc; now apply Hc).
      lia.
    + intros w0 t Hw0. exact Hw0.
    + cbn. lia.
Qed.

Lemma run_with_an_empty_loss_list_never_returns_witness :
  run_style_transfer unit_backend shift_optimizer small_cnn
    no_tensor no_tensor small_feature small_feature small_image
    (Some 9%Z) None None (Some ["conv_1"]) (Some ["conv_9"]) 20
  = Some (Raises AttributeError) /\
  run_style_transfer unit_backend shift_optimizer small_cnn
    no_tensor no_tensor small_feature small_feature small_image
    (Some 9%Z) None None (Some ["conv_1"]) (Some ["conv_9"]) 20
  <> Some (Returns start_state).
Proof.
  split; [vm_compute; reflexivity|].
  assert (H : exists m,
             get_style_model_and_losses unit_backend small_cnn no_tensor
               no_tensor small_feature small_feature
               (fst (run_tap_arguments (Some ["conv_1"]) (Some ["conv_9"])))
               (snd (run_tap_arguments (Some ["conv_1"]) (Some ["conv_9"])))
             = Returns m /\ style_refs m = [])
    by (eexists; split; vm_compute; reflexivity).
  destruct H as (m & Hm & Hs).
  pose proof (run_with_an_empty_loss_list_never_returns unit_backend
                shift_optimizer small_cnn no_tensor no_tensor small_feature
                small_feature small_image (Some 9%Z) None None
                (Some ["conv_1"]) (Some ["conv_9"]) m Hm) as H.
  cbv zeta in H. destruct H as [_ H].
  apply H; [now left | cbn; lia].
Defined.

Lemma snapshots_app (a b : list event) :
  snapshots_clamped a -> snapshots_clamped b -> snapshots_clamped (a ++ b).
Proof.
  unfold snapshots_clamped. intros Ha Hb.
  apply Forall_app. now split.
Qed.

(** X16.  Every snapshot written during a run is of a clamped image:
    every pixel value of every image handed to [save_image] is NaN or lies
    in [0,1] (no number outside [0,1] and no infinity is ever saved),
    whatever the optimizer wrote into the image between the evaluations;
    so a snapshot without NaN has all its pixel values in [0,1]. *)
Theorem snapshots_are_of_clamped_images
    (B : backend) (opt : optimizer) (cnn : list layer)
    (normalization_mean normalization_std : tensor)
    (content_img style_img input_img0 : tensor)
    (num_steps : option Z) (style_weight content_weight : option fnum)
    (content_layers style_layers : option (list string))
    (fuel : nat) (w : run_state)
    (Hrun : run_style_transfer B opt cnn normalization_mean normalization_std
              content_img style_img input_img0 num_steps style_weight
              content_weight content_layers style_layers fuel
            = Some (Returns w)) :
  forall img path,
    In (SaveImage img path) (out w) ->
    pixels_clamped img /\ (no_nan img -> pixels_in_unit_interval img).
Proof.
  assert (H : snapshots_clamped (out w)).
  { apply run_style_transfer_returns in Hrun.
    destruct Hrun as (m & w1 & _ & Ho & ->). cbn [out with_image].
    eapply (optimize_invariant _ _ _ _ _ _ _ _
              (fun w => snapshots_clamped (out w))) in Ho.
    - apply Ho.
    - intros w0 l w' Hw0 Hc.
      pose proof (closure_image _ _ _ _ _ _ _ _ _ Hc) as Himg.
      apply closure_output in Hc. cbn zeta in Hc.
      destruct Hc as (printed & Hout & Hprinted). rewrite Hout.
      apply snapshots_app; [exact Hw0|]. apply snapshots_app.
      + destruct ((run w0 + 1) mod 10 =? 0)%Z.
        * destruct Hprinted as (vs & vc & ->). repeat constructor.
        * subst printed. constructor.
      + destruct ((run w0 + 1) mod 25 =? 0)%Z; [|constructor].
        constructor; [|constructor]. rewrite Himg.
        apply clamp_pixels_clamped.
    - intros w0 t Hw0. exact Hw0.
    - repeat constructor. }
  intros img path Hin. unfold snapshots_clamped in H.
  rewrite Forall_forall in H. specialize (H _ Hin). cbn in H.
  split; [exact H | now apply pixels_clamped_no_nan].
Qed.

Lemma snapshots_are_of_clamped_images_witness :
  exists w img,
    run_style_transfer unit_backend shift_optimizer small_cnn
      no_tensor no_tensor small_feature small_feature small_image
      (Some 30%Z) None None (Some ["conv_2"]) (Some ["conv_1"]) 40
    = Some (Returns w) /\
    In (SaveImage img "./images/step_25.jpg") (out w) /\
    pixels_clamped img.
Proof.
  eexists. eexists. split; [vm_compute; reflexivity|].
  match goal with
  | |- In (SaveImage ?img ?path) (out ?w) /\ _ =>
      assert (Hin : In (SaveImage img path) (out w));
      [| split; [exact Hin|];
         exact (proj1 (snapshots_are_of_clamped_images unit_backend
                         shift_optimizer small_cnn
                         no_tensor no_tensor small_feature small_feature
                         small_image (Some 30%Z) None None
                         (Some ["conv_2"]) (Some ["conv_1"]) 40 w
                         ltac:(vm_compute; reflexivity) img path Hin))]
  end.
  vm_compute. do 8 right. left. reflexivity.
Defined.

(** X17.  [run_style_transfer] never changes a target and never makes or
    drops a loss module: when it returns, the loss modules are those of the
    assembly, each with the target it was given there. *)
Theorem targets_are_frozen_during_the_run
    (B : backend) (opt : optimizer) (cnn : list layer)
    (normalization_mean normalization_std : tensor)
    (content_img style_img input_img0 : tensor)
    (num_steps : option Z) (style_weight content_weight : option fnum)
    (content_layers style_layers : option (list string))
    (fuel : nat) (w : run_state)
    (Hrun : run_style_transfer B opt cnn normalization_mean normalization_std
              content_img style_img input_img0 num_steps style_weight
              content_weight content_layers style_layers fuel
            = Some (Returns w)) :
  exists m,
    get_style_model_and_losses B cnn normalization_mean normalization_std
      style_img content_img
      (fst (run_tap_arguments content_layers style_layers))
      (snd (run_tap_arguments content_layers style_layers)) = Returns m /\
    List.length (taps w) = List.length (objects m) /\
    map target (taps w) = map target (objects m).
Proof.
  apply run_style_transfer_returns in Hrun.
  destruct Hrun as (m & w1 & Hm & Ho & ->). cbn [taps with_image].
  exists m. split; [exact Hm|].
  eapply (optimize_invariant _ _ _ _ _ _ _ _
            (fun w => List.length (taps w) = List.length (objects m) /\
                      map target (taps w) = map target (objects m))) in Ho.
  - apply Ho.
  - intros w0 l w' [Hl Ht] Hc. apply closure_returns in Hc.
    destruct Hc as (x & st & s & c & g & printed & saved & Hc).
    cbn zeta in Hc. destruct Hc as (Hf & _ & _ & _ & _ & _ & _ & ->).
    cbn [taps]. apply Sequential_forward_store in Hf.
    destruct Hf as (Hl' & Ht' & _). split; congruence.
  - intros w0 t Hw0. exact Hw0.
  - split; reflexivity.
Qed.

Lemma targets_are_frozen_during_the_run_witness :
  exists w m,
    run_style_transfer unit_backend shift_optimizer small_cnn
      no_tensor no_tensor small_feature small_feature small_image
      (Some 3%Z) None None (Some ["conv_2"]) (Some ["conv_1"]) 10
    = Some (Returns w) /\
    get_style_model_and_losses unit_backend small_cnn no_tensor no_tensor
      small_feature small_feature (Some ["conv_2"]) (Some ["conv_1"])
    = Returns m /\
    map target (taps w) = map target (objects m).
Proof.
  assert (H : exists w,
             run_style_transfer unit_backend shift_optimizer small_cnn
               no_tensor no_tensor small_feature small_feature small_image
               (Some 3%Z) None None (Some ["conv_2"]) (Some ["conv_1"]) 10
             = Some (Returns w))
    by (eexists; vm_compute; reflexivity).
  destruct H as [w Hw].
  destruct (targets_are_frozen_during_the_run _ _ _ _ _ _ _ _ _ _ _ _ _ _ _ Hw)
    as (m & Hm & _ & Ht).
  exists w, m. split; [exact Hw|]. split; [exact Hm | exact Ht].
Defined.

(* ------------------------------------------------------------------ *)
(** ** The pipeline and the backbone *)

Lemma named_layers_names (cnn : list layer) :
  forall i, map fst (named_layers i cnn) = backbone_names i cnn.
Proof.
  induction cnn as [|l cnn IH]; intros i; [reflexivity|].
  cbn [named_layers backbone_names].
  destruct (classify l i) as [[[i' name] l']|e]; [|reflexivity].
  cbn [map fst]. now rewrite IH.
Qed.

Lemma add_module_fresh (name : string) (x : stage) (m : sequential) :
  ~ In name (stage_names m) -> add_module name x m = m ++ [(name, x)].
Proof.
  unfold stage_names. induction m as [|[n y] m IH]; intros H; [reflexivity|].
  cbn [add_module app]. cbn [map fst In] in H.
  destruct (String.eqb n name) eqn:E.
  - apply String.eqb_eq in E. tauto.
  - rewrite IH by tauto. reflexivity.
Qed.

Lemma without_taps_add_tap (name : string) (x : stage) (m : sequential) :
  is_tap x = true ->
  (forall y, In (name, y) m -> is_tap y = true) ->
  without_taps (add_module name x m) = without_taps m.
Proof.
  intros Hx. unfold without_taps.
  induction m as [|[n y] m IH]; intros H; cbn [add_module filter snd].
  - now rewrite Hx.
  - destruct (String.eqb n name) eqn:E.
    + apply String.eqb_eq in E. subst n. cbn [filter snd].
      rewrite Hx, (H y (or_introl eq_refl)). reflexivity.
    + cbn [filter snd]. rewrite IH; [reflexivity|].
      intros z Hz. apply H. now right.
Qed.

Lemma without_taps_firstn (k : nat) (m : sequential) :
  exists n, without_taps (firstn k m) = firstn n (without_taps m).
Proof.
  unfold without_taps. revert k.
  induction m as [|[nm x] m IH]; intros [|k]; cbn [firstn filter snd];
    try (exists 0; reflexivity).
  destruct (IH k) as [n Hn].
  destruct (negb (is_tap x)).
  - exists (S n). cbn [firstn]. now rewrite Hn.
  - exists n. exact Hn.
Qed.

Section BackboneOrder.

Variable B : backend.
Variables style_img content_img : tensor.
Variables content_layers style_layers : list string.
Variable head : string * stage.
Hypothesis head_is_normalization :
  exists mean std, head = ("0", Normalization mean std).

(** A tap name is the name of no stage that is not a tap. *)
Lemma tap_name_only_on_taps (m : sequential) (done : sequential)
    (kind : string) (j : nat) (y : stage) :
  kind = "content_loss" \/ kind = "style_loss" ->
  without_taps m = head :: done ->
  (forall n, In n (map fst done) ->
             String.eqb (layer_name "content_loss" j) n = false /\
             String.eqb (layer_name "style_loss" j) n = false) ->
  In (layer_name kind j, y) m -> is_tap y = true.
Proof.
  intros Hkind Hm Hdone Hin.
  destruct (is_tap y) eqn:Ey; [reflexivity|exfalso].
  assert (Hin' : In (layer_name kind j, y) (without_taps m)).
  { unfold without_taps. apply filter_In. cbn [snd]. now rewrite Ey. }
  rewrite Hm in Hin'. destruct Hin' as [Heq | Hin'].
  - destruct head_is_normalization as (mean & std & ->).
    destruct Hkind as [-> | ->]; discriminate Heq.
  - destruct (Hdone (layer_name kind j)) as [E1 E2];
      [apply in_map_iff; exists (layer_name kind j, y); auto|].
    destruct Hkind as [-> | ->]; [rewrite String.eqb_refl in E1
                                 | rewrite String.eqb_refl in E2];
      discriminate.
Qed.

Lemma walk_keeps_the_backbone (cnn : list layer) :
  forall (s s' : assembly) (done : sequential),
    without_taps (pipeline s) = head :: done ->
    taps_named (pipeline s) ->
    Forall layer_named done ->
    NoDup (map fst done ++ backbone_names (block s) cnn) ->
    walk B style_img content_img content_layers style_layers s cnn = Returns s' ->
    without_taps (pipeline s') = head :: done ++ named_layers (block s) cnn.
Proof.
  induction cnn as [|l cnn IH]; intros s s' done Hm Hn Hd Hnd H; cbn in H.
  - injection H as <-. cbn. now rewrite app_nil_r.
  - apply bind_returns in H. destruct H as [s1 [Hl H]].
    apply walk_layer_returns in Hl.
    destruct Hl as (i & name & l' & s2 & Hc & H2 & H3).
    cbn [named_layers backbone_names] in *. rewrite Hc in *.
    (* the layer goes to the end of the pipeline *)
    assert (Hfresh : ~ In name (stage_names (pipeline s))).
    { unfold stage_names. intros Hin. apply in_map_iff in Hin.
      destruct Hin as [[k y] [Hk Hin]]. cbn [fst] in Hk. subst k.
      destruct (is_tap y) eqn:Ey.
      - pose proof (proj1 (Forall_forall _ _) Hn _ Hin) as Hy. cbn [snd fst] in Hy.
        destruct y; try discriminate Ey; destruct Hy as [j Hj];
          destruct (tap_name_is_no_layer_name l l' (block s) i j name Hc)
            as [E1 E2];
          rewrite <- Hj, String.eqb_refl in *; discriminate.
      - assert (Hin' : In (name, y) (without_taps (pipeline s)))
          by (unfold without_taps; apply filter_In; cbn [snd]; now rewrite Ey).
        rewrite Hm in Hin'. destruct Hin' as [Heq | Hin'].
        + destruct head_is_normalization as (mean & std & ->).
          injection Heq as Heq _.
          apply classify_returns in Hc. destruct Hc as [Hc _].
          cbn [In] in Hc. decompose [or] Hc; try contradiction;
            match goal with E : _ = (i, name) |- _ => injection E as _ E' end;
            rewrite <- E' in Heq; discriminate Heq.
        + apply NoDup_remove_2 in Hnd. apply Hnd.
          apply in_or_app. left. apply in_map_iff. exists (name, y). auto. }
    assert (Hd1 : Forall layer_named (done ++ [(name, Backbone l')])).
    { apply Forall_app. split; [exact Hd|]. constructor; [|constructor].
      exists l, l', (block s), i. exact Hc. }
    assert (Hdone1 : forall j n,
               In n (map fst (done ++ [(name, Backbone l')])) ->
               String.eqb (layer_name "content_loss" j) n = false /\
               String.eqb (layer_name "style_loss" j) n = false).
    { intros j n Hin. apply in_map_iff in Hin. destruct Hin as [ns [<- Hin]].
      pose proof (proj1 (Forall_forall _ _) Hd1 _ Hin)
        as (l0 & l0' & i0 & i1 & Hc0).
      exact (tap_name_is_no_layer_name l0 l0' i0 i1 j (fst ns) Hc0). }
    set (p1 := add_module name (Backbone l') (pipeline s)) in *.
    assert (Hm1 : without_taps p1 = head :: done ++ [(name, Backbone l')]).
    { unfold p1. rewrite add_module_fresh by exact Hfresh.
      unfold without_taps in *. rewrite filter_app, Hm. reflexivity. }
    assert (Hn1 : taps_named p1)
      by (apply add_module_Forall; [exact Hn | exact I]).
    apply add_content_loss_returns in H2.
    apply add_style_loss_returns in H3.
    assert (Hs2 : without_taps (pipeline s2) = head :: done ++ [(name, Backbone l')]
                  /\ taps_named (pipeline s2) /\ block s2 = i).
    { destruct H2 as [[_ ->] | [_ (tgt & st & _ & ->)]];
        cbn [pipeline block]; [auto|].
      split; [|split; [|reflexivity]].
      - rewrite without_taps_add_tap; [exact Hm1 | reflexivity |].
        intros y.
        apply (tap_name_only_on_taps p1 (done ++ [(name, Backbone l')])
                 "content_loss" i y); auto.
      - apply add_module_Forall; [exact Hn1 | cbn; eauto]. }
    destruct Hs2 as (Hm2 & Hn2 & Hb2).
    assert (Hs1 : without_taps (pipeline s1) = head :: done ++ [(name, Backbone l')]
                  /\ taps_named (pipeline s1) /\ block s1 = i).
    { destruct H3 as [[_ ->] | [_ (feat & st & G & _ & _ & ->)]];
        cbn [pipeline block]; [auto|].
      split; [|split; [|exact Hb2]].
      - rewrite without_taps_add_tap; [exact Hm2 | reflexivity |].
        intros y. rewrite Hb2.
        apply (tap_name_only_on_taps (pipeline s2)
                 (done ++ [(name, Backbone l')]) "style_loss" i y); auto.
      - apply add_module_Forall; [exact Hn2 | cbn; eauto]. }
    destruct Hs1 as (Hm1' & Hn1' & Hb1).
    rewrite (IH s1 s' (done ++ [(name, Backbone l')]) Hm1' Hn1' Hd1);
      [| |exact H].
    + rewrite Hb1, <- app_assoc. reflexivity.
    + rewrite Hb1, map_app, <- app_assoc. exact Hnd.
Qed.

End BackboneOrder.

(** X18.  When no two layers of the backbone get the same canonical name,
    the pipeline returned by [get_style_model_and_losses], its taps left
    out, is a prefix of the Normalization stage followed by the layers of
    the backbone, in their order, under their canonical names, activations
    and poolings substituted: the assembly reorders, repeats and invents
    no layer. *)
Theorem pipeline_is_a_prefix_of_the_backbone
    (B : backend) (cnn : list layer)
    (normalization_mean normalization_std style_img content_img : tensor)
    (content_layers style_layers : option (list string)) (m : assembled)
    (Hnames : NoDup (backbone_names 0 cnn))
    (Hreturns : get_style_model_and_losses B cnn normalization_mean
                  normalization_std style_img content_img
                  content_layers style_layers = Returns m) :
  exists n,
    without_taps (model m)
    = firstn n (("0", Normalization (view_channels normalization_mean)
                                    (view_channels normalization_std))
                :: named_layers 0 cnn).
Proof.
  apply get_style_model_and_losses_returns in Hreturns.
  destruct Hreturns as (s & Hw & ->). cbn [model].
  destruct (without_taps_firstn (trim_index (pipeline s) (block s) + 1)
              (pipeline s)) as [n Hn].
  exists n. rewrite Hn. f_equal.
  apply (walk_keeps_the_backbone B style_img content_img
           (or_default content_layers default_content_layers)
           (or_default style_layers default_style_layers)
           ("0", Normalization (view_channels normalization_mean)
                               (view_channels normalization_std))
           ltac:(eauto) cnn
           (initial_assembly normalization_mean normalization_std) s []);
    auto.
  repeat constructor.
Qed.

Lemma pipeline_is_a_prefix_of_the_backbone_witness :
  exists m,
    get_style_model_and_losses unit_backend small_cnn no_tensor no_tensor
      small_feature small_feature (Some ["relu_1"]) (Some ["conv_1"])
    = Returns m /\
    without_taps (model m)
    = firstn 3 (("0", Normalization (view_channels no_tensor)
                                    (view_channels no_tensor))
                :: named_layers 0 small_cnn).
Proof.
  eexists. split; [vm_compute; reflexivity|].
  match goal with
  | |- without_taps (model ?m) = _ =>
      destruct (pipeline_is_a_prefix_of_the_backbone unit_backend small_cnn
                  no_tensor no_tensor small_feature small_feature
                  (Some ["relu_1"]) (Some ["conv_1"]) m) as [n Hn]
  end.
  - vm_compute. repeat constructor; cbn; intuition discriminate.
  - vm_compute; reflexivity.
  - vm_compute. reflexivity.
Defined.

(* ------------------------------------------------------------------ *)
(** ** The targets *)

(** What [gram_matrix] returns is a square matrix whose entries [(i, j)]
    and [(j, i)] are the same; it equals its transpose when it holds no
    NaN. *)
Lemma gram_matrix_returns_symmetric (t G : tensor) :
  gram_matrix t = Returns G ->
  exists n,
    shape G = [n; n] /\
    transpose n n (data G) = data G /\
    (no_nan G -> symmetric G).
Proof.
  unfold gram_matrix at 1.
  destruct (shape t) as [|a [|b [|c [|d [|x rest]]]]] eqn:Hs; intros H;
    try discriminate.
  destruct (viewable a b c d (strides t)); [|discriminate].
  injection H as <-. exists (a * b). cbn [shape data fresh_tensor].
  rewrite mm_transpose_entry, map_tabulate.
  change (tabulate (a * b) (a * b) _)
    with (tabulate (a * b) (a * b) (gram_entry (c * d) (a * b * c * d) (data t))).
  split; [reflexivity|]. split; [apply gram_transpose|].
  intros Hnan. unfold symmetric. cbn [shape data fresh_tensor].
  split; [reflexivity|]. rewrite gram_transpose.
  apply equal_entries_refl. exact Hnan.
Qed.

Lemma target_kept (st st' : store) (r : ref) (mo : loss_module) :
  map target st' = map target st ->
  nth_error st r = Some mo ->
  exists mo', nth_error st' r = Some mo' /\ target mo' = target mo.
Proof.
  intros Hmap Hr.
  assert (H : nth_error (map target st') r = Some (target mo))
    by (rewrite Hmap; now apply map_nth_error).
  rewrite nth_error_map in H.
  destruct (nth_error st' r) as [mo'|]; [|discriminate].
  injection H as H. eauto.
Qed.

Lemma style_targets_kept (st st' : store) (x : loss_module) (style : list ref) :
  map target st' = map target st ->
  style_targets_are_gram st style ->
  style_targets_are_gram (st' ++ [x]) style.
Proof.
  intros Hmap H r Hin. destruct (H r Hin) as (mo & feat & Hmo & Hg).
  destruct (target_kept st st' r mo Hmap Hmo) as (mo' & Hmo' & Ht).
  exists mo', feat. split; [|now rewrite Ht].
  rewrite nth_error_app1; [exact Hmo'|]. apply nth_error_Some. congruence.
Qed.

(** X19.  Every module of the style list returned by
    [get_style_model_and_losses] holds as its target a Gram matrix (the
    Gram matrix of some 4-dimensional activation that [view] accepts): a
    square matrix whose entries [(i, j)] and [(j, i)] are the same, which
    equals its own transpose when it holds no NaN (it holds nothing but
    NaN when the activation has no spatial position).  The forward passes
    made while later taps were added have not touched it. *)
Theorem style_targets_are_gram_matrices
    (B : backend) (cnn : list layer)
    (normalization_mean normalization_std style_img content_img : tensor)
    (content_layers style_layers : option (list string)) (m : assembled)
    (Hreturns : get_style_model_and_losses B cnn normalization_mean
                  normalization_std style_img content_img
                  content_layers style_layers = Returns m) :
  forall r, In r (style_refs m) ->
    exists mo feat n,
      nth_error (objects m) r = Some mo /\
      gram_matrix feat = Returns (target mo) /\
      shape (target mo) = [n; n] /\
      transpose n n (data (target mo)) = data (target mo) /\
      (no_nan (target mo) -> symmetric (target mo)).
Proof.
  apply get_style_model_and_losses_returns in Hreturns.
  destruct Hreturns as (s & Hw & ->). cbn [style_refs objects].
  assert (H : style_targets_are_gram (modules s) (style_losses s)).
  { revert Hw.
    apply (walk_invariant B style_img content_img _ _
             (fun s => style_targets_are_gram (modules s) (style_losses s)));
      cbn [modules style_losses].
    - intros s0 l i name l' H _. exact H.
    - intros s0 tgt st H Hf.
      apply Sequential_forward_store in Hf. destruct Hf as (_ & Ht & _).
      now apply (style_targets_kept (modules s0)).
    - intros s0 feat st G H Hf HG.
      apply Sequential_forward_store in Hf. destruct Hf as (_ & Ht & _).
      intros r Hin. apply in_app_or in Hin. destruct Hin as [Hin | [<- | []]].
      + now apply (style_targets_kept (modules s0) st _ (style_losses s0)).
      + exists (mkLoss G None), feat. split; [|exact HG].
        rewrite nth_error_app2, Nat.sub_diag by lia. reflexivity.
    - intros r []. }
  intros r Hin. destruct (H r Hin) as (mo & feat & Hmo & Hg).
  destruct (gram_matrix_returns_symmetric feat _ Hg) as (n & H1 & H2 & H3).
  exists mo, feat, n. auto.
Qed.

Lemma style_targets_are_gram_matrices_witness :
  exists m mo feat,
    get_style_model_and_losses unit_backend small_cnn no_tensor no_tensor
      small_feature small_feature None None = Returns m /\
    In 1 (style_refs m) /\
    nth_error (objects m) 1 = Some mo /\
    gram_matrix feat = Returns (target mo) /\
    shape (target mo) = [2; 2] /\
    symmetric (target mo).
Proof.
  assert (H : exists m,
             get_style_model_and_losses unit_backend small_cnn no_tensor
               no_tensor small_feature small_feature None None = Returns m /\
             In 1 (style_refs m) /\
             exists mo, nth_error (objects m) 1 = Some mo /\
                        shape (target mo) = [2; 2] /\ no_nan (target mo))
    by (eexists; split; [vm_compute; reflexivity|]; split; [cbn; auto|];
        eexists; split; [reflexivity|]; split; [reflexivity|];
        repeat constructor).
  destruct H as (m & Hm & Hin & mo0 & Hmo0 & Hs0 & Hn0).
  destruct (style_targets_are_gram_matrices unit_backend small_cnn no_tensor
              no_tensor small_feature small_feature None None m Hm 1 Hin)
    as (mo & feat & n & H1 & H2 & H3 & H4 & H5).
  rewrite Hmo0 in H1. injection H1 as <-.
  exists m, mo0, feat. auto 10.
Defined.
